(** * Partitioned aggregation jobs over the book-review dataset

    A shallow embedding of the MPI programs of the repository and the
    properties of their partition, aggregation, merge and resolution:
    - [t3.py], [t3q2.py], [t3q2_master.py], [t3_master_only.py]
      (Q2: count the books with average rating 5 and price 2),
    - [src/q3/t3q3.py], [src/q3/t3q3_master.py]
      (Q3: the users who reviewed the largest set of books at average
      rating 4),
    - [src/q4/t3q4.py], [src/q4/t3q4_master.py]
      (Q4: the ten highest-priced books with average rating below 4).

    How the Python values are read:
    - [int] is [Z]; [float] is an IEEE 754 binary64 number of the Standard
      Library's [SpecFloat], with its rounding, infinities and NaN;
    - [str] is [string], the bytes of the UTF-8 text, compared byte by
      byte (the order of the code points); [strip] removes the white space
      of Unicode;
    - a [dict] used as a map is a [gmap]. The order in which Python
      iterates over it is not kept: the programs sort, count or build sets
      from the items, and the order can only show between two candidates
      of the top-10 list with equal sort keys, which are equal up to the
      sign of a zero price;
    - a list, and the [dict] of the final answer of Q4, whose order is
      printed, is a [list];
    - a function that may raise returns a [result]: the value, or the text
      [str(e)] of the exception;
    - the dataset is a [dataframe] of typed records: a file that exists
      is taken to be a well-formed CSV file, [pd.read_csv] of a slice
      takes the records of the slice and fails only on a missing file or
      a negative [nrows]; what is proved of a worker method that reads is
      stated for whatever the read returns or raises. The group-wise sums
      of pandas in Q2 are taken as additions of doubles in row order;
    - the ranks are functions: a worker maps its assignment to the
      messages it sends, rank 0 maps the messages it finds to the
      dictionary it prints. *)

From Stdlib Require Import ZArith Lia Bool.
From Stdlib Require Import Floats.SpecFloat.
From Stdlib Require Import Strings.Ascii Strings.String.
From stdpp Require Import gmap strings list fin_maps sorting pretty.

Open Scope Z_scope.

(** ** Python floats *)

Module Float64.

Definition prec : Z := 53.
Definition emax : Z := 1024.

Definition float64 : Type := spec_float.

Definition fadd : float64 → float64 → float64 := SFadd prec emax.
Definition fsub : float64 → float64 → float64 := SFsub prec emax.
Definition fdiv : float64 → float64 → float64 := SFdiv prec emax.
Definition fopp : float64 → float64 := SFopp.
(** [x == y] and [x < y] on two floats. *)
Definition feqb : float64 → float64 → bool := SFeqb.
Definition fltb : float64 → float64 → bool := SFltb.

Definition is_nan (f : float64) : bool :=
  match f with S754_nan => true | _ => false end.

Definition is_inf (f : float64) : bool :=
  match f with S754_infinity _ => true | _ => false end.

Definition is_zero (f : float64) : bool :=
  match f with S754_zero _ => true | _ => false end.

(** The literal [0.0]. *)
Definition fzero : float64 := S754_zero false.

(** The double nearest to an integer (ties to even), as [float(n)] and the
    conversion of the [int] operand of [float / int] compute it. *)
Definition of_Z (z : Z) : float64 := binary_normalize prec emax z 0 false.

(** [float(n)] raises [OverflowError] when [n] is beyond the doubles. *)
Definition float_of_int (z : Z) : option float64 :=
  let f := of_Z z in if is_inf f then None else Some f.

(** [int(x)]: truncation toward zero; it raises on infinities and NaN. *)
Definition int_of_float (f : float64) : option Z :=
  match f with
  | S754_zero _ => Some 0
  | S754_finite s m e =>
      let a := if 0 <=? e then Z.pos m * 2 ^ e else Z.pos m `div` 2 ^ (- e) in
      Some (if s then - a else a)
  | S754_infinity _ | S754_nan => None
  end.

(** [x == n] for a float [x] and an int [n]: Python compares the two
    numbers exactly, without rounding [n] to a double. *)
Definition eq_int (f : float64) (n : Z) : bool :=
  match f with
  | S754_zero _ => n =? 0
  | S754_finite s m e =>
      let v := if s then Z.neg m else Z.pos m in
      if 0 <=? e then v * 2 ^ e =? n else v =? n * 2 ^ (- e)
  | S754_infinity _ | S754_nan => false
  end.


(** [x or 0.0]: a zero of either sign is falsy and gives way to [0.0]. *)
Definition or_zero (f : float64) : float64 :=
  if is_zero f then fzero else f.

End Float64.

Export Float64.

(** ** Python strings *)

(** The white space [str.strip] removes, in UTF-8: the code points U+0009
    to U+000D and U+001C to U+0020 in one byte, U+0085 and U+00A0 in two,
    U+1680, U+2000 to U+200A, U+2028, U+2029, U+202F, U+205F and U+3000 in
    three. *)
Definition is_space (c : ascii) : bool :=
  let n := nat_of_ascii c in
  ((9 <=? n)%nat && (n <=? 13)%nat) || ((28 <=? n)%nat && (n <=? 32)%nat).

Definition is_space2 (c d : ascii) : bool :=
  let m := nat_of_ascii c in
  let n := nat_of_ascii d in
  (m =? 194)%nat && ((n =? 133)%nat || (n =? 160)%nat).

Definition is_space3 (c d e : ascii) : bool :=
  let m := nat_of_ascii c in
  let n := nat_of_ascii d in
  let o := nat_of_ascii e in
  ((m =? 225)%nat && (n =? 154)%nat && (o =? 128)%nat)
  || ((m =? 226)%nat && (n =? 128)%nat
      && (((128 <=? o)%nat && (o <=? 138)%nat)
          || (o =? 168)%nat || (o =? 169)%nat || (o =? 175)%nat))
  || ((m =? 226)%nat && (n =? 129)%nat && (o =? 159)%nat)
  || ((m =? 227)%nat && (n =? 128)%nat && (o =? 128)%nat).

(** The bytes of a text after the white space it starts with; [sp1], [sp2]
    and [sp3] tell a white-space code point of one, two and three bytes. *)
Fixpoint drop_spaces (sp1 : ascii → bool) (sp2 : ascii → ascii → bool)
    (sp3 : ascii → ascii → ascii → bool) (l : list ascii) : list ascii :=
  match l with
  | c :: l1 =>
      if sp1 c then drop_spaces sp1 sp2 sp3 l1
      else match l1 with
           | d :: l2 =>
               if sp2 c d then drop_spaces sp1 sp2 sp3 l2
               else match l2 with
                    | e :: l3 => if sp3 c d e then drop_spaces sp1 sp2 sp3 l3 else l
                    | [] => l
                    end
           | [] => l
           end
  | [] => []
  end.

Definition lstrip (s : string) : string :=
  string_of_list_ascii (drop_spaces is_space is_space2 is_space3 (list_ascii_of_string s)).

(** From the end: the same on the bytes in reverse. *)
Definition rstrip (s : string) : string :=
  string_of_list_ascii
    (rev (drop_spaces is_space (λ d c, is_space2 c d) (λ e d c, is_space3 c d e)
            (rev (list_ascii_of_string s)))).

Definition strip (s : string) : string := rstrip (lstrip s).

(** [s <= t] on strings: lexicographic on code points, which on UTF-8
    encoded text is the lexicographic order on bytes. *)
Definition str_le (s t : string) : Prop := String.leb s t = true.

(** ** The Partitioner *)

Module Partitioner.

(** [t3q2_master.py], [t3q3_master.py], [t3q4_master.py], [t3_master_only.py]:
<<
    base = DATASET_SIZE // workers
    ranges = []
    for w in range(workers):
        lo = w * base
        hi = (w + 1) * base if w < workers - 1 else DATASET_SIZE
        ranges.append((lo, hi))
>> *)
Definition range_of (DATASET_SIZE workers w : Z) : Z * Z :=
  let base := DATASET_SIZE `div` workers in
  (w * base, if bool_decide (w < workers - 1) then (w + 1) * base else DATASET_SIZE).

Definition ranges (DATASET_SIZE workers : Z) : list (Z * Z) :=
  range_of DATASET_SIZE workers <$> seqZ 0 workers.

(** [chunk_sizes = [0] + [hi - lo for (lo, hi) in ranges]] without the
    leading [0] of the coordinator. *)
Definition sizes (rs : list (Z * Z)) : list Z := (λ r, r.2 - r.1) <$> rs.

(** [t3.py], [t3q2.py] ([run], every rank computes its own slice):
<<
    base = total // size
    lo = rank * base
    hi = (rank + 1) * base if rank < size - 1 else total
    ...
    chunks = [base] * (size - 1) + [total - base * (size - 1)]
>> *)
Definition slice_of_rank (total size rank : Z) : Z * Z :=
  let base := total `div` size in
  (rank * base, if bool_decide (rank < size - 1) then (rank + 1) * base else total).

Definition chunks (total size : Z) : list Z :=
  let base := total `div` size in
  replicate (Z.to_nat (size - 1)) base ++ [total - base * (size - 1)].

Definition sum_list (l : list Z) : Z := foldr Z.add 0 l.

End Partitioner.

(** ** Exceptions *)

(** A computation that returns or raises; [Raise msg] carries [str(e)]. *)
Inductive result (A : Type) : Type :=
| Ok (a : A)
| Raise (msg : string).
Arguments Ok {A} a.
Arguments Raise {A} msg.

Definition bind {A B : Type} (m : result A) (k : A → result B) : result B :=
  match m with
  | Ok a => k a
  | Raise msg => Raise msg
  end.

Notation "x ←! m ; k" := (bind m (λ x, k))
  (at level 20, m at level 100, k at level 200, right associativity,
   format "x  ←!  m ;  '/' k").

(** [foldl] in the [result] monad: a [for] loop whose body may raise. *)
Fixpoint foldlM {A B : Type} (f : A → B → result A) (a : A) (l : list B) : result A :=
  match l with
  | [] => Ok a
  | b :: l' => a' ←! f a b; foldlM f a' l'
  end.

(** ** The Row Source *)

(** A cell of a numeric column as [pd.read_csv] hands it over: a number,
    text that is no number, or nothing. *)
Inductive cell : Type :=
| Num (f : float64)
| Text (s : string)
| Blank.

(** [pd.to_numeric(col, errors="coerce")]: what is no number becomes NaN. *)
Definition to_numeric (c : cell) : float64 :=
  match c with
  | Num f => f
  | Text _ | Blank => S754_nan
  end.

(** One record of the dataset. The id, name and title columns are read with
    [dtype "string"]: a value or [pd.NA]. *)
Record row : Type := Row {
  UId : option string;
  UName : option string;
  BId : option string;
  BTitle : option string;
  BPrice : cell;
  RScore : cell;
}.

Record dataframe : Type := DataFrame {
  columns : list string;
  rows : list row;
}.

(** The files a rank can open. *)
Definition filesystem : Type := string → option dataframe.

(** [repr(s)] of a string of ASCII characters. *)
Definition hex_digit (n : N) : ascii :=
  ascii_of_N (if (n <? 10)%N then 48 + n else 87 + n)%N.

Definition repr_char (quote : ascii) (c : ascii) : string :=
  let n := N_of_ascii c in
  if bool_decide (c = quote) || bool_decide (c = "\"%char) then
    String "\" (String c EmptyString)
  else if (n =? 9)%N then "\t"
  else if (n =? 10)%N then "\n"
  else if (n =? 13)%N then "\r"
  else if (n <? 32)%N || (n =? 127)%N then
    String "\" (String "x" (String (hex_digit (n / 16)) (String (hex_digit (n mod 16)) EmptyString)))
  else String c EmptyString.

Fixpoint has_char (c : ascii) (s : string) : bool :=
  match s with
  | EmptyString => false
  | String d s' => bool_decide (c = d) || has_char c s'
  end.

Fixpoint concat_map (f : ascii → string) (s : string) : string :=
  match s with
  | EmptyString => EmptyString
  | String c s' => f c +:+ concat_map f s'
  end.

Definition dquote : ascii := Eval cbv in ascii_of_N 34.

Definition repr_str (s : string) : string :=
  let quote : ascii :=
    if has_char "'" s && negb (has_char dquote s) then dquote else "'"%char in
  String quote (concat_map (repr_char quote) s) +:+ String quote EmptyString.

Fixpoint join (sep : string) (l : list string) : string :=
  match l with
  | [] => EmptyString
  | [s] => s
  | s :: l' => s +:+ sep +:+ join sep l'
  end.

(** [repr] of a list of strings, as an f-string prints it. *)
Definition repr_list (l : list string) : string :=
  "[" +:+ join ", " (repr_str <$> l) +:+ "]".

(** [str(r)] of a rank. *)
Definition str_int (z : Z) : string := pretty z.

(** [pd.read_csv(path, skiprows=range(1, lo + 1), nrows=nrows, header=0)]:
    the header, then [nrows] records after the first [lo]. A file that is
    there is a well-formed CSV file, given by its records: of the errors
    of [pd.read_csv] only those of the path and of [nrows] are kept, none
    on the content of the file. *)
Definition read_csv (fs : filesystem) (path : string) (lo nrows : Z) : result dataframe :=
  match fs path with
  | None => Raise ("[Errno 2] No such file or directory: " +:+ repr_str path)
  | Some df =>
      if bool_decide (nrows < 0) then Raise "'nrows' must be an integer >=0"
      else Ok (DataFrame (columns df)
                 (take (Z.to_nat nrows) (drop (Z.to_nat lo) (rows df))))
  end.

(** The check of the required columns, in the order the loop runs:
<<
    for col in (...):
        if col not in df.columns:
            raise Exception(f"Column '{col}' not found in dataset.")
>> *)
Definition check_columns (required : list string) (df : dataframe) : result unit :=
  match filter (λ c, c ∉ columns df) required with
  | [] => Ok tt
  | c :: _ => Raise ("Column '" +:+ c +:+ "' not found in dataset.")
  end.

(** ** Sorting *)

(** [sorted] and [list.sort] are stable; so is this insertion sort, which
    puts an element before the later ones it is not greater than. *)
Fixpoint insert_sorted {A : Type} (lt : A → A → bool) (x : A) (l : list A) : list A :=
  match l with
  | [] => [x]
  | y :: l' => if lt y x then y :: insert_sorted lt x l' else x :: y :: l'
  end.

Definition sort_by {A : Type} (lt : A → A → bool) (l : list A) : list A :=
  foldr (insert_sorted lt) [] l.

(** [sorted(names)] on strings. *)
Definition sorted_str (l : list string) : list string := sort_by String.ltb l.

(** [Counter.update(counts)], [counter[k] += n]: counts add up key-wise. *)
Definition counter_update (c d : gmap string Z) : gmap string Z :=
  union_with (λ a b, Some (a + b)) c d.

Definition counter_incr (k : string) (c : gmap string Z) : gmap string Z :=
  <[k := default 0 (c !! k) + 1]> c.

(** The most frequent label, the smallest one on ties:
<<
    top = max(c.values())
    candidates = sorted([n for n, v in c.items() if v == top])
    return candidates[0]
>>
    [items] is [c.items()]; [None] when [c] is empty. *)
Definition max_value (items : list (string * Z)) : option Z :=
  match items with
  | [] => None
  | (_, v) :: rest => Some (foldl (λ acc nv, Z.max acc nv.2) v rest)
  end.

Definition pick_most_frequent (items : list (string * Z)) : option string :=
  top ← max_value items;
  head (sorted_str ((filter (λ nv, nv.2 = top) items).*1)).

(** ** The merge loop *)

(** The three coordinators fold the partial maps into the global map with
    the same two loops,
<<
    for m in worker_maps:
        for key, e in m.items():
            g = global_map.setdefault(key, <empty entry>)
            <fold e into g>
>>
    The keys of one partial map are distinct, so folding it touches each
    global entry at most once: [fold_entry] is what happens at one key. *)
Definition fold_entry {E P : Type} (empty : E) (merge_entry : E → P → E)
    (og : option E) (oe : option P) : option E :=
  match oe with
  | Some e => Some (merge_entry (default empty og) e)
  | None => og
  end.

Definition merge_maps {E P : Type} (empty : E) (merge_entry : E → P → E)
    (global_map : gmap string E) (m : gmap string P) : gmap string E :=
  merge (fold_entry empty merge_entry) global_map m.

(** ** Q2: books with average rating 5 and price 2 *)

Module Q2.

(** An entry [(sum_scores: float, cnt_scores: int, price_or_None)] of a
    [part_map], and [[sum, cnt, price]] of the [global_map]. *)
Record entry : Type := Entry {
  rsum : float64;
  rcnt : Z;
  price : option float64;
}.

Definition empty_entry : entry := Entry fzero 0 None.

(** [t3q2.py], [t3.py], [_process_slice]: the three group-wise aggregates
    and their joins,
<<
    sum_per_book = df.groupby("BId", as_index=False)["RScore"].sum()
    cnt_per_book = (df.assign(rcnt=df["RScore"].notna().astype(int))
                      .groupby("BId", as_index=False)["rcnt"].sum())
    price_any = (df[["BId", "BPrice"]].dropna(subset=["BPrice"])
                   .drop_duplicates(subset=["BId"], keep="last"))
    merged = (sum_per_book.merge(cnt_per_book, on="BId", how="outer")
                          .merge(price_any, on="BId", how="left"))
>>
    read row by row. A record with [BId] missing is in no group; in its
    group, a record adds its [RScore] to [rsum] and one to [rcnt] unless
    the score is NaN, and, unless its [BPrice] is NaN, replaces the price
    kept so far ([keep="last"]). The sum of a group starts from [0.0] and
    is taken in row order. *)
Definition group_step (acc : gmap string entry) (r : row) : gmap string entry :=
  match BId r with
  | None => acc
  | Some bid =>
      let e := default empty_entry (acc !! bid) in
      let score := to_numeric (RScore r) in
      let p := to_numeric (BPrice r) in
      <[bid := Entry (if is_nan score then rsum e else fadd (rsum e) score)
                     (if is_nan score then rcnt e else rcnt e + 1)
                     (if is_nan p then price e else Some p)]> acc
  end.

Definition merged_frame (rs : list row) : gmap string entry :=
  foldl group_step ∅ rs.

(** [(merged["avg"] == 5) & (merged["BPrice"] == 2)] on the rows with
    [rcnt > 0]: comparisons of float64 columns. *)
Definition local_hit (e : entry) : bool :=
  bool_decide (0 < rcnt e)
  && feqb (fdiv (rsum e) (of_Z (rcnt e))) (of_Z 5)
  && match price e with Some p => feqb p (of_Z 2) | None => false end.

(** The compact map sent to the master:
    [(float(rsum or 0.0), int(rcnt or 0), None or float(BPrice))]. *)
Definition compact (e : entry) : entry :=
  Entry (or_zero (rsum e)) (rcnt e) (price e).

(** [_process_slice] once the slice is read. *)
Definition process_frame (df : dataframe) : result (gmap string entry * Z) :=
  _ ←! check_columns ["BId"; "RScore"; "BPrice"] df;
  let merged := merged_frame (rows df) in
  let local_hits := Z.of_nat (length (filter (λ kv, local_hit kv.2 = true) (map_to_list merged))) in
  Ok (compact <$> merged, local_hits).

Definition _process_slice (fs : filesystem) (dataset_path : string) (lo hi : Z)
    : result (gmap string entry * Z) :=
  df ←! read_csv fs dataset_path lo (hi - lo);
  process_frame df.

(** The merge of the partial maps ([t3.py], [t3q2.py], [t3q2_master.py],
    [t3_master_only.py]):
<<
    global_map = {}
    for m in worker_maps:
        for bid, (s, c, p) in m.items():
            g = global_map.setdefault(bid, [0.0, 0, None])
            g[0] += float(s)
            g[1] += int(c)
            if g[2] is None and p is not None:
                g[2] = float(p)
>> *)
Definition merge_entry (g e : entry) : entry :=
  Entry (fadd (rsum g) (rsum e)) (rcnt g + rcnt e)
        (match price g with None => price e | Some _ => price g end).

Definition merge_partial (global_map m : gmap string entry) : gmap string entry :=
  merge_maps empty_entry merge_entry global_map m.

Definition merge_all (worker_maps : list (gmap string entry)) : gmap string entry :=
  foldl merge_partial ∅ worker_maps.

(** [price == 2] where [price] is [None] or a float. *)
Definition price_is (n : Z) (p : option float64) : bool :=
  match p with Some f => eq_int f n | None => false end.

(** [t3q2_master.py], [t3q2.py]:
<<
    if c > 0 and (s == 5 * c) and (price == 2):
        final += 1
>> *)
Definition is_match (e : entry) : bool :=
  bool_decide (0 < rcnt e) && eq_int (rsum e) (5 * rcnt e) && price_is 2 (price e).

Definition final_count (global_map : gmap string entry) : Z :=
  Z.of_nat (length (filter (λ kv, is_match kv.2 = true) (map_to_list global_map))).

(** [t3.py], [t3_master_only.py]:
<<
    if c <= 0:
        continue
    avg = s / c
    if avg == 5 and price == 2:
        final += 1
>>
    [s / c] converts [c] to a double and raises when it is beyond them. *)
Definition is_match_avg (e : entry) : result bool :=
  if bool_decide (rcnt e ≤ 0) then Ok false
  else match float_of_int (rcnt e) with
       | None => Raise "int too large to convert to float"
       | Some c => Ok (eq_int (fdiv (rsum e) c) 5 && price_is 2 (price e))
       end.

Definition final_count_avg (global_map : gmap string entry) : result Z :=
  foldlM (λ final kv, b ←! is_match_avg kv.2; Ok (if b : bool then final + 1 else final))
         0 (map_to_list global_map).

Definition resolve (worker_maps : list (gmap string entry)) : Z :=
  final_count (merge_all worker_maps).

End Q2.

(** ** Q3: users with the largest set of books at average rating 4 *)

Module Q3.

(** The per-user accumulator
    [{"sum": 0, "cnt": 0, "books": set(), "name_counts": Counter()}]
    of the worker's [local] and of the master's [users]. *)
Record info : Type := Info {
  sum : Z;
  cnt : Z;
  books : gset string;
  name_counts : gmap string Z;
}.

Definition empty_info : info := Info 0 0 ∅ ∅.

(** An entry of the payload a worker sends: [books] is a list there. *)
Record payload_info : Type := PayloadInfo {
  p_sum : Z;
  p_cnt : Z;
  p_books : list string;
  p_name_counts : gmap string Z;
}.

(** [name_counts[s] += 1] for the stripped, non-empty name of a record. *)
Definition count_label (label : option string) (counts : gmap string Z) : gmap string Z :=
  match label with
  | None => counts
  | Some name =>
      let s := strip name in
      if bool_decide (s = EmptyString) then counts else counter_incr s counts
  end.

(** [t3q3.py], the body of the loop over the records in [_work]:
<<
    r = row["RScore"]
    if pd.isna(r):
        continue
    uid = row["UId"]
    bid = row["BId"]
    if pd.isna(uid) or pd.isna(bid):
        continue
    local[uid]["sum"] += int(r)
    local[uid]["cnt"] += 1
    local[uid]["books"].add(bid)
    ...
>> *)
Definition step (local : gmap string info) (r : row) : result (gmap string info) :=
  let score := to_numeric (RScore r) in
  if is_nan score then Ok local
  else match UId r, BId r with
       | Some uid, Some bid =>
           let u := default empty_info (local !! uid) in
           match int_of_float score with
           | None => Raise "cannot convert float infinity to integer"
           | Some n =>
               Ok (<[uid := Info (sum u + n) (cnt u + 1) ({[bid]} ∪ books u)
                                 (count_label (UName r) (name_counts u))]> local)
           end
       | _, _ => Ok local
       end.

Definition to_payload (u : info) : payload_info :=
  PayloadInfo (sum u) (cnt u) (elements (books u)) (name_counts u).

Definition aggregate (rs : list row) : result (gmap string info) :=
  foldlM step ∅ rs.

(** [_work] once the slice is read. *)
Definition work_frame (df : dataframe) : result (gmap string payload_info * Z) :=
  _ ←! check_columns ["UId"; "UName"; "BId"; "RScore"] df;
  local ←! aggregate (rows df);
  Ok (to_payload <$> local, Z.of_nat (size local)).

Definition _work (fs : filesystem) (dataset_path : string) (lo hi : Z)
    : result (gmap string payload_info * Z) :=
  df ←! read_csv fs dataset_path lo (Z.max 0 (hi - lo));
  work_frame df.

(** [t3q3_master.py], the merge of the partial user maps:
<<
    for m in worker_partials:
        for uid, info in m.items():
            u = users[uid]
            u["sum"] += int(info["sum"])
            u["cnt"] += int(info["cnt"])
            u["books"].update(info.get("books", []))
            u["name_counts"].update(info.get("name_counts", {}))
>> *)
Definition merge_info (u : info) (i : payload_info) : info :=
  Info (sum u + p_sum i) (cnt u + p_cnt i)
       (books u ∪ list_to_set (p_books i))
       (counter_update (name_counts u) (p_name_counts i)).

Definition merge_partial (users : gmap string info) (m : gmap string payload_info)
    : gmap string info :=
  merge_maps empty_info merge_info users m.

Definition merge_all (worker_partials : list (gmap string payload_info)) : gmap string info :=
  foldl merge_partial ∅ worker_partials.

(** [pick_display_name(uid, counts)]. *)
Definition pick_display_name (uid : string) (counts : gmap string Z) : string :=
  default uid (pick_most_frequent (map_to_list counts)).

(** [u["cnt"] and (u["sum"] == 4 * u["cnt"])]. *)
Definition eligible (u : info) : bool :=
  negb (cnt u =? 0) && (sum u =? 4 * cnt u).

(** The final answer:
<<
    if not eligible_counts:
        final = ""
    else:
        best = max(eligible_counts.values())
        winners = [uid for uid, nbooks in eligible_counts.items() if nbooks == best]
        final = ", ".join(sorted({name_of[uid] for uid in winners}))
>>
    [items] is [users.items()]. *)
Definition nbooks (kv : string * info) : Z := Z.of_nat (size (books kv.2)).

Definition final_of_items (items : list (string * info)) : string :=
  match filter (λ kv, eligible kv.2 = true) items with
  | [] => EmptyString
  | kv0 :: rest =>
      let best := foldl (λ acc kv, Z.max acc (nbooks kv)) (nbooks kv0) rest in
      let winners := filter (λ kv, nbooks kv = best) (kv0 :: rest) in
      let names : gset string :=
        list_to_set ((λ kv, pick_display_name kv.1 (name_counts kv.2)) <$> winners) in
      join ", " (sorted_str (elements names))
  end.

Definition final_answer (users : gmap string info) : string :=
  final_of_items (map_to_list users).

Definition resolve (worker_partials : list (gmap string payload_info)) : string :=
  final_answer (merge_all worker_partials).

End Q3.

(** ** Q4: the ten highest-priced books with average rating below 4 *)

Module Q4.

(** [{"sum": 0, "cnt": 0, "price": None, "title_counts": Counter()}], the
    accumulator of the worker, the payload entry and the master's entry. *)
Record info : Type := Info {
  sum : Z;
  cnt : Z;
  price : option float64;
  title_counts : gmap string Z;
}.

Definition empty_info : info := Info 0 0 None ∅.

Definition count_label (label : option string) (counts : gmap string Z) : gmap string Z :=
  match label with
  | None => counts
  | Some title =>
      let s := strip title in
      if bool_decide (s = EmptyString) then counts else counter_incr s counts
  end.

(** [t3q4.py], the body of the loop over the records in [_work]:
<<
    r = row["RScore"]
    if pd.isna(r):
        continue
    bid = row["BId"]
    if pd.isna(bid):
        continue
    entry = local[bid]
    entry["sum"] += int(r)
    entry["cnt"] += 1
    price = row["BPrice"]
    if entry["price"] is None and pd.notna(price):
        entry["price"] = float(price)
    ...
>> *)
Definition step (local : gmap string info) (r : row) : result (gmap string info) :=
  let score := to_numeric (RScore r) in
  if is_nan score then Ok local
  else match BId r with
       | Some bid =>
           let entry := default empty_info (local !! bid) in
           match int_of_float score with
           | None => Raise "cannot convert float infinity to integer"
           | Some n =>
               let p := to_numeric (BPrice r) in
               Ok (<[bid := Info (sum entry + n) (cnt entry + 1)
                                 (match price entry with
                                  | None => if is_nan p then None else Some p
                                  | Some q => Some q
                                  end)
                                 (count_label (BTitle r) (title_counts entry))]> local)
           end
       | None => Ok local
       end.

Definition aggregate (rs : list row) : result (gmap string info) :=
  foldlM step ∅ rs.

(** [_work] once the slice is read. *)
Definition work_frame (df : dataframe) : result (gmap string info * Z) :=
  _ ←! check_columns ["BId"; "BTitle"; "BPrice"; "RScore"] df;
  local ←! aggregate (rows df);
  Ok (local, Z.of_nat (size local)).

Definition _work (fs : filesystem) (dataset_path : string) (lo hi : Z)
    : result (gmap string info * Z) :=
  df ←! read_csv fs dataset_path lo (Z.max 0 (hi - lo));
  work_frame df.

(** [t3q4_master.py], the merge of the per-book aggregates:
<<
    for pm in worker_partials:
        for bid, info in pm.items():
            b = books[bid]
            b["sum"] += int(info["sum"])
            b["cnt"] += int(info["cnt"])
            if b["price"] is None and info["price"] is not None:
                b["price"] = float(info["price"])
            b["title_counts"].update(info.get("title_counts", {}))
>> *)
Definition merge_info (b i : info) : info :=
  Info (sum b + sum i) (cnt b + cnt i)
       (match price b with None => price i | Some _ => price b end)
       (counter_update (title_counts b) (title_counts i)).

Definition merge_partial (books pm : gmap string info) : gmap string info :=
  merge_maps empty_info merge_info books pm.

Definition merge_all (worker_partials : list (gmap string info)) : gmap string info :=
  foldl merge_partial ∅ worker_partials.

(** [pick_title(tc)]: "Empty if none." *)
Definition pick_title (tc : gmap string Z) : string :=
  default EmptyString (pick_most_frequent (map_to_list tc)).

(** The candidate filter: [c > 0], [sum < 4 * c] and a known price. *)
Definition eligible (i : info) : bool :=
  bool_decide (0 < cnt i) && bool_decide (sum i < 4 * cnt i)
  && bool_decide (price i ≠ None).

(** [candidates], from [books.items()]:
<<
    for bid, info in books.items():
        c = info["cnt"]
        if c <= 0:
            continue
        if info["sum"] < 4 * c and info["price"] is not None:
            title = pick_title(info["title_counts"])
            price = float(info["price"])
            candidates.append((title, price))
>> *)
Definition candidates (items : list (string * info)) : list (string * float64) :=
  omap (λ kv, if eligible kv.2
              then p ← price kv.2; Some (pick_title (title_counts kv.2), p)
              else None) items.

(** [a < b] on the sort keys [(-price, title)]: tuples compare by their
    first components that are not [==]. *)
Definition key_lt (a b : string * float64) : bool :=
  if feqb (fopp a.2) (fopp b.2) then String.ltb a.1 b.1
  else fltb (fopp a.2) (fopp b.2).

(** [{title: price for title, price in top10}]: a title met again keeps its
    place and takes the new price. *)
Fixpoint dict_set (k : string) (v : float64) (d : list (string * float64))
    : list (string * float64) :=
  match d with
  | [] => [(k, v)]
  | (k', v') :: d' => if bool_decide (k' = k) then (k, v) :: d' else (k', v') :: dict_set k v d'
  end.

Definition dict_of (l : list (string * float64)) : list (string * float64) :=
  foldl (λ d kv, dict_set kv.1 kv.2 d) [] l.

(** [candidates.sort(key=lambda x: (-x[1], x[0]))], [candidates[:10]]. *)
Definition top10 (cands : list (string * float64)) : list (string * float64) :=
  take 10 (sort_by key_lt cands).

Definition final_answer (books : gmap string info) : list (string * float64) :=
  dict_of (top10 (candidates (map_to_list books))).

Definition resolve (worker_partials : list (gmap string info)) : list (string * float64) :=
  final_answer (merge_all worker_partials).

End Q4.

(** ** The Coordination Protocol *)

(** The master-only coordinators [t3q2_master.py], [t3q3_master.py] and
    [t3q4_master.py] are one program up to the worker's method, the merge
    with its resolution, and the numbers of the three tags. *)

Module Coordinator.

Section master_only.

Context {Payload Answer : Type}.

(** [sol._process_slice(lo, hi)] or [sol._work(lo, hi)] on the files of the
    rank, and the merge followed by the resolution of the query. *)
Variable work : filesystem → string → Z → Z → result (Payload * Z).
Variable resolve : list Payload → Answer.

(** What a worker sends to rank 0: [(part_map, int(local_hits))] with
    [TAG_RESULT], or [str(e)] with [TAG_ERROR]. *)
Inductive message : Type :=
| Result (part_map : Payload) (local_hits : Z)
| Error (err : string).

(** [(DATA_PATH, DATASET_SIZE, lo, hi)], sent with [TAG_RANGE]. *)
Record assignment : Type := Assignment {
  a_path : string;
  a_size : Z;
  a_lo : Z;
  a_hi : Z;
}.

(** A worker rank, as the list of the messages it sends:
<<
    try:
        DATA_PATH, DATASET_SIZE, lo, hi = comm.recv(source=0, tag=TAG_RANGE)
        sol = MPISolution(dataset_path=DATA_PATH, dataset_size=DATASET_SIZE)
        part_map, local_hits = sol._process_slice(lo, hi)
        comm.send((part_map, int(local_hits)), dest=0, tag=TAG_RESULT)
    except Exception as e:
        comm.send(str(e), dest=0, tag=TAG_ERROR)
>> *)
Definition worker_main (fs : filesystem) (a : assignment) : list message :=
  match work fs (a_path a) (a_lo a) (a_hi a) with
  | Ok (part_map, local_hits) => [Result part_map local_hits]
  | Raise e => [Error e]
  end.

(** The printed dictionary. [final_answer] is the answer of the query or a
    message. *)
Inductive final : Type :=
| Message (s : string)
| Value (a : Answer).

Record job_result : Type := JobResult {
  final_answer : final;
  chunkSizePerThread : list Z;
  answerPerThread : list Z;
  totalTimeTaken : float64;
}.

Definition failure (msg : string) : job_result :=
  JobResult (Message msg) [] [] fzero.

(** [f"[rank {r}] {err}"]. *)
Definition tagged (r : Z) (err : string) : string :=
  "[rank " +:+ str_int r +:+ "] " +:+ err.

(** The three lists of the gather loop. *)
Record gathered : Type := Gathered {
  worker_maps : list Payload;
  per_rank_hits : list Z;
  worker_errors : list string;
}.

(** One round of the gather loop, on the messages rank [r] has sent; with
    none to receive, [comm.probe] does not return.
<<
    comm.probe(source=r, tag=MPI.ANY_TAG, status=status)
    if status.Get_tag() == TAG_ERROR:
        err = comm.recv(source=r, tag=TAG_ERROR)
        worker_errors.append(f"[rank {r}] {err}")
    else:
        part_map, local_hits = comm.recv(source=r, tag=TAG_RESULT)
        worker_maps.append(part_map)
        per_rank_hits.append(int(local_hits))
>> *)
Definition gather_step (inbox : Z → list message) (st : option gathered) (r : Z)
    : option gathered :=
  g ← st;
  match inbox r with
  | [] => None
  | Error err :: _ =>
      Some (Gathered (worker_maps g) (per_rank_hits g)
              (worker_errors g ++ [tagged r err]))
  | Result part_map local_hits :: _ =>
      Some (Gathered (worker_maps g ++ [part_map]) (per_rank_hits g ++ [local_hits])
              (worker_errors g))
  end.

Definition gather (inbox : Z → list message) (size : Z) : option gathered :=
  foldl (gather_step inbox) (Some (Gathered [] [] [])) (seqZ 1 (size - 1)).

(** Rank 0 prints one dictionary, or waits for a message for ever. *)
Inductive outcome : Type :=
| Printed (d : job_result)
| Blocked.

(** The messages rank 0 finds from rank [r]: what the rank sends back on
    the assignment [ranges[r - 1]] it was sent. *)
Definition inbox_of (path : string) (DATASET_SIZE : Z) (ranges : list (Z * Z))
    (respond : Z → assignment → list message) (r : Z) : list message :=
  match ranges !! Z.to_nat (r - 1) with
  | Some (lo, hi) => respond r (Assignment path DATASET_SIZE lo hi)
  | None => []
  end.

(** [main] on rank 0. [respond r a] is what rank [r] sends back on the
    assignment [a]; [t0] and [t1] are the two readings of [time.time()]. *)
Definition master (fs : filesystem) (size : Z) (DATA_PATH : option string)
    (DATASET_SIZE : Z) (t0 t1 : float64)
    (respond : Z → assignment → list message) : outcome :=
  let workers := size - 1 in
  if bool_decide (workers < 1) then
    Printed (failure "Need at least 1 worker (run with -n >= 2)")
  else
    match DATA_PATH with
    | None => Printed (failure "Dataset path/size missing or invalid")
    | Some path =>
        if bool_decide (path = EmptyString) || negb (bool_decide (is_Some (fs path)))
           || bool_decide (DATASET_SIZE ≤ 0) then
          Printed (failure "Dataset path/size missing or invalid")
        else
          let ranges := Partitioner.ranges DATASET_SIZE workers in
          match gather (inbox_of path DATASET_SIZE ranges respond) size with
          | None => Blocked
          | Some g =>
              match worker_errors g with
              | _ :: _ =>
                  Printed (failure ("Worker errors: " +:+ repr_list (worker_errors g)))
              | [] =>
                  Printed (JobResult (Value (resolve (worker_maps g)))
                             (0 :: Partitioner.sizes ranges)
                             (0 :: per_rank_hits g)
                             (fsub t1 t0))
              end
          end
    end.

(** The job: rank 0 and the worker ranks together. *)
Definition job (fs : filesystem) (size : Z) (DATA_PATH : option string)
    (DATASET_SIZE : Z) (t0 t1 : float64) : outcome :=
  master fs size DATA_PATH DATASET_SIZE t0 t1 (λ _ a, worker_main fs a).

End master_only.

End Coordinator.

(** [t3q2_master.py], [t3q3_master.py], [t3q4_master.py]. *)
Definition t3q2_master := Coordinator.job Q2._process_slice Q2.resolve.
Definition t3q3_master := Coordinator.job Q3._work Q3.resolve.
Definition t3q4_master := Coordinator.job Q4._work Q4.resolve.

(** ** The participating runs and the first coordinator *)

(** [run] of [t3.py] and of [t3q2.py] lets every rank, rank 0 included,
    process a slice and collects the partial maps with [comm.gather];
    [t3_master_only.py] is the first master-only coordinator, which has no
    error channel. The ranks see the same files and are started with the
    same configuration; [size] is the size of [MPI.COMM_WORLD], at least
    one. *)

Module Participating.

Import Coordinator.

(** [_process_slice(lo, hi)] on the slice of a rank:
<<
    base = total // size
    lo = rank * base
    hi = (rank + 1) * base if rank < size - 1 else total
>> *)
Definition slice (fs : filesystem) (path : string) (total size rank : Z)
    : result (gmap string Q2.entry * Z) :=
  Q2._process_slice fs path (Partitioner.slice_of_rank total size rank).1
                            (Partitioner.slice_of_rank total size rank).2.

(** [comm.gather(x, root=0)] on rank 0: the values of the ranks, in rank
    order, once every rank has called it. [sent] says, rank by rank, what a
    rank brings to the call, or that it has raised before and left the
    [try] block: rank 0 then waits for it. *)
Definition gather_all {A : Type} (sent : list (result A)) : option (list A) :=
  mapM (λ s, match s with Ok x => Some x | Raise _ => None end) sent.

(** [run] of [t3.py], seen from rank 0. The constructor is given the size
    as an [int], as the script does.
<<
    try:
        if not self.dataset_path:
            raise Exception("Dataset path not provided.")
        total = int(self.dataset_size)
        ...
        part_map, local_hits = self._process_slice(lo, hi)
        all_maps = comm.gather(part_map, root=0)
        per_rank_hits = comm.gather(int(local_hits), root=0)
        if rank == 0:
            <merge, final count, print>
    except Exception as err:
        if rank == 0:
            print({"final_answer": str(err), "chunkSizePerThread": [],
                   "answerPerThread": [], "totalTimeTaken": 0.0})
>> *)
Definition t3_run (fs : filesystem) (size : Z) (dataset_path : option string)
    (dataset_size : Z) (t0 t1 : float64) : @outcome Z :=
  match dataset_path with
  | None => Printed (failure "Dataset path not provided.")
  | Some path =>
      if bool_decide (path = EmptyString) then
        Printed (failure "Dataset path not provided.")
      else
        let total := dataset_size in
        match slice fs path total size 0 with
        | Raise err => Printed (failure err)
        | Ok (part_map, local_hits) =>
            match gather_all (slice fs path total size <$> seqZ 1 (size - 1)) with
            | None => Blocked
            | Some others =>
                let all_maps := part_map :: others.*1 in
                let per_rank_hits := local_hits :: others.*2 in
                match Q2.final_count_avg (Q2.merge_all all_maps) with
                | Raise err => Printed (failure err)
                | Ok final =>
                    Printed (JobResult (Value final) (Partitioner.chunks total size)
                               per_rank_hits (fsub t1 t0))
                end
            end
        end
  end.

(** The environment of [t3q2.py]: [os.getenv("PATH_DATASET")], and the
    integer the text of [DATASET_SIZE] spells, when it is set. *)
Record environ : Type := Environ {
  env_PATH_DATASET : option string;
  env_DATASET_SIZE : option Z;
}.

(** [a or b] on an optional text: [None] and the empty text are falsy. *)
Definition or_path (a b : option string) : option string :=
  match a with
  | Some s => if bool_decide (s = EmptyString) then b else a
  | None => b
  end.

(** What a rank of [t3q2.py] brings to the three gathers:
<<
    try:
        part_map, local_hits = self._process_slice(lo, hi)
        err = ""
    except Exception as e:
        part_map, local_hits, err = {}, 0, str(e)
>> *)
Definition contribution (s : result (gmap string Q2.entry * Z))
    : gmap string Q2.entry * Z * string :=
  match s with
  | Ok (part_map, local_hits) => (part_map, local_hits, EmptyString)
  | Raise e => (∅, 0, e)
  end.

(** The slice of a rank, processed by the method [work] of the object. *)
Definition slice_of (work : filesystem → string → Z → Z → result (gmap string Q2.entry * Z))
    (fs : filesystem) (path : string) (total size rank : Z)
    : result (gmap string Q2.entry * Z) :=
  work fs path (Partitioner.slice_of_rank total size rank).1
               (Partitioner.slice_of_rank total size rank).2.

(** [run] of [t3q2.py], seen from rank 0, which prints one dictionary;
    [work] is the method [_process_slice] of the object the ranks run.
    [dataset_size] is the argument of the constructor, which keeps
    [int(dataset_size) if dataset_size else 0].
<<
    DATA_PATH = self.dataset_path or os.getenv("PATH_DATASET")
    DATASET_SIZE = self.dataset_size or int(os.getenv("DATASET_SIZE", "3000000"))
    ...
    if not DATA_PATH or not os.path.exists(DATA_PATH) or DATASET_SIZE <= 0:
        <print "Dataset path/size missing or invalid">
    ...
    all_maps = comm.gather(part_map, root=0)
    per_rank_hits = comm.gather(int(local_hits), root=0)
    errors = comm.gather(err, root=0)
    if any(errors):
        <print f"Worker errors: {[e for e in errors if e]}">
>> *)
Definition t3q2_run_of (work : filesystem → string → Z → Z → result (gmap string Q2.entry * Z))
    (fs : filesystem) (env : environ) (size : Z)
    (dataset_path : option string) (dataset_size : option Z) (t0 t1 : float64)
    : @job_result Z :=
  let self_dataset_size := default 0 dataset_size in
  let DATA_PATH := or_path dataset_path (env_PATH_DATASET env) in
  let DATASET_SIZE :=
    if bool_decide (self_dataset_size = 0) then default 3000000 (env_DATASET_SIZE env)
    else self_dataset_size in
  match DATA_PATH with
  | None => failure "Dataset path/size missing or invalid"
  | Some path =>
      if bool_decide (path = EmptyString) || negb (bool_decide (is_Some (fs path)))
         || bool_decide (DATASET_SIZE ≤ 0) then
        failure "Dataset path/size missing or invalid"
      else
        let gathered :=
          contribution ∘ slice_of work fs path DATASET_SIZE size <$> seqZ 0 size in
        let all_maps := gathered.*1.*1 in
        let per_rank_hits := gathered.*1.*2 in
        let errors := gathered.*2 in
        if bool_decide (Exists (λ e, e ≠ EmptyString) errors) then
          failure ("Worker errors: " +:+ repr_list (filter (λ e, e ≠ EmptyString) errors))
        else
          JobResult (Value (Q2.final_count (Q2.merge_all all_maps)))
                    (Partitioner.chunks DATASET_SIZE size) per_rank_hits (fsub t1 t0)
  end.

(** [MPISolution(dataset_path, dataset_size).run()]. *)
Definition t3q2_run : filesystem → environ → Z → option string → option Z
    → float64 → float64 → @job_result Z :=
  t3q2_run_of Q2._process_slice.

End Participating.

(** [t3_master_only.py]: rank 0 sends [ranges[r - 1]] to rank [r] and
    receives one result from each rank; a worker whose method raises sends
    nothing. *)
Module MasterOnly.

Import Coordinator.

(** A worker rank, as the list of the messages it sends:
<<
    try:
        ...
        else:
            lo, hi = comm.recv(source=0, tag=TAG_RANGE)
            part_map, local_hits = sol._process_slice(lo, hi)
            comm.send((part_map, int(local_hits)), dest=0, tag=TAG_RESULT)
    except Exception as err:
        if rank == 0:
            print(...)
>> *)
Definition worker_main (fs : filesystem) (path : string) (range : Z * Z)
    : list (gmap string Q2.entry * Z) :=
  match Q2._process_slice fs path range.1 range.2 with
  | Ok (part_map, local_hits) => [(part_map, local_hits)]
  | Raise _ => []
  end.

(** One round of the loop that receives; with nothing to receive,
    [comm.recv] does not return.
<<
    part_map, local_hits = comm.recv(source=r, tag=TAG_RESULT)
    partial_maps.append(part_map)
    local_counts.append(int(local_hits))
>> *)
Definition recv_step (inbox : Z → list (gmap string Q2.entry * Z))
    (st : option (list (gmap string Q2.entry) * list Z)) (r : Z)
    : option (list (gmap string Q2.entry) * list Z) :=
  s ← st;
  match inbox r with
  | [] => None
  | (part_map, local_hits) :: _ => Some (s.1 ++ [part_map], s.2 ++ [local_hits])
  end.

Definition inbox_of (ranges : list (Z * Z))
    (respond : Z → Z * Z → list (gmap string Q2.entry * Z)) (r : Z)
    : list (gmap string Q2.entry * Z) :=
  match ranges !! Z.to_nat (r - 1) with
  | Some range => respond r range
  | None => []
  end.

(** [main] on rank 0; [respond r range] is what rank [r] sends back. *)
Definition master (size : Z) (DATA_PATH : option string) (DATASET_SIZE : Z)
    (t0 t1 : float64) (respond : Z → Z * Z → list (gmap string Q2.entry * Z))
    : @outcome Z :=
  match DATA_PATH with
  | None => Printed (failure "Dataset path/size missing")
  | Some path =>
      if bool_decide (path = EmptyString) || bool_decide (DATASET_SIZE ≤ 0) then
        Printed (failure "Dataset path/size missing")
      else
        let workers := size - 1 in
        if bool_decide (workers < 1) then
          Printed (failure "Need at least 1 worker (-n >= 2)")
        else
          let ranges := Partitioner.ranges DATASET_SIZE workers in
          match foldl (recv_step (inbox_of ranges respond)) (Some ([], []))
                      (seqZ 1 (size - 1)) with
          | None => Blocked
          | Some (partial_maps, local_counts) =>
              match Q2.final_count_avg (Q2.merge_all partial_maps) with
              | Raise err => Printed (failure err)
              | Ok final =>
                  Printed (JobResult (Value final) (0 :: Partitioner.sizes ranges)
                             (0 :: local_counts) (fsub t1 t0))
              end
          end
  end.

(** The job: rank 0 and the worker ranks, which open the path of their own
    [DATA_PATH]. *)
Definition main (fs : filesystem) (size : Z) (DATA_PATH : option string)
    (DATASET_SIZE : Z) (t0 t1 : float64) : @outcome Z :=
  master size DATA_PATH DATASET_SIZE t0 t1
    (λ _ range, worker_main fs (default EmptyString DATA_PATH) range).

End MasterOnly.

(** * The vocabulary of the properties *)

(** What the statements below are written with: views of the entries,
    the records a worker counts, the order of the sort keys. *)

(** *** The Merge Engine *)

(** Two optional entries combined; an absent one leaves the other. *)
Definition option_combine {E : Type} (combine : E → E → E) (a b : option E) : option E :=
  match a, b with
  | Some u, Some v => Some (combine u v)
  | Some u, None => Some u
  | None, o => o
  end.

(** Two entries of Q3 added up, and a payload entry read as an entry. *)
Definition q3_combine (u v : Q3.info) : Q3.info :=
  Q3.Info (Q3.sum u + Q3.sum v) (Q3.cnt u + Q3.cnt v) (Q3.books u ∪ Q3.books v)
          (counter_update (Q3.name_counts u) (Q3.name_counts v)).

Definition q3_of_payload (i : Q3.payload_info) : Q3.info :=
  Q3.Info (Q3.p_sum i) (Q3.p_cnt i) (list_to_set (Q3.p_books i)) (Q3.p_name_counts i).

(** An entry of Q4 without its price, and the sum of two of them. *)
Definition q4_numbers (i : Q4.info) : Z * Z * gmap string Z :=
  (Q4.sum i, Q4.cnt i, Q4.title_counts i).

Definition add_numbers (a b : Z * Z * gmap string Z) : Z * Z * gmap string Z :=
  (a.1.1 + b.1.1, a.1.2 + b.1.2, counter_update a.2 b.2).

(** [if b["price"] is None and info["price"] is not None]. *)
Definition first_price (a b : option float64) : option float64 :=
  match a with None => b | Some _ => a end.

(** No two partial maps hold different prices for one id. *)
Definition prices_agree (ps : list (gmap string Q4.info)) : Prop :=
  ∀ p q k i j a b, p ∈ ps → q ∈ ps → p !! k = Some i → q !! k = Some j →
    Q4.price i = Some a → Q4.price j = Some b → a = b.

Definition q2_prices_agree (ps : list (gmap string Q2.entry)) : Prop :=
  ∀ p q k i j a b, p ∈ ps → q ∈ ps → p !! k = Some i → q !! k = Some j →
    Q2.price i = Some a → Q2.price j = Some b → a = b.

(** An entry of Q2 without its float sum, and the merge of two of them. *)
Definition q2_view (e : Q2.entry) : Z * option float64 := (Q2.rcnt e, Q2.price e).

Definition add_view (a b : Z * option float64) : Z * option float64 :=
  (a.1 + b.1, first_price a.2 b.2).

(** *** The Local Aggregator *)

(** A record with a missing or non-numeric rating, or without the id the
    query groups by. *)
Definition q3_skipped (r : row) : bool :=
  is_nan (to_numeric (RScore r)) || bool_decide (UId r = None).

Definition q4_skipped (r : row) : bool :=
  is_nan (to_numeric (RScore r)) || bool_decide (BId r = None).

(** The rating of a record, NaN when it is missing or no number. *)
Definition rating (r : row) : float64 := to_numeric (RScore r).

(** [int(r)] of the rating of a counted record. *)
Definition int_rating (r : row) : Z := default 0 (int_of_float (rating r)).

(** The exact sum of the ratings of some records, as integers. *)
Definition exact_sum (rs : list row) : Z := Partitioner.sum_list (int_rating <$> rs).

(** The price of a record, when it has one. *)
Definition known_price (r : row) : option float64 :=
  let p := to_numeric (BPrice r) in if is_nan p then None else Some p.

(** The records [_work] of Q4 counts for a book, and [_work] of Q3 for a
    user. *)
Definition q4_counted (bid : string) (r : row) : bool :=
  negb (is_nan (rating r)) && bool_decide (BId r = Some bid).


(** The records of the group of a book in [_process_slice] of Q2, and
    those of them with a rating. *)
Definition q2_grouped (bid : string) (r : row) : bool := bool_decide (BId r = Some bid).

Definition rated (r : row) : bool := negb (is_nan (rating r)).

(** *** The order of floats and the top-10 resolver *)

(** A float that is not NaN, as a triple of integers whose lexicographic
    order is the order [<] of the floats. *)
Definition frank (f : float64) : Z * Z * Z :=
  match f with
  | S754_zero _ | S754_nan => (0, 0, 0)
  | S754_infinity s => (if s then -2 else 2, 0, 0)
  | S754_finite s m e => if s then (-1, - e, Z.neg m) else (1, e, Z.pos m)
  end.

Definition lex_lt (a b : Z * Z * Z) : Prop :=
  a.1.1 < b.1.1 ∨ (a.1.1 = b.1.1 ∧ (a.1.2 < b.1.2 ∨ (a.1.2 = b.1.2 ∧ a.2 < b.2))).

Definition lex_eq (a b : Z * Z * Z) : Prop :=
  a.1.1 = b.1.1 ∧ a.1.2 = b.1.2 ∧ a.2 = b.2.

(** [a] stands before [b]: its price is higher, or the prices are equal and
    its title is not greater. *)
Definition before (a b : string * float64) : Prop :=
  fltb b.2 a.2 = true ∨ (feqb a.2 b.2 = true ∧ str_le a.1 b.1).

(** No worker sends NaN as a price, and the merge invents none. *)
Definition price_ok (i : Q4.info) : Prop :=
  ∀ p, Q4.price i = Some p → is_nan p = false.

(** Ten eligible books with ten prices; ["B3"] and ["B7"] carry one title. *)
Definition ten_books : gmap string Q4.info :=
  list_to_map
    ((λ n : Z, ("B" +:+ str_int n,
                Q4.Info 3 1 (Some (of_Z (10 + n)))
                        {[ (if bool_decide (n = 7) then "T3" else "T" +:+ str_int n) := 1 ]}))
       <$> seqZ 0 10).

(** *** The Coordination Protocol *)

(** What the gather loop takes from the first message of rank [r]. *)
Definition reported_error {Payload : Type}
    (inbox : Z → list (@Coordinator.message Payload)) (r : Z) : option string :=
  match inbox r with
  | Coordinator.Error err :: _ => Some (Coordinator.tagged r err)
  | _ => None
  end.

Definition reported_result {Payload : Type}
    (inbox : Z → list (@Coordinator.message Payload)) (r : Z) : option (Payload * Z) :=
  match inbox r with
  | Coordinator.Result part_map local_hits :: _ => Some (part_map, local_hits)
  | _ => None
  end.

(** The error of rank [r] in the job, when its worker method raises. *)
Definition raised {Payload : Type}
    (work : filesystem → string → Z → Z → result (Payload * Z))
    (fs : filesystem) (path : string) (DATASET_SIZE workers : Z) (r : Z) : option string :=
  match Partitioner.ranges DATASET_SIZE workers !! Z.to_nat (r - 1) with
  | Some (lo, hi) =>
      match work fs path lo hi with
      | Raise e => Some (Coordinator.tagged r e)
      | Ok _ => None
      end
  | None => None
  end.

(** *** The eligibility predicates *)



(** *** The eligibility predicates and the float sum of Q2 *)



(** *** The Row Source and the Partitioner together *)

(** The records of a range of row indices. *)
Definition rows_of_range {A : Type} (l : list A) (range : Z * Z) : list A :=
  take (Z.to_nat (range.2 - range.1)) (drop (Z.to_nat range.1) l).

(** *** The errors of the workers *)

(** A record [_work] would count, whose rating is infinite: [int(r)]
    raises on it. *)
Definition q3_overflows (r : row) : bool :=
  is_inf (rating r) && bool_decide (UId r ≠ None) && bool_decide (BId r ≠ None).

Definition q4_overflows (r : row) : bool :=
  is_inf (rating r) && bool_decide (BId r ≠ None).

(** The check of the columns stops at [c]: the columns before it are
    there, [c] is not. *)
Definition first_missing (required : list string) (df : dataframe) (c : string) : Prop :=
  ∃ before after, required = before ++ c :: after
                  ∧ Forall (λ b, b ∈ columns df) before ∧ c ∉ columns df.

(** *** The Coordination Protocol, when the workers succeed *)

(** The result of rank [r] in the job, when its worker method returns. *)
Definition answered {Payload : Type}
    (work : filesystem → string → Z → Z → result (Payload * Z))
    (fs : filesystem) (path : string) (DATASET_SIZE workers : Z) (r : Z)
    : option (Payload * Z) :=
  match Partitioner.ranges DATASET_SIZE workers !! Z.to_nat (r - 1) with
  | Some (lo, hi) =>
      match work fs path lo hi with
      | Ok x => Some x
      | Raise _ => None
      end
  | None => None
  end.

(** *** The participating runs *)

(** What a call returned, and the text of what it raised. *)
Definition returned {A : Type} (s : result A) : option A :=
  match s with Ok x => Some x | Raise _ => None end.

Definition raised_text {A : Type} (s : result A) : option string :=
  match s with Ok _ => None | Raise e => Some e end.

(** What rank 0 of [t3q2.py] merges and reports for a rank: the map and
    the count its call returned, the empty map and [0] when it raised. *)
Definition merged_map (s : result (gmap string Q2.entry * Z)) : gmap string Q2.entry :=
  match s with Ok x => x.1 | Raise _ => ∅ end.

Definition reported_hits (s : result (gmap string Q2.entry * Z)) : Z :=
  match s with Ok x => x.2 | Raise _ => 0 end.

(** A method that fails where [lo] is in [bad], with the text [text lo],
    and returns an empty map and [hi - lo] elsewhere. *)
Definition failing_on (bad : list Z) (text : Z → string)
    : filesystem → string → Z → Z → result (gmap string Q2.entry * Z) :=
  λ _ _ lo hi, if bool_decide (lo ∈ bad) then Raise (text lo) else Ok (∅, hi - lo).

(** *** The resolver of Q3 *)

(** An eligible entry of [users.items()] with the largest set of books
    among the eligible ones. *)
Definition q3_wins (items : list (string * Q3.info)) (kv : string * Q3.info) : Prop :=
  kv ∈ items ∧ Q3.eligible kv.2 = true
  ∧ ∀ kv', kv' ∈ items → Q3.eligible kv'.2 = true → Q3.nbooks kv' ≤ Q3.nbooks kv.

(** *** The entries the workers build *)

(** Bytes that start with no white-space code point. *)
Definition clean_start (sp1 : ascii → bool) (sp2 : ascii → ascii → bool)
    (sp3 : ascii → ascii → ascii → bool) (l : list ascii) : bool :=
  match l with
  | c :: l1 =>
      negb (sp1 c)
      && match l1 with
         | d :: l2 =>
             negb (sp2 c d)
             && match l2 with
                | e :: _ => negb (sp3 c d e)
                | [] => true
                end
         | [] => true
         end
  | [] => true
  end.

(** The labels of a counter are stripped and not empty, and none is
    counted more often than [n] times. *)
Definition labels_ok (counts : gmap string Z) (n : Z) : Prop :=
  ∀ label v, counts !! label = Some v →
    label ≠ EmptyString ∧ strip label = label ∧ 1 ≤ v ≤ n.

Definition q3_entry_ok (u : Q3.info) : Prop :=
  1 ≤ Q3.cnt u ∧ Q3.books u ≠ ∅ ∧ Z.of_nat (size (Q3.books u)) ≤ Q3.cnt u
  ∧ labels_ok (Q3.name_counts u) (Q3.cnt u).

Definition q3_payload_ok (i : Q3.payload_info) : Prop :=
  1 ≤ Q3.p_cnt i ∧ Q3.p_books i ≠ [] ∧ NoDup (Q3.p_books i)
  ∧ Z.of_nat (length (Q3.p_books i)) ≤ Q3.p_cnt i
  ∧ labels_ok (Q3.p_name_counts i) (Q3.p_cnt i).

Definition q4_entry_ok (i : Q4.info) : Prop :=
  1 ≤ Q4.cnt i ∧ price_ok i ∧ labels_ok (Q4.title_counts i) (Q4.cnt i).

(** *** The printed list of errors *)

(** A text of printable ASCII characters without backslash and double
    quote: [repr] only puts it between quotes, double ones when it holds
    a single quote. *)
Definition plain_char (c : ascii) : bool :=
  let n := N_of_ascii c in
  (32 <=? n)%N && (n <=? 126)%N && negb (n =? 34)%N && negb (n =? 92)%N.

Fixpoint plain (s : string) : bool :=
  match s with
  | EmptyString => true
  | String c s' => plain_char c && plain s'
  end.

Definition quoted (s : string) : string :=
  if has_char "'" s then String dquote (s +:+ String dquote EmptyString)
  else "'" +:+ s +:+ "'".

(** The text of a list as [repr] prints it when its items are plain. *)
Definition quoted_list (l : list string) : string :=
  "[" +:+ join ", " (quoted <$> l) +:+ "]".

(** *** The top-10 resolver at work *)

(** Twelve eligible books, two at each of the prices 20 to 25, with twelve
    titles. *)
Definition twelve_priced : gmap string Q4.info :=
  list_to_map
    ((λ n : Z, ("B" +:+ str_int n,
                Q4.Info 3 1 (Some (of_Z (20 + n `div` 2))) {[ "T" +:+ str_int n := 1 ]}))
       <$> seqZ 0 12).

(** * Properties *)

(** ** The Partitioner *)

Section partitioner_facts.

Import Partitioner.

Lemma lookup_ranges (N W : Z) (i : nat) (r : Z * Z) :
  ranges N W !! i = Some r ↔ Z.of_nat i < W ∧ r = range_of N W (Z.of_nat i).
Proof.
  unfold ranges. rewrite list_lookup_fmap, fmap_Some. split.
  - intros (w & Hw & ->). apply lookup_seqZ in Hw as [-> ?]. by rewrite Z.add_0_l.
  - intros [? ->]. exists (Z.of_nat i). split; [|done].
    apply lookup_seqZ. lia.
Qed.

Lemma length_ranges (N W : Z) : length (ranges N W) = Z.to_nat W.
Proof. unfold ranges. by rewrite length_fmap, length_seqZ. Qed.

Lemma sum_list_app (l k : list Z) : sum_list (l ++ k) = sum_list l + sum_list k.
Proof. unfold sum_list. induction l as [|x l IH]; simpl; [done|]. rewrite IH. lia. Qed.

Lemma sum_list_replicate (n : nat) (x : Z) : sum_list (replicate n x) = Z.of_nat n * x.
Proof. unfold sum_list. induction n as [|n IH]; simpl; [done|]. rewrite IH. lia. Qed.

Lemma sizes_ranges (N W : Z) : 1 ≤ W → sizes (ranges N W) = chunks N W.
Proof.
  intros HW. unfold sizes, ranges, chunks. rewrite <- list_fmap_compose.
  replace (seqZ 0 W) with (seqZ 0 ((W - 1) + 1)) by (f_equal; lia).
  rewrite seqZ_app by lia. rewrite fmap_app. f_equal.
  - apply list_eq. intros i. rewrite list_lookup_fmap.
    destruct (decide (Z.of_nat i < W - 1)) as [Hi|Hi].
    + rewrite lookup_seqZ_lt by done. rewrite lookup_replicate_2 by lia. simpl.
      rewrite bool_decide_eq_true_2 by lia. f_equal. lia.
    + rewrite lookup_seqZ_ge by lia. simpl. symmetry.
      apply lookup_replicate_None. lia.
  - rewrite seqZ_cons by lia. rewrite seqZ_nil by lia. simpl.
    rewrite bool_decide_eq_false_2 by lia. f_equal. lia.
Qed.

Lemma sum_chunks (N W : Z) : 1 ≤ W → sum_list (chunks N W) = N.
Proof.
  intros HW. unfold chunks. rewrite sum_list_app, sum_list_replicate.
  unfold sum_list. simpl. rewrite Z2Nat.id by lia. lia.
Qed.

End partitioner_facts.

(** C3. For [N > 0] rows and [W >= 1] workers the Partitioner produces
    exactly [W] ranges; the first starts at [0], the last ends at [N], each
    ends where the next starts and none is reversed, so they do not overlap
    and leave no gap: every row index of [[0, N)] lies in exactly one range.
    Each of the first [W - 1] ranges holds [N // W] rows, the last one the
    rest, the sizes are the [chunks] of [t3.py] and they sum to [N]. *)
Theorem partition_coverage (N W : Z) :
  0 < N → 1 ≤ W →
  let rs := Partitioner.ranges N W in
  length rs = Z.to_nat W
  ∧ fst <$> head rs = Some 0
  ∧ snd <$> last rs = Some N
  ∧ (∀ (i : nat) r r', rs !! i = Some r → rs !! S i = Some r' → r.2 = r'.1)
  ∧ (∀ (i : nat) r, rs !! i = Some r → r.1 ≤ r.2)
  ∧ (∀ x, 0 ≤ x < N → ∃ (i : nat) r, rs !! i = Some r ∧ r.1 ≤ x < r.2)
  ∧ (∀ (i j : nat) ri rj x, rs !! i = Some ri → rs !! j = Some rj →
       ri.1 ≤ x < ri.2 → rj.1 ≤ x < rj.2 → i = j)
  ∧ (∀ (i : nat) r, Z.of_nat i < W - 1 → rs !! i = Some r → r.2 - r.1 = N `div` W)
  ∧ (∀ r, last rs = Some r → r.2 - r.1 = N - (W - 1) * (N `div` W))
  ∧ (∀ rank, 0 ≤ rank < W →
       rs !! Z.to_nat rank = Some (Partitioner.slice_of_rank N W rank))
  ∧ Partitioner.sizes rs = Partitioner.chunks N W
  ∧ Partitioner.sum_list (Partitioner.sizes rs) = N.
Proof.
  intros HN HW rs.
  assert (Hbase : 0 ≤ N `div` W) by (apply Z.div_pos; lia).
  assert (Hmul : W * (N `div` W) ≤ N) by (apply Z.mul_div_le; lia).
  assert (Hlast : last rs = Some (Partitioner.range_of N W (W - 1))).
  { rewrite last_lookup. subst rs. rewrite length_ranges.
    apply lookup_ranges. split; [lia|]. f_equal. lia. }
  repeat split.
  - apply length_ranges.
  - rewrite head_lookup. replace (rs !! 0%nat) with (Some (Partitioner.range_of N W (Z.of_nat 0))).
    + done.
    + symmetry. apply lookup_ranges. split; [lia|done].
  - rewrite Hlast. simpl. by rewrite bool_decide_eq_false_2 by lia.
  - intros i r r' Hr Hr'. apply lookup_ranges in Hr as [Hi ->].
    apply lookup_ranges in Hr' as [Hi' ->]. simpl.
    rewrite bool_decide_eq_true_2 by lia. lia.
  - intros i r Hr. apply lookup_ranges in Hr as [Hi ->]. simpl.
    case_bool_decide; nia.
  - intros x Hx. destruct (decide (x < (W - 1) * (N `div` W))) as [Hlt|Hge].
    + assert (0 < N `div` W) by nia.
      exists (Z.to_nat (x `div` (N `div` W))), (Partitioner.range_of N W (x `div` (N `div` W))).
      assert (0 ≤ x `div` (N `div` W)) by (apply Z.div_pos; lia).
      assert (x `div` (N `div` W) < W - 1) by (apply Z.div_lt_upper_bound; lia).
      split.
      * apply lookup_ranges. rewrite Z2Nat.id by lia. split; [lia|done].
      * simpl. rewrite bool_decide_eq_true_2 by lia.
        pose proof (Z.mul_div_le x (N `div` W)).
        pose proof (Z.mul_succ_div_gt x (N `div` W)). lia.
    + exists (Z.to_nat (W - 1)), (Partitioner.range_of N W (W - 1)). split.
      * apply lookup_ranges. rewrite Z2Nat.id by lia. split; [lia|done].
      * simpl. rewrite bool_decide_eq_false_2 by lia. lia.
  - intros i j ri rj x Hi Hj Hxi Hxj.
    apply lookup_ranges in Hi as [Hi ->]. apply lookup_ranges in Hj as [Hj ->].
    simpl in *. repeat case_bool_decide; nia.
  - intros i r Hi Hr. apply lookup_ranges in Hr as [_ ->]. simpl.
    rewrite bool_decide_eq_true_2 by lia. lia.
  - intros r Hr. rewrite Hlast in Hr. injection Hr as <-. simpl.
    rewrite bool_decide_eq_false_2 by lia. lia.
  - intros rank Hrank. apply lookup_ranges. rewrite Z2Nat.id by lia. split; [lia|done].
  - by apply sizes_ranges.
  - subst rs. rewrite sizes_ranges by done. by apply sum_chunks.
Qed.

Lemma partition_coverage_witness :
  0 < 10 ∧ 1 ≤ 3 ∧ Partitioner.sum_list (Partitioner.sizes (Partitioner.ranges 10 3)) = 10.
Proof.
  split; [lia|]. split; [lia|].
  apply (partition_coverage 10 3); lia.
Defined.

(** ** Sorting *)

Section sort_facts.

Context {A : Type} (lt : A → A → bool).

Lemma insert_sorted_perm (x : A) (l : list A) : insert_sorted lt x l ≡ₚ x :: l.
Proof.
  induction l as [|y l IH]; simpl; [done|].
  destruct (lt y x); [|done]. rewrite IH. apply Permutation_swap.
Qed.

Lemma sort_by_perm (l : list A) : sort_by lt l ≡ₚ l.
Proof.
  unfold sort_by. induction l as [|x l IH]; simpl; [done|].
  rewrite insert_sorted_perm. by rewrite IH.
Qed.

(** The order is only asked to behave on the elements that satisfy [P]
    (the floats that are not NaN). *)
Context (P : A → Prop).
Hypothesis lt_asym : ∀ x y, P x → P y → lt x y = true → lt y x = false.
Hypothesis le_trans : ∀ x y z, P x → P y → P z →
  lt y x = false → lt z y = false → lt z x = false.

Lemma insert_sorted_sorted (x : A) (l : list A) :
  P x → Forall P l →
  StronglySorted (λ a b, lt b a = false) l →
  StronglySorted (λ a b, lt b a = false) (insert_sorted lt x l).
Proof.
  intros Hx HP Hs. induction Hs as [|y l Hs IH Hy]; simpl.
  - repeat constructor.
  - apply Forall_cons in HP as [Py HP]. destruct (lt y x) eqn:Hyx.
    + constructor; [by apply IH|].
      rewrite insert_sorted_perm. constructor; [by apply lt_asym|done].
    + constructor; [by constructor|]. constructor; [done|].
      rewrite Forall_forall in Hy, HP. apply Forall_forall. intros z Hz.
      apply (le_trans x y z); auto.
Qed.

Lemma sort_by_sorted (l : list A) :
  Forall P l → StronglySorted (λ a b, lt b a = false) (sort_by lt l).
Proof.
  unfold sort_by. induction 1 as [|x l Hx HP IH]; simpl; [constructor|].
  apply insert_sorted_sorted; [done| |done].
  fold (sort_by lt l). by rewrite sort_by_perm.
Qed.

End sort_facts.

(** ** The order on strings *)

Lemma str_compare_trans (s t u : string) :
  (s ?= t)%string ≠ Gt → (t ?= u)%string ≠ Gt → (s ?= u)%string ≠ Gt.
Proof.
  revert t u. induction s as [|a s IH]; intros [|b t] [|c u]; simpl; try done.
  unfold Ascii.compare.
  destruct (N.compare_spec (N_of_ascii a) (N_of_ascii b)),
           (N.compare_spec (N_of_ascii b) (N_of_ascii c)),
           (N.compare_spec (N_of_ascii a) (N_of_ascii c));
    try done; try lia.
  apply IH.
Qed.

Lemma str_ltb_false (s t : string) : String.ltb t s = false ↔ str_le s t.
Proof.
  unfold str_le, String.ltb, String.leb. rewrite (String.compare_antisym s t).
  destruct (t ?= s)%string; simpl; naive_solver.
Qed.

Lemma str_ltb_asym (s t : string) : String.ltb s t = true → String.ltb t s = false.
Proof.
  unfold String.ltb. rewrite (String.compare_antisym t s).
  destruct (s ?= t)%string; simpl; naive_solver.
Qed.

Lemma str_le_trans (s t u : string) : str_le s t → str_le t u → str_le s u.
Proof.
  unfold str_le, String.leb. intros Hst Htu.
  pose proof (str_compare_trans s t u) as H.
  destruct (s ?= t)%string, (t ?= u)%string, (s ?= u)%string; naive_solver.
Qed.

Lemma str_le_refl (s : string) : str_le s s.
Proof. by destruct (String.leb_total s s). Qed.

Lemma sorted_str_sorted (l : list string) : StronglySorted str_le (sorted_str l).
Proof.
  unfold sorted_str.
  assert (Hs : StronglySorted (λ a b, String.ltb b a = false) (sort_by String.ltb l)).
  { apply (sort_by_sorted String.ltb (λ _, True)).
    - intros x y _ _. apply str_ltb_asym.
    - intros x y z _ _ _. rewrite !str_ltb_false. apply str_le_trans.
    - by apply Forall_forall. }
  induction Hs as [|x k Hs IH Hx]; constructor; [done|].
  eapply Forall_impl; [exact Hx|]. intros t. apply str_ltb_false.
Qed.

Lemma head_sorted_str (l : list string) (s : string) :
  head (sorted_str l) = Some s → s ∈ l ∧ ∀ t, t ∈ l → str_le s t.
Proof.
  intros Hhead. pose proof (sorted_str_sorted l) as Hs.
  assert (Hperm : sorted_str l ≡ₚ l) by apply sort_by_perm.
  destruct (sorted_str l) as [|x l'] eqn:E; [done|]. injection Hhead as ->.
  split.
  - rewrite <- Hperm. left.
  - intros t Ht. rewrite <- Hperm in Ht. apply StronglySorted_inv in Hs as [_ Hall].
    apply elem_of_cons in Ht as [->|Ht]; [apply str_le_refl|].
    rewrite Forall_forall in Hall. by apply Hall.
Qed.

(** ** The canonical-label picker *)

Lemma foldl_max_spec (v : Z) (rest : list (string * Z)) :
  let top := foldl (λ acc nv, Z.max acc nv.2) v rest in
  (top = v ∨ ∃ n, (n, top) ∈ rest) ∧ v ≤ top ∧ ∀ n w, (n, w) ∈ rest → w ≤ top.
Proof.
  revert v. induction rest as [|[m w] rest IH]; intros v; simpl.
  - split; [by left|]. split; [lia|]. intros n w Hin. by apply elem_of_nil in Hin.
  - destruct (IH (Z.max v w)) as (Hin & Hle & Hall).
    split; [|split].
    + destruct Hin as [Heq|[n Hn]].
      * destruct (Z.max_spec v w) as [[? Hm]|[? Hm]].
        -- right. exists m. rewrite Heq, Hm. left.
        -- left. by rewrite Heq, Hm.
      * right. exists n. by right.
    + lia.
    + intros n w' Hn. apply elem_of_cons in Hn as [?|Hn]; [simplify_eq; lia|eauto].
Qed.

Lemma max_value_spec (items : list (string * Z)) :
  items ≠ [] →
  ∃ top, max_value items = Some top
         ∧ (∃ n, (n, top) ∈ items) ∧ ∀ n w, (n, w) ∈ items → w ≤ top.
Proof.
  destruct items as [|[m v] rest]; [done|]. intros _. simpl.
  destruct (foldl_max_spec v rest) as (Hin & Hle & Hall).
  eexists. split; [done|]. split.
  - destruct Hin as [->|[n Hn]]; [exists m; left|exists n; by right].
  - intros n w Hn. apply elem_of_cons in Hn as [?|Hn]; [simplify_eq; lia|eauto].
Qed.

Lemma pick_most_frequent_spec (items : list (string * Z)) :
  items ≠ [] →
  ∃ l top, pick_most_frequent items = Some l
           ∧ (l, top) ∈ items
           ∧ (∀ n w, (n, w) ∈ items → w ≤ top)
           ∧ (∀ n, (n, top) ∈ items → str_le l n).
Proof.
  intros Hne. destruct (max_value_spec items Hne) as (top & Htop & [n0 Hn0] & Hmax).
  unfold pick_most_frequent. rewrite Htop. simpl.
  set (cands := (filter (λ nv, nv.2 = top) items).*1).
  assert (Hc : ∀ n, n ∈ cands ↔ (n, top) ∈ items).
  { intros n. unfold cands. rewrite list_elem_of_fmap. split.
    - intros ([n' w] & -> & Hin). apply list_elem_of_filter in Hin as [Hw Hin].
      simpl in *. by subst w.
    - intros Hin. exists (n, top). split; [done|]. by apply list_elem_of_filter. }
  destruct (head (sorted_str cands)) as [l|] eqn:Hhead.
  - apply head_sorted_str in Hhead as [Hl Hmin]. exists l, top.
    split; [done|]. split; [by apply Hc|]. split; [done|].
    intros n Hn. apply Hmin. by apply Hc.
  - apply head_None in Hhead.
    assert (Hin : n0 ∈ sorted_str cands).
    { unfold sorted_str. rewrite sort_by_perm. by apply Hc. }
    rewrite Hhead in Hin. by apply elem_of_nil in Hin.
Qed.

Lemma pick_in_map (counts : gmap string Z) :
  counts ≠ ∅ →
  ∃ l top, pick_most_frequent (map_to_list counts) = Some l
           ∧ counts !! l = Some top
           ∧ (∀ n w, counts !! n = Some w → w ≤ top)
           ∧ (∀ n, counts !! n = Some top → str_le l n).
Proof.
  intros Hne.
  destruct (pick_most_frequent_spec (map_to_list counts)) as (l & top & Hp & Hl & Hmax & Hmin).
  { intros Hnil. by apply map_to_list_empty_iff in Hnil. }
  exists l, top. split; [done|]. split; [by apply elem_of_map_to_list|].
  split.
  - intros n w Hn. apply (Hmax n). by apply elem_of_map_to_list.
  - intros n Hn. apply Hmin. by apply elem_of_map_to_list.
Qed.

(** C6, amended. On a non-empty [labelFrequency] map both pickers return the
    same label: one of the highest count, and the smallest such label in
    the order of strings; on [{"Bob": 2, "Amy": 2, "Zoe": 1}] it is
    ["Amy"]. On the empty map [pick_display_name] returns the user id, and
    [pick_title], which is not given the book id, returns the empty
    title. *)
Theorem canonical_label_picker (uid : string) (counts : gmap string Z) :
  (counts ≠ ∅ →
   Q3.pick_display_name uid counts = Q4.pick_title counts
   ∧ ∃ top, counts !! Q4.pick_title counts = Some top
            ∧ (∀ n w, counts !! n = Some w → w ≤ top)
            ∧ (∀ n, counts !! n = Some top → str_le (Q4.pick_title counts) n))
  ∧ Q3.pick_display_name uid {[ "Bob" := 2; "Amy" := 2; "Zoe" := 1 ]} = "Amy"
  ∧ Q4.pick_title {[ "Bob" := 2; "Amy" := 2; "Zoe" := 1 ]} = "Amy"
  ∧ Q3.pick_display_name uid ∅ = uid
  ∧ Q4.pick_title ∅ = EmptyString.
Proof.
  split; [|by vm_compute].
  intros Hne. destruct (pick_in_map counts Hne) as (l & top & Hp & Hl & Hmax & Hmin).
  unfold Q3.pick_display_name, Q4.pick_title. rewrite Hp. simpl.
  split; [done|]. by exists top.
Qed.

Lemma canonical_label_picker_witness :
  ({[ "Bob" := 2; "Amy" := 3 ]} : gmap string Z) ≠ ∅
  ∧ Q3.pick_display_name "U1" {[ "Bob" := 2; "Amy" := 3 ]}
    = Q4.pick_title {[ "Bob" := 2; "Amy" := 3 ]}.
Proof.
  assert (H : ({[ "Bob" := 2; "Amy" := 3 ]} : gmap string Z) ≠ ∅).
  { intros Heq. apply (f_equal (λ m : gmap string Z, m !! "Amy")) in Heq.
    vm_compute in Heq. discriminate. }
  split; [exact H|].
  exact (proj1 (proj1 (canonical_label_picker "U1" {[ "Bob" := 2; "Amy" := 3 ]}) H)).
Defined.

(** C6, the claim as stated fails on [pick_title]: a book ["B1"] all of whose
    titles are missing is listed under the empty title, not under its id. *)
Lemma pick_title_no_id_fallback :
  let b := Q4.Info 3 1 (Some (of_Z 2)) ∅ in
  Q4.pick_title (Q4.title_counts b) = EmptyString
  ∧ Q4.pick_title (Q4.title_counts b) ≠ "B1"
  ∧ Q4.final_answer {[ "B1" := b ]} = [(EmptyString, of_Z 2)].
Proof. by vm_compute. Qed.

(** ** The Merge Engine *)

Section merge_facts.

Context {E P : Type} (empty : E) (merge_entry : E → P → E).

Lemma lookup_merge_maps (g : gmap string E) (m : gmap string P) (k : string) :
  merge_maps empty merge_entry g m !! k = fold_entry empty merge_entry (g !! k) (m !! k).
Proof.
  unfold merge_maps. rewrite lookup_merge.
  by destruct (g !! k), (m !! k).
Qed.

(** At one key the merge is a fold of the entries the partial maps hold
    there, in the order of the list. *)
Lemma lookup_foldl_merge (ps : list (gmap string P)) (g : gmap string E) (k : string) :
  foldl (merge_maps empty merge_entry) g ps !! k
  = foldl (fold_entry empty merge_entry) (g !! k) ((.!! k) <$> ps).
Proof.
  revert g. induction ps as [|p ps IH]; intros g; simpl; [done|].
  by rewrite IH, lookup_merge_maps.
Qed.

End merge_facts.

Lemma foldl_perm {A B : Type} (f : A → B → A) (l l' : list B) :
  (∀ a x y, f (f a x) y = f (f a y) x) →
  l ≡ₚ l' → ∀ a, foldl f a l = foldl f a l'.
Proof.
  intros Hcomm Hperm. induction Hperm as [|x l l' _ IH|x y l|l l' l'' _ IH1 _ IH2];
    intros a; simpl.
  - done.
  - apply IH.
  - by rewrite Hcomm.
  - by rewrite IH1, IH2.
Qed.

(** Counters add up key-wise; the sum is associative and commutative. *)
Lemma lookup_counter_update (c d : gmap string Z) (k : string) :
  counter_update c d !! k
  = match c !! k, d !! k with
    | Some a, Some b => Some (a + b)
    | Some a, None => Some a
    | None, o => o
    end.
Proof.
  unfold counter_update. rewrite lookup_union_with.
  by destruct (c !! k), (d !! k).
Qed.

Lemma counter_update_comm (c d : gmap string Z) :
  counter_update c d = counter_update d c.
Proof.
  apply map_eq. intros k. rewrite !lookup_counter_update.
  destruct (c !! k), (d !! k); try done. f_equal. lia.
Qed.

Lemma counter_update_assoc (c d e : gmap string Z) :
  counter_update (counter_update c d) e = counter_update c (counter_update d e).
Proof.
  apply map_eq. intros k. rewrite !lookup_counter_update.
  destruct (c !! k), (d !! k), (e !! k); try done. f_equal. lia.
Qed.

Lemma counter_update_empty_l (c : gmap string Z) : counter_update ∅ c = c.
Proof.
  apply map_eq. intros k. rewrite lookup_counter_update, lookup_empty.
  by destruct (c !! k).
Qed.

Section fold_entry_facts.

Context {E P : Type} (empty : E) (merge_entry : E → P → E).

Local Abbreviation fe := (fold_entry empty merge_entry).

(** An entry folded in after another may be folded in before it, when the
    update of one entry allows it. *)
Lemma fold_entry_comm :
  (∀ u x y, merge_entry (merge_entry u x) y = merge_entry (merge_entry u y) x) →
  ∀ a x y, fe (fe a x) y = fe (fe a y) x.
Proof.
  intros Hcomm a [x|] [y|]; simpl; try done. by rewrite Hcomm.
Qed.

Lemma merge_all_perm (ps ps' : list (gmap string P)) (g : gmap string E) :
  (∀ u x y, merge_entry (merge_entry u x) y = merge_entry (merge_entry u y) x) →
  ps ≡ₚ ps' →
  foldl (merge_maps empty merge_entry) g ps = foldl (merge_maps empty merge_entry) g ps'.
Proof.
  intros Hcomm Hperm. apply map_eq. intros k. rewrite !lookup_foldl_merge.
  apply foldl_perm; [by apply fold_entry_comm|]. by apply fmap_Permutation.
Qed.

(** A view [h] of the entries that the update respects is merged like the
    entries themselves. *)
Context {E' P' : Type} (empty' : E') (merge_entry' : E' → P' → E').
Context (h : E → E') (hp : P → P').
Hypothesis h_empty : h empty = empty'.
Hypothesis h_merge : ∀ u i, h (merge_entry u i) = merge_entry' (h u) (hp i).

Lemma fold_entry_image (os : list (option P)) (a : option E) :
  h <$> foldl fe a os
  = foldl (fold_entry empty' merge_entry') (h <$> a) ((λ o : option P, hp <$> o) <$> os).
Proof.
  revert a. induction os as [|o os IH]; intros a; simpl; [done|].
  rewrite IH. f_equal. destruct o as [i|]; simpl; [|done].
  rewrite h_merge. by destruct a; simpl; rewrite ?h_empty.
Qed.

Lemma merge_all_image (ps : list (gmap string P)) (k : string) :
  h <$> (foldl (merge_maps empty merge_entry) ∅ ps !! k)
  = foldl (fold_entry empty' merge_entry') None ((λ p, hp <$> p !! k) <$> ps).
Proof.
  rewrite lookup_foldl_merge, fold_entry_image, lookup_empty. simpl.
  by rewrite <- list_fmap_compose.
Qed.

End fold_entry_facts.

(** Entries that form a monoid under [combine], with the empty entry as
    its unit: merging is then a homomorphism from lists of partial maps. *)
Section monoid_merge.

Context {E P : Type} (empty : E) (merge_entry : E → P → E).
Context (combine : E → E → E) (inj : P → E) (back : E → P).
Hypothesis merge_combine : ∀ u i, merge_entry u i = combine u (inj i).
Hypothesis combine_assoc : ∀ u v w, combine (combine u v) w = combine u (combine v w).
Hypothesis combine_empty_l : ∀ u, combine empty u = u.
Hypothesis inj_back : ∀ u, inj (back u) = u.

Local Abbreviation fe := (fold_entry empty merge_entry).
Local Abbreviation oplus := (option_combine combine).

Lemma fold_entry_oplus (a : option E) (o : option P) : fe a o = oplus a (inj <$> o).
Proof.
  destruct a as [u|], o as [i|]; simpl; try done; rewrite merge_combine; [done|].
  by rewrite combine_empty_l.
Qed.

Lemma oplus_assoc (a b c : option E) : oplus (oplus a b) c = oplus a (oplus b c).
Proof. destruct a, b, c; simpl; try done. by rewrite combine_assoc. Qed.

Lemma foldl_fold_entry_oplus (os : list (option P)) (a : option E) :
  foldl fe a os = oplus a (foldl fe None os).
Proof.
  revert a. induction os as [|o os IH]; intros a; simpl.
  - by destruct a.
  - rewrite IH, (IH (fe None o)), !fold_entry_oplus.
    rewrite <- oplus_assoc. by destruct a.
Qed.

Lemma fold_entry_regroup (os1 os2 : list (option P)) :
  fe (fe None (back <$> foldl fe None os1)) (back <$> foldl fe None os2)
  = foldl fe None (os1 ++ os2).
Proof.
  rewrite foldl_app, (foldl_fold_entry_oplus os2 (foldl fe None os1)).
  rewrite !fold_entry_oplus. simpl.
  destruct (foldl fe None os1) as [u|]; simpl;
    destruct (foldl fe None os2) as [v|]; simpl; by rewrite ?inj_back.
Qed.

Lemma merge_all_regroup (g1 g2 : list (gmap string P)) :
  foldl (merge_maps empty merge_entry) ∅
    [back <$> foldl (merge_maps empty merge_entry) ∅ g1;
     back <$> foldl (merge_maps empty merge_entry) ∅ g2]
  = foldl (merge_maps empty merge_entry) ∅ (g1 ++ g2).
Proof.
  apply map_eq. intros k. rewrite !lookup_foldl_merge. simpl.
  rewrite !lookup_fmap, !lookup_foldl_merge, lookup_empty, fmap_app.
  apply fold_entry_regroup.
Qed.

End monoid_merge.

(** *** Q3: integer sums, counts, book sets and name counters *)

Lemma q3_merge_info_comm (u : Q3.info) (x y : Q3.payload_info) :
  Q3.merge_info (Q3.merge_info u x) y = Q3.merge_info (Q3.merge_info u y) x.
Proof.
  unfold Q3.merge_info. simpl. f_equal; [lia|lia|set_solver|].
  by rewrite !counter_update_assoc, (counter_update_comm (Q3.p_name_counts x)).
Qed.

Lemma q3_combine_assoc (u v w : Q3.info) :
  q3_combine (q3_combine u v) w = q3_combine u (q3_combine v w).
Proof.
  unfold q3_combine. simpl. f_equal; [lia|lia|set_solver|apply counter_update_assoc].
Qed.

Lemma q3_combine_empty_l (u : Q3.info) : q3_combine Q3.empty_info u = u.
Proof.
  destruct u. unfold q3_combine. simpl. f_equal; [set_solver|apply counter_update_empty_l].
Qed.

Lemma q3_of_to_payload (u : Q3.info) : q3_of_payload (Q3.to_payload u) = u.
Proof.
  destruct u. unfold q3_of_payload, Q3.to_payload. simpl. f_equal.
  apply list_to_set_elements_L.
Qed.

Lemma q3_merge_all_perm (ps ps' : list (gmap string Q3.payload_info)) :
  ps ≡ₚ ps' → Q3.merge_all ps = Q3.merge_all ps'.
Proof. apply merge_all_perm. apply q3_merge_info_comm. Qed.

Lemma q3_merge_all_regroup (g1 g2 : list (gmap string Q3.payload_info)) :
  Q3.merge_all [Q3.to_payload <$> Q3.merge_all g1; Q3.to_payload <$> Q3.merge_all g2]
  = Q3.merge_all (g1 ++ g2).
Proof.
  apply (merge_all_regroup Q3.empty_info Q3.merge_info q3_combine q3_of_payload).
  - done.
  - apply q3_combine_assoc.
  - apply q3_combine_empty_l.
  - apply q3_of_to_payload.
Qed.

(** *** Q4: integer sums, counts, title counters and the first price *)

Lemma q4_merge_info_assoc (u v w : Q4.info) :
  Q4.merge_info (Q4.merge_info u v) w = Q4.merge_info u (Q4.merge_info v w).
Proof.
  unfold Q4.merge_info. simpl. f_equal; [lia|lia| |apply counter_update_assoc].
  by destruct (Q4.price u), (Q4.price v).
Qed.

Lemma q4_merge_info_empty_l (u : Q4.info) : Q4.merge_info Q4.empty_info u = u.
Proof.
  destruct u. unfold Q4.merge_info. simpl. f_equal. apply counter_update_empty_l.
Qed.

Lemma q4_merge_all_regroup (g1 g2 : list (gmap string Q4.info)) :
  Q4.merge_all [Q4.merge_all g1; Q4.merge_all g2] = Q4.merge_all (g1 ++ g2).
Proof.
  pose proof (merge_all_regroup Q4.empty_info Q4.merge_info Q4.merge_info id id) as H.
  rewrite <- H by (done || apply q4_merge_info_assoc || apply q4_merge_info_empty_l).
  unfold Q4.merge_all, Q4.merge_partial. by rewrite !map_fmap_id.
Qed.

Lemma add_numbers_comm (a x y : Z * Z * gmap string Z) :
  add_numbers (add_numbers a x) y = add_numbers (add_numbers a y) x.
Proof.
  unfold add_numbers. simpl. f_equal; [f_equal; lia|].
  by rewrite !counter_update_assoc, (counter_update_comm x.2).
Qed.

Lemma q4_numbers_lookup (ps : list (gmap string Q4.info)) (k : string) :
  q4_numbers <$> (Q4.merge_all ps !! k)
  = foldl (fold_entry (0, 0, ∅) add_numbers) None ((λ p, q4_numbers <$> p !! k) <$> ps).
Proof. by apply merge_all_image. Qed.

Lemma q4_numbers_perm (ps ps' : list (gmap string Q4.info)) :
  ps ≡ₚ ps' → q4_numbers <$> Q4.merge_all ps = q4_numbers <$> Q4.merge_all ps'.
Proof.
  intros Hperm. apply map_eq. intros k. rewrite !lookup_fmap, !q4_numbers_lookup.
  apply foldl_perm.
  - apply fold_entry_comm, add_numbers_comm.
  - by apply fmap_Permutation.
Qed.

(** The merged price is first-writer-wins: the first price the partial
    maps hold for the id, in the order of the list. *)
Lemma q4_price_lookup (ps : list (gmap string Q4.info)) (k : string) :
  Q4.price <$> (Q4.merge_all ps !! k)
  = foldl (fold_entry None first_price) None ((λ p, Q4.price <$> p !! k) <$> ps).
Proof. by apply merge_all_image. Qed.

Lemma first_price_fold_in (os : list (option (option float64))) (a : option (option float64)) (x : float64) :
  foldl (fold_entry None first_price) a os = Some (Some x) →
  a = Some (Some x) ∨ Some (Some x) ∈ os.
Proof.
  revert a. induction os as [|o os IH]; intros a; simpl; [by left|].
  intros H. apply IH in H as [H|H]; [|right; by right].
  destruct o as [q|]; simpl in H; [|by left].
  destruct a as [[y|]|]; simpl in H; try (by left); injection H as ->; right; left.
Qed.

Lemma first_price_has (os : list (option (option float64))) (a : option (option float64)) :
  (λ o : option float64, bool_decide (is_Some o)) <$> foldl (fold_entry None first_price) a os
  = foldl (fold_entry false orb) ((λ o : option float64, bool_decide (is_Some o)) <$> a)
      ((λ o : option (option float64), (λ q : option float64, bool_decide (is_Some q)) <$> o) <$> os).
Proof.
  apply fold_entry_image; [done|]. by intros [?|] [?|].
Qed.

Lemma first_price_perm (os os' : list (option (option float64))) :
  os ≡ₚ os' →
  (∀ x y, Some (Some x) ∈ os → Some (Some y) ∈ os → x = y) →
  foldl (fold_entry None first_price) None os
  = foldl (fold_entry None first_price) None os'.
Proof.
  intros Hos Hagree.
  assert (Hhas : (λ o : option float64, bool_decide (is_Some o))
                   <$> foldl (fold_entry None first_price) None os
                 = (λ o : option float64, bool_decide (is_Some o))
                   <$> foldl (fold_entry None first_price) None os').
  { rewrite !first_price_has. apply foldl_perm.
    - apply fold_entry_comm. by intros [] [] [].
    - by apply fmap_Permutation. }
  destruct (foldl _ None os) as [[x|]|] eqn:Hx, (foldl _ None os') as [[y|]|] eqn:Hy;
    try done.
  apply first_price_fold_in in Hx as [Hx|Hx]; [discriminate|].
  apply first_price_fold_in in Hy as [Hy|Hy]; [discriminate|].
  rewrite <- Hos in Hy. do 2 f_equal. by apply Hagree.
Qed.

Lemma q4_price_perm (ps ps' : list (gmap string Q4.info)) :
  ps ≡ₚ ps' → prices_agree ps →
  Q4.price <$> Q4.merge_all ps = Q4.price <$> Q4.merge_all ps'.
Proof.
  intros Hperm Hagree. apply map_eq. intros k. rewrite !lookup_fmap, !q4_price_lookup.
  apply first_price_perm; [by apply fmap_Permutation|].
  assert (Hin : ∀ x, Some (Some x) ∈ (λ p : gmap string Q4.info, Q4.price <$> p !! k) <$> ps
                     → ∃ p i, p ∈ ps ∧ p !! k = Some i ∧ Q4.price i = Some x).
  { intros x Hx. apply list_elem_of_fmap in Hx as (p & Hp & Hin). exists p.
    destruct (p !! k) as [i|]; [|done]. exists i. simpl in Hp. by simplify_eq. }
  intros x y Hx Hy.
  destruct (Hin x Hx) as (p & i & Hp & Hi & Hpi), (Hin y Hy) as (q & j & Hq & Hj & Hqj).
  exact (Hagree p q k i j x y Hp Hq Hi Hj Hpi Hqj).
Qed.

Lemma q4_merge_all_perm (ps ps' : list (gmap string Q4.info)) :
  ps ≡ₚ ps' → prices_agree ps → Q4.merge_all ps = Q4.merge_all ps'.
Proof.
  intros Hperm Hagree. apply map_eq. intros k.
  pose proof (q4_numbers_perm ps ps' Hperm) as Hn.
  pose proof (q4_price_perm ps ps' Hperm Hagree) as Hp.
  apply (f_equal (.!! k)) in Hn. apply (f_equal (.!! k)) in Hp.
  rewrite !lookup_fmap in Hn. rewrite !lookup_fmap in Hp.
  destruct (Q4.merge_all ps !! k) as [[]|], (Q4.merge_all ps' !! k) as [[]|];
    simpl in *; try done. unfold q4_numbers in Hn. simpl in Hn. by simplify_eq.
Qed.

(** *** Q2: integer counts and the first price; the sum is a float *)

Lemma q2_view_lookup (ps : list (gmap string Q2.entry)) (k : string) :
  q2_view <$> (Q2.merge_all ps !! k)
  = foldl (fold_entry (0, None) add_view) None ((λ p, q2_view <$> p !! k) <$> ps).
Proof. by apply merge_all_image. Qed.

Lemma q2_count_perm (ps ps' : list (gmap string Q2.entry)) :
  ps ≡ₚ ps' → Q2.rcnt <$> Q2.merge_all ps = Q2.rcnt <$> Q2.merge_all ps'.
Proof.
  intros Hperm. apply map_eq. intros k. rewrite !lookup_fmap.
  unfold Q2.merge_all, Q2.merge_partial.
  rewrite !(merge_all_image Q2.empty_entry Q2.merge_entry 0 Z.add Q2.rcnt Q2.rcnt) by done.
  apply foldl_perm.
  - apply fold_entry_comm. intros. lia.
  - by apply fmap_Permutation.
Qed.

Lemma q2_view_regroup (g1 g2 : list (gmap string Q2.entry)) :
  q2_view <$> Q2.merge_all [Q2.merge_all g1; Q2.merge_all g2]
  = q2_view <$> Q2.merge_all (g1 ++ g2).
Proof.
  apply map_eq. intros k. rewrite !lookup_fmap, !q2_view_lookup. simpl.
  rewrite !q2_view_lookup, fmap_app.
  pose proof (fold_entry_regroup (0, None) add_view add_view id id) as H.
  rewrite <- H.
  - by rewrite !option_fmap_id.
  - done.
  - intros [? [?|]] [? [?|]] [? ?]; unfold add_view; simpl; f_equal; lia.
  - by intros [? ?].
  - done.
Qed.

Lemma q2_price_lookup (ps : list (gmap string Q2.entry)) (k : string) :
  Q2.price <$> (Q2.merge_all ps !! k)
  = foldl (fold_entry None first_price) None ((λ p, Q2.price <$> p !! k) <$> ps).
Proof. by apply merge_all_image. Qed.

Lemma q2_view_perm (ps ps' : list (gmap string Q2.entry)) :
  ps ≡ₚ ps' → q2_prices_agree ps →
  q2_view <$> Q2.merge_all ps = q2_view <$> Q2.merge_all ps'.
Proof.
  intros Hperm Hagree. apply map_eq. intros k. rewrite !lookup_fmap.
  pose proof (q2_count_perm ps ps' Hperm) as Hc.
  apply (f_equal (.!! k)) in Hc. rewrite !lookup_fmap in Hc.
  assert (Hp : Q2.price <$> (Q2.merge_all ps !! k) = Q2.price <$> (Q2.merge_all ps' !! k)).
  { rewrite !q2_price_lookup. apply first_price_perm; [by apply fmap_Permutation|].
    assert (Hin : ∀ x, Some (Some x) ∈ (λ p : gmap string Q2.entry, Q2.price <$> p !! k) <$> ps
                       → ∃ p i, p ∈ ps ∧ p !! k = Some i ∧ Q2.price i = Some x).
    { intros x Hx. apply list_elem_of_fmap in Hx as (p & Hp & Hin). exists p.
      destruct (p !! k) as [i|]; [|done]. exists i. simpl in Hp. by simplify_eq. }
    intros x y Hx Hy.
    destruct (Hin x Hx) as (p & i & Hp & Hi & Hpi), (Hin y Hy) as (q & j & Hq & Hj & Hqj).
    exact (Hagree p q k i j x y Hp Hq Hi Hj Hpi Hqj). }
  destruct (Q2.merge_all ps !! k) as [[]|], (Q2.merge_all ps' !! k) as [[]|];
    simpl in *; try done. unfold q2_view. simpl. by simplify_eq.
Qed.

(** C2, amended. For the integer aggregates of Q3 and Q4 (sums, counts,
    sets of book ids, label counters) and for the count of Q2, the merged
    map is the same for every reordering of the list of partial maps and
    for every split of it into two groups that are merged apart and then
    together. The price of Q2 and Q4 is first-writer-wins in the order of
    the list: the merged map is the same when a prefix and the rest of the
    list are merged apart and then together, and under a reordering when
    no two partial maps hold different prices for one id. The float sum
    of Q2 is not covered. *)
Theorem merge_order_invariance :
  (∀ ps ps' : list (gmap string Q3.payload_info),
     ps ≡ₚ ps' → Q3.merge_all ps' = Q3.merge_all ps)
  ∧ (∀ ps g1 g2 : list (gmap string Q3.payload_info),
       ps ≡ₚ g1 ++ g2 →
       Q3.merge_all [Q3.to_payload <$> Q3.merge_all g1; Q3.to_payload <$> Q3.merge_all g2]
       = Q3.merge_all ps)
  ∧ (∀ (ps : list (gmap string Q3.payload_info)) k,
       Q3.merge_all ps !! k
       = foldl (fold_entry Q3.empty_info Q3.merge_info) None ((.!! k) <$> ps))
  ∧ (∀ ps ps' : list (gmap string Q4.info),
       ps ≡ₚ ps' → q4_numbers <$> Q4.merge_all ps' = q4_numbers <$> Q4.merge_all ps)
  ∧ (∀ ps g1 g2 : list (gmap string Q4.info),
       ps ≡ₚ g1 ++ g2 →
       q4_numbers <$> Q4.merge_all [Q4.merge_all g1; Q4.merge_all g2]
       = q4_numbers <$> Q4.merge_all ps)
  ∧ (∀ g1 g2 : list (gmap string Q4.info),
       Q4.merge_all [Q4.merge_all g1; Q4.merge_all g2] = Q4.merge_all (g1 ++ g2))
  ∧ (∀ ps ps' : list (gmap string Q4.info),
       ps ≡ₚ ps' → prices_agree ps → Q4.merge_all ps' = Q4.merge_all ps)
  ∧ (∀ (ps : list (gmap string Q4.info)) k,
       q4_numbers <$> (Q4.merge_all ps !! k)
       = foldl (fold_entry (0, 0, ∅) add_numbers) None ((λ p, q4_numbers <$> p !! k) <$> ps))
  ∧ (∀ (ps : list (gmap string Q4.info)) k,
       Q4.price <$> (Q4.merge_all ps !! k)
       = foldl (fold_entry None first_price) None ((λ p, Q4.price <$> p !! k) <$> ps))
  ∧ (∀ ps ps' : list (gmap string Q2.entry),
       ps ≡ₚ ps' → Q2.rcnt <$> Q2.merge_all ps' = Q2.rcnt <$> Q2.merge_all ps)
  ∧ (∀ ps g1 g2 : list (gmap string Q2.entry),
       ps ≡ₚ g1 ++ g2 →
       Q2.rcnt <$> Q2.merge_all [Q2.merge_all g1; Q2.merge_all g2]
       = Q2.rcnt <$> Q2.merge_all ps)
  ∧ (∀ g1 g2 : list (gmap string Q2.entry),
       q2_view <$> Q2.merge_all [Q2.merge_all g1; Q2.merge_all g2]
       = q2_view <$> Q2.merge_all (g1 ++ g2))
  ∧ (∀ ps ps' : list (gmap string Q2.entry),
       ps ≡ₚ ps' → q2_prices_agree ps →
       q2_view <$> Q2.merge_all ps' = q2_view <$> Q2.merge_all ps)
  ∧ (∀ (ps : list (gmap string Q2.entry)) k,
       q2_view <$> (Q2.merge_all ps !! k)
       = foldl (fold_entry (0, None) add_view) None ((λ p, q2_view <$> p !! k) <$> ps)).
Proof.
  repeat split.
  - intros ps ps' H. symmetry. by apply q3_merge_all_perm.
  - intros ps g1 g2 H. rewrite q3_merge_all_regroup. symmetry. by apply q3_merge_all_perm.
  - intros ps k. unfold Q3.merge_all, Q3.merge_partial.
    by rewrite lookup_foldl_merge, lookup_empty.
  - intros ps ps' H. symmetry. by apply q4_numbers_perm.
  - intros ps g1 g2 H. rewrite q4_merge_all_regroup. symmetry. by apply q4_numbers_perm.
  - apply q4_merge_all_regroup.
  - intros ps ps' H Hagree. symmetry. by apply q4_merge_all_perm.
  - apply q4_numbers_lookup.
  - apply q4_price_lookup.
  - intros ps ps' H. symmetry. by apply q2_count_perm.
  - intros ps g1 g2 H. rewrite <- (q2_count_perm (g1 ++ g2) ps) by done.
    pose proof (q2_view_regroup g1 g2) as Hv.
    apply (f_equal (fmap fst)) in Hv. by rewrite <- !map_fmap_compose in Hv.
  - apply q2_view_regroup.
  - intros ps ps' H Hagree. symmetry. by apply q2_view_perm.
  - apply q2_view_lookup.
Qed.

Lemma merge_order_invariance_witness :
  let p1 : gmap string Q3.payload_info := {[ "U1" := Q3.PayloadInfo 8 2 ["b1"; "b2"] {[ "Amy" := 2 ]} ]} in
  let p2 : gmap string Q3.payload_info := {[ "U1" := Q3.PayloadInfo 4 1 ["b3"] {[ "Amy" := 1 ]} ]} in
  [p1; p2] ≡ₚ [p2; p1] ∧ Q3.merge_all [p2; p1] = Q3.merge_all [p1; p2].
Proof.
  intros p1 p2.
  assert (H : [p1; p2] ≡ₚ [p2; p1]) by apply Permutation_swap.
  split; [exact H|].
  exact (proj1 merge_order_invariance [p1; p2] [p2; p1] H).
Defined.

(** C2, the claim as stated fails twice. Two partial maps of Q4 that hold
    different prices for the book ["B1"] merge to different global maps in
    the two orders. In Q2 the sum is a float: for the ratings 4.1, 4.2 and
    4.3 of one book in three partial maps, merging the first map apart
    from the other two gives 12.6, merging the three at once
    12.600000000000001. *)
Lemma merge_depends_on_order :
  let p1 : gmap string Q4.info := {[ "B1" := Q4.Info 3 1 (Some (of_Z 2)) ∅ ]} in
  let p2 : gmap string Q4.info := {[ "B1" := Q4.Info 3 1 (Some (of_Z 3)) ∅ ]} in
  let m (n : Z) : gmap string Q2.entry :=
    {[ "B1" := Q2.Entry (fdiv (of_Z n) (of_Z 10)) 1 None ]} in
  [p1; p2] ≡ₚ [p2; p1]
  ∧ Q4.merge_all [p1; p2] ≠ Q4.merge_all [p2; p1]
  ∧ Q2.merge_all [Q2.merge_all [m 41]; Q2.merge_all [m 42; m 43]]
    ≠ Q2.merge_all [m 41; m 42; m 43].
Proof.
  intros p1 p2 m. split; [apply Permutation_swap|]. split.
  - intros H. apply (f_equal (.!! "B1")) in H. vm_compute in H. discriminate.
  - intros H. apply (f_equal (.!! "B1")) in H. vm_compute in H. discriminate.
Qed.

(** ** The Local Aggregator *)

Lemma foldlM_snoc {A B : Type} (f : A → B → result A) (a : A) (l : list B) (b : B) :
  foldlM f a (l ++ [b]) = bind (foldlM f a l) (λ a', f a' b).
Proof.
  revert a. induction l as [|x l IH]; intros a; simpl.
  - by destruct (f a b).
  - destruct (f a x); simpl; [apply IH|done].
Qed.

Lemma foldlM_filter {A B : Type} (f : A → B → result A) (skip : B → bool) (l : list B) (a : A) :
  (∀ a b, skip b = true → f a b = Ok a) →
  foldlM f a (filter (λ b, skip b = false) l) = foldlM f a l.
Proof.
  intros Hskip. revert a. induction l as [|b l IH]; intros a; [done|].
  rewrite filter_cons. destruct (skip b) eqn:Hb.
  - rewrite decide_False by done. simpl. rewrite (Hskip a b Hb). simpl. apply IH.
  - rewrite decide_True by done. simpl. destruct (f a b); simpl; [apply IH|done].
Qed.

Lemma q3_step_skipped (local : gmap string Q3.info) (r : row) :
  q3_skipped r = true → Q3.step local r = Ok local.
Proof.
  unfold q3_skipped, Q3.step. intros H. apply orb_true_iff in H as [->|H]; [done|].
  apply bool_decide_eq_true in H. rewrite H. by destruct (is_nan _).
Qed.

Lemma q4_step_skipped (local : gmap string Q4.info) (r : row) :
  q4_skipped r = true → Q4.step local r = Ok local.
Proof.
  unfold q4_skipped, Q4.step. intros H. apply orb_true_iff in H as [->|H]; [done|].
  apply bool_decide_eq_true in H. rewrite H. by destruct (is_nan _).
Qed.

Lemma q2_group_step_skipped (acc : gmap string Q2.entry) (r : row) (bid : string) :
  is_nan (to_numeric (RScore r)) = true ∨ BId r = None →
  let e := default Q2.empty_entry (acc !! bid) in
  let e' := default Q2.empty_entry (Q2.group_step acc r !! bid) in
  Q2.rsum e' = Q2.rsum e ∧ Q2.rcnt e' = Q2.rcnt e.
Proof.
  intros H. cbv zeta. unfold Q2.group_step.
  destruct (BId r) as [b|]; [|done]. destruct H as [H|H]; [|done]. rewrite H.
  destruct (decide (b = bid)) as [->|Hne].
  - by rewrite lookup_insert_eq.
  - by rewrite lookup_insert_ne.
Qed.

(** C9. In [_work] of Q3 and of Q4 a record whose rating is missing or not
    a number, or whose entity id (the user id in Q3, the book id in Q4) is
    missing, leaves the whole accumulator as it is: no sum, count, set of
    books or label counter of any entity changes. So the worker's output
    (the payload and the diagnostic count, or the error it raises) on a
    slice is its output on the slice without these records. In
    [_process_slice] of Q2, which keeps neither sets nor labels, such a
    record changes the sum and the count of no book. *)
Theorem skipped_rows_change_nothing :
  (∀ local r, q3_skipped r = true → Q3.step local r = Ok local)
  ∧ (∀ local r, q4_skipped r = true → Q4.step local r = Ok local)
  ∧ (∀ cols rs,
       Q3.work_frame (DataFrame cols (filter (λ r, q3_skipped r = false) rs))
       = Q3.work_frame (DataFrame cols rs))
  ∧ (∀ cols rs,
       Q4.work_frame (DataFrame cols (filter (λ r, q4_skipped r = false) rs))
       = Q4.work_frame (DataFrame cols rs))
  ∧ (∀ acc r bid,
       q4_skipped r = true →
       let e := default Q2.empty_entry (acc !! bid) in
       let e' := default Q2.empty_entry (Q2.group_step acc r !! bid) in
       Q2.rsum e' = Q2.rsum e ∧ Q2.rcnt e' = Q2.rcnt e).
Proof.
  split; [apply q3_step_skipped|]. split; [apply q4_step_skipped|]. split; [|split].
  - intros cols rs. unfold Q3.work_frame, Q3.aggregate, check_columns. simpl.
    by rewrite (foldlM_filter Q3.step q3_skipped) by apply q3_step_skipped.
  - intros cols rs. unfold Q4.work_frame, Q4.aggregate, check_columns. simpl.
    by rewrite (foldlM_filter Q4.step q4_skipped) by apply q4_step_skipped.
  - intros acc r bid H. apply q2_group_step_skipped. unfold q4_skipped in H.
    apply orb_true_iff in H as [H|H]; [by left|]. right. by apply bool_decide_eq_true in H.
Qed.

Lemma skipped_rows_change_nothing_witness :
  let r := Row (Some "U1") (Some "Amy") (Some "B1") (Some "T") (Num (of_Z 2)) (Text "n/a") in
  q3_skipped r = true ∧ Q3.step {[ "U1" := Q3.Info 4 1 {[ "B0" ]} ∅ ]} r
                        = Ok {[ "U1" := Q3.Info 4 1 {[ "B0" ]} ∅ ]}.
Proof.
  intros r. assert (H : q3_skipped r = true) by reflexivity.
  split; [exact H|].
  exact (proj1 skipped_rows_change_nothing {[ "U1" := Q3.Info 4 1 {[ "B0" ]} ∅ ]} r H).
Defined.

(** *** What the accumulators hold *)

Lemma sum_list_snoc (l : list Z) (x : Z) :
  Partitioner.sum_list (l ++ [x]) = Partitioner.sum_list l + x.
Proof. rewrite sum_list_app. unfold Partitioner.sum_list. simpl. lia. Qed.

Lemma exact_sum_snoc (rs : list row) (r : row) (n : Z) :
  int_of_float (rating r) = Some n → exact_sum (rs ++ [r]) = exact_sum rs + n.
Proof.
  intros H. unfold exact_sum. rewrite fmap_app.
  change (int_rating <$> [r]) with [int_rating r]. rewrite sum_list_snoc.
  unfold int_rating. by rewrite H.
Qed.

Lemma filter_snoc_true {A : Type} (f : A → bool) (l : list A) (x : A) :
  f x = true → filter (λ y, f y = true) (l ++ [x]) = filter (λ y, f y = true) l ++ [x].
Proof.
  intros H. rewrite filter_app. f_equal. rewrite filter_cons, decide_True by done.
  by rewrite filter_nil.
Qed.

Lemma filter_snoc_false {A : Type} (f : A → bool) (l : list A) (x : A) :
  f x = false → filter (λ y, f y = true) (l ++ [x]) = filter (λ y, f y = true) l.
Proof.
  intros H. rewrite filter_app, filter_cons, decide_False by (by rewrite H).
  by rewrite filter_nil, app_nil_r.
Qed.

Lemma head_snoc {A : Type} (l : list A) (x : A) :
  head (l ++ [x]) = match head l with Some y => Some y | None => Some x end.
Proof. by destruct l. Qed.

Lemma head_omap_snoc {A B : Type} (f : A → option B) (l : list A) (x : A) :
  head (omap f (l ++ [x]))
  = match head (omap f l) with Some y => Some y | None => f x end.
Proof.
  rewrite omap_app. simpl. destruct (omap f l) as [|y k]; simpl.
  - by destruct (f x).
  - done.
Qed.

Lemma q4_aggregate_spec (rs : list row) (local : gmap string Q4.info) (bid : string) :
  Q4.aggregate rs = Ok local →
  let mine := filter (λ r, q4_counted bid r = true) rs in
  match local !! bid with
  | None => mine = []
  | Some i =>
      mine ≠ [] ∧ Q4.sum i = exact_sum mine ∧ Q4.cnt i = Z.of_nat (length mine)
      ∧ Q4.price i = head (omap known_price mine)
  end.
Proof.
  revert local. induction rs as [|r rs IH] using rev_ind; intros local Hagg.
  - injection Hagg as <-. by rewrite lookup_empty.
  - unfold Q4.aggregate in Hagg. rewrite foldlM_snoc in Hagg.
    destruct (foldlM Q4.step ∅ rs) as [local0|] eqn:E; simpl in Hagg; [|done].
    specialize (IH local0 E). simpl in IH. simpl.
    unfold Q4.step in Hagg. fold (rating r) in Hagg.
    destruct (is_nan (rating r)) eqn:Hnan.
    { injection Hagg as <-. rewrite filter_snoc_false; [done|].
      unfold q4_counted. by rewrite Hnan. }
    destruct (BId r) as [b|] eqn:Hb.
    2:{ injection Hagg as <-. rewrite filter_snoc_false; [done|].
        unfold q4_counted. rewrite Hb. by rewrite andb_false_r. }
    destruct (int_of_float (rating r)) as [n|] eqn:Hn; [|done].
    injection Hagg as <-. destruct (decide (b = bid)) as [->|Hne].
    + rewrite lookup_insert_eq.
      rewrite filter_snoc_true by (unfold q4_counted; rewrite Hnan, Hb; by rewrite bool_decide_eq_true_2).
      split; [by destruct (filter _ rs)|].
      rewrite (exact_sum_snoc _ _ n Hn), length_app, head_omap_snoc. simpl.
      destruct (local0 !! bid) as [i|]; simpl.
      * destruct IH as (_ & -> & -> & ->). split; [done|]. split; [lia|].
        unfold known_price. by destruct (head _).
      * rewrite IH. simpl. split; [done|]. split; [done|]. done.
    + rewrite lookup_insert_ne by done.
      rewrite filter_snoc_false; [done|].
      unfold q4_counted. rewrite Hb. rewrite bool_decide_eq_false_2 by congruence.
      by rewrite andb_false_r.
Qed.


Lemma last_omap_snoc {A B : Type} (f : A → option B) (l : list A) (x : A) :
  last (omap f (l ++ [x]))
  = match f x with Some y => Some y | None => last (omap f l) end.
Proof.
  rewrite omap_app. simpl. destruct (f x); [apply last_snoc|by rewrite app_nil_r].
Qed.

Lemma q2_merged_frame_spec (rs : list row) (bid : string) :
  let mine := filter (λ r, q2_grouped bid r = true) rs in
  match Q2.merged_frame rs !! bid with
  | None => mine = []
  | Some e =>
      mine ≠ []
      ∧ Q2.rsum e = foldl fadd fzero (rating <$> filter (λ r, rated r = true) mine)
      ∧ Q2.rcnt e = Z.of_nat (length (filter (λ r, rated r = true) mine))
      ∧ Q2.price e = last (omap known_price mine)
  end.
Proof.
  induction rs as [|r rs IH] using rev_ind; cbv zeta.
  - by change (Q2.merged_frame [] !! bid) with ((∅ : gmap string Q2.entry) !! bid).
  - unfold Q2.merged_frame. rewrite foldl_snoc. fold (Q2.merged_frame rs).
    cbv zeta in IH. unfold Q2.group_step. fold (rating r).
    destruct (BId r) as [b|] eqn:Hb.
    2:{ rewrite filter_snoc_false; [done|]. unfold q2_grouped. by rewrite Hb. }
    destruct (decide (b = bid)) as [->|Hne].
    + rewrite lookup_insert_eq.
      rewrite filter_snoc_true by (unfold q2_grouped; rewrite Hb; by rewrite bool_decide_eq_true_2).
      split; [by destruct (filter _ rs)|].
      rewrite last_omap_snoc. fold (known_price r).
      assert (Hp : ∀ q, (if is_nan (to_numeric (BPrice r)) then q else Some (to_numeric (BPrice r)))
                        = match known_price r with Some y => Some y | None => q end).
      { intros q. unfold known_price. by destruct (is_nan _). }
      rewrite Hp. clear Hp.
      destruct (is_nan (rating r)) eqn:Hnan.
      * rewrite (filter_snoc_false rated) by (unfold rated; by rewrite Hnan).
        destruct (Q2.merged_frame rs !! bid) as [e|]; simpl.
        -- by destruct IH as (_ & -> & -> & ->).
        -- by rewrite IH.
      * rewrite (filter_snoc_true rated) by (unfold rated; by rewrite Hnan).
        rewrite fmap_app, foldl_app, length_app.
        change (foldl fadd ?a (rating <$> [r])) with (fadd a (rating r)).
        change (length [r]) with 1%nat.
        destruct (Q2.merged_frame rs !! bid) as [e|]; simpl.
        -- destruct IH as (_ & -> & -> & ->). split; [done|]. split; [lia|done].
        -- by rewrite IH.
    + rewrite lookup_insert_ne by done.
      rewrite filter_snoc_false; [done|].
      unfold q2_grouped. rewrite Hb. by rewrite bool_decide_eq_false_2 by congruence.
Qed.

(** *** Folds of one key, in closed form *)

Lemma fold_entry_default {E P : Type} (empty : E) (merge_entry : E → P → E)
    (os : list (option P)) (a : option E) :
  default empty (foldl (fold_entry empty merge_entry) a os)
  = foldl merge_entry (default empty a) (omap id os).
Proof.
  revert a. induction os as [|[e|] os IH]; intros a; simpl; [done| |apply IH].
  by rewrite IH.
Qed.

Lemma omap_fmap {A B C : Type} (g : B → option C) (f : A → B) (l : list A) :
  omap g (f <$> l) = omap (λ x, g (f x)) l.
Proof.
  induction l as [|x l IH]; [done|]. rewrite fmap_cons.
  change (omap g (f x :: (f <$> l)))
    with (match g (f x) with Some y => y :: omap g (f <$> l) | None => omap g (f <$> l) end).
  change (omap (λ x, g (f x)) (x :: l))
    with (match g (f x) with
          | Some y => y :: omap (λ x, g (f x)) l
          | None => omap (λ x, g (f x)) l
          end).
  by rewrite IH.
Qed.

Lemma omap_ext {A B : Type} (f g : A → option B) (l : list A) :
  (∀ x, f x = g x) → omap f l = omap g l.
Proof.
  intros H. induction l as [|x l IH]; [done|].
  change (omap f (x :: l)) with (match f x with Some y => y :: omap f l | None => omap f l end).
  change (omap g (x :: l)) with (match g x with Some y => y :: omap g l | None => omap g l end).
  by rewrite H, IH.
Qed.

Lemma foldl_add_sum_list (l : list Z) (a : Z) :
  foldl Z.add a l = a + Partitioner.sum_list l.
Proof.
  revert a. induction l as [|x l IH]; intros a; simpl; [lia|].
  rewrite IH. unfold Partitioner.sum_list. simpl. lia.
Qed.

Lemma first_price_fold (os : list (option (option float64))) (a : option (option float64)) :
  mjoin (foldl (fold_entry None first_price) a os)
  = match mjoin a with Some x => Some x | None => head (omap mjoin os) end.
Proof.
  revert a. induction os as [|o os IH]; intros a; simpl.
  - by destruct (mjoin a).
  - rewrite IH. destruct o as [q|]; simpl.
    + destruct a as [[x|]|]; simpl; try done; by destruct q.
    + by destruct (mjoin a).
Qed.

Lemma q4_merged_price (ps : list (gmap string Q4.info)) (bid : string) (b : Q4.info) :
  Q4.merge_all ps !! bid = Some b →
  Q4.price b = head (omap (λ pm, pm !! bid ≫= Q4.price) ps).
Proof.
  intros Hb. pose proof (q4_price_lookup ps bid) as H. rewrite Hb in H. simpl in H.
  apply (f_equal mjoin) in H. rewrite first_price_fold in H. simpl in H.
  rewrite H, omap_fmap. f_equal. apply omap_ext. intros p.
  by destruct (p !! bid) as [[? ? [?|] ?]|].
Qed.

Lemma q2_merged_price (ps : list (gmap string Q2.entry)) (bid : string) (e : Q2.entry) :
  Q2.merge_all ps !! bid = Some e →
  Q2.price e = head (omap (λ m, m !! bid ≫= Q2.price) ps).
Proof.
  intros He. pose proof (q2_price_lookup ps bid) as H.
  rewrite He in H. simpl in H.
  apply (f_equal mjoin) in H. rewrite first_price_fold in H. simpl in H.
  rewrite H, omap_fmap. f_equal. apply omap_ext. intros p.
  by destruct (p !! bid) as [[? ? [?|]]|].
Qed.

(** C7, amended. [_work] of Q4 keeps for a book the price of the first
    record it counts for the book (one with a rating and the book id) that
    has a price, and a later record never replaces a price once kept. In
    the merges of Q2 and Q4 a price the global entry holds is never
    replaced, so the merged price is that of the first partial map, in the
    order of the list, that holds one for the id. [_process_slice] of Q2
    keeps the price of the last record of the book that has one, with or
    without a rating ([keep="last"]). *)
Theorem price_capture :
  (∀ df payload n bid i,
     Q4.work_frame df = Ok (payload, n) → payload !! bid = Some i →
     Q4.price i = head (omap known_price (filter (λ r, q4_counted bid r = true) (rows df))))
  ∧ (∀ local r local' bid i p,
       Q4.step local r = Ok local' → local !! bid = Some i → Q4.price i = Some p →
       ∃ i', local' !! bid = Some i' ∧ Q4.price i' = Some p)
  ∧ (∀ books pm bid b p,
       books !! bid = Some b → Q4.price b = Some p →
       ∃ b', Q4.merge_partial books pm !! bid = Some b' ∧ Q4.price b' = Some p)
  ∧ (∀ global_map m bid g p,
       global_map !! bid = Some g → Q2.price g = Some p →
       ∃ g', Q2.merge_partial global_map m !! bid = Some g' ∧ Q2.price g' = Some p)
  ∧ (∀ ps bid b,
       Q4.merge_all ps !! bid = Some b →
       Q4.price b = head (omap (λ pm, pm !! bid ≫= Q4.price) ps))
  ∧ (∀ ps bid e,
       Q2.merge_all ps !! bid = Some e →
       Q2.price e = head (omap (λ m, m !! bid ≫= Q2.price) ps))
  ∧ (∀ df part_map hits bid e,
       Q2.process_frame df = Ok (part_map, hits) → part_map !! bid = Some e →
       Q2.price e = last (omap known_price (filter (λ r, q2_grouped bid r = true) (rows df)))).
Proof.
  repeat split.
  - intros df payload n bid i Hw Hi. unfold Q4.work_frame in Hw.
    destruct (check_columns _ df); simpl in Hw; [|done].
    destruct (Q4.aggregate (rows df)) as [local|] eqn:E; simpl in Hw; [|done].
    injection Hw as <- _. pose proof (q4_aggregate_spec _ _ bid E) as H.
    simpl in H. rewrite Hi in H. tauto.
  - intros local r local' bid i p Hstep Hi Hp. unfold Q4.step in Hstep.
    destruct (is_nan _); [injection Hstep as <-; eauto|].
    destruct (BId r) as [b|]; [|injection Hstep as <-; eauto].
    destruct (int_of_float _); [|done]. injection Hstep as <-.
    destruct (decide (b = bid)) as [->|Hne].
    + rewrite lookup_insert_eq, Hi. simpl. rewrite Hp. eauto.
    + rewrite lookup_insert_ne by done. eauto.
  - intros books pm bid b p Hb Hp. unfold Q4.merge_partial.
    rewrite lookup_merge_maps, Hb. destruct (pm !! bid); simpl; [|eauto].
    eexists. split; [done|]. simpl. by rewrite Hp.
  - intros global_map m bid g p Hg Hp. unfold Q2.merge_partial.
    rewrite lookup_merge_maps, Hg. destruct (m !! bid); simpl; [|eauto].
    eexists. split; [done|]. simpl. by rewrite Hp.
  - apply q4_merged_price.
  - apply q2_merged_price.
  - intros df part_map hits bid e Hp He. unfold Q2.process_frame in Hp.
    destruct (check_columns _ df); simpl in Hp; [|done].
    injection Hp as <- _. rewrite lookup_fmap in He.
    pose proof (q2_merged_frame_spec (rows df) bid) as H. cbv zeta in H.
    destruct (Q2.merged_frame (rows df) !! bid) as [e0|]; [|done].
    injection He as <-. simpl. tauto.
Qed.

Lemma price_capture_witness :
  let df := DataFrame ["BId"; "BTitle"; "BPrice"; "RScore"]
              [Row None None (Some "B1") (Some "T") Blank (Num (of_Z 3));
               Row None None (Some "B1") (Some "T") (Num (of_Z 7)) (Num (of_Z 4));
               Row None None (Some "B1") (Some "T") (Num (of_Z 9)) (Num (of_Z 2))] in
  let i := Q4.Info 9 3 (Some (of_Z 7)) {[ "T" := 3 ]} in
  Q4.work_frame df = Ok ({[ "B1" := i ]}, 1)
  ∧ ({[ "B1" := i ]} : gmap string Q4.info) !! "B1" = Some i
  ∧ Q4.price i = head (omap known_price (filter (λ r, q4_counted "B1" r = true) (rows df))).
Proof.
  intros df i.
  assert (Hw : Q4.work_frame df = Ok ({[ "B1" := i ]}, 1)).
  { by vm_compute. }
  assert (Hi : ({[ "B1" := i ]} : gmap string Q4.info) !! "B1" = Some i) by apply lookup_singleton_eq.
  split; [exact Hw|]. split; [exact Hi|].
  exact (proj1 price_capture df _ 1 "B1" i Hw Hi).
Defined.

(** C7, the claim as stated fails. In [_process_slice] of Q2 two records of
    the book ["B1"] with the prices 2.0 and 3.0, in this order, leave the
    price 3.0: the later record has overwritten the first price. In [_work]
    of Q4 a first record with a price but no rating is skipped, and the
    price is taken from a later record. *)
Lemma price_not_from_first_row :
  let r1 := Row None None (Some "B1") None (Num (of_Z 2)) (Num (of_Z 5)) in
  let r2 := Row None None (Some "B1") None (Num (of_Z 3)) (Num (of_Z 5)) in
  let r0 := Row None None (Some "B1") None (Num (of_Z 2)) Blank in
  head (omap known_price [r1; r2]) = Some (of_Z 2)
  ∧ match Q2.process_frame (DataFrame ["BId"; "RScore"; "BPrice"] [r1; r2]) with
    | Ok (part_map, _) => Q2.price <$> part_map !! "B1" = Some (Some (of_Z 3))
    | Raise _ => False
    end
  ∧ head (omap known_price [r0; r2]) = Some (of_Z 2)
  ∧ match Q4.work_frame (DataFrame ["BId"; "BTitle"; "BPrice"; "RScore"] [r0; r2]) with
    | Ok (payload, _) => Q4.price <$> payload !! "B1" = Some (Some (of_Z 3))
    | Raise _ => False
    end.
Proof. by vm_compute. Qed.

(** *** The sums *)

Lemma merged_default {E P : Type} (empty : E) (merge_entry : E → P → E)
    (ps : list (gmap string P)) (k : string) :
  default empty (foldl (merge_maps empty merge_entry) ∅ ps !! k)
  = foldl merge_entry empty (omap (.!! k) ps).
Proof.
  rewrite lookup_foldl_merge, lookup_empty, fold_entry_default. simpl.
  by rewrite omap_fmap.
Qed.

Lemma foldl_image {E P E' P' : Type} (f : E → P → E) (f' : E' → P' → E')
    (h : E → E') (hp : P → P') (l : list P) (a : E) :
  (∀ u i, h (f u i) = f' (h u) (hp i)) →
  h (foldl f a l) = foldl f' (h a) (hp <$> l).
Proof.
  intros H. revert a. induction l as [|x l IH]; intros a; simpl; [done|].
  by rewrite IH, H.
Qed.

Lemma fmap_omap_lookup {A B : Type} (f : A → B) (ps : list (gmap string A)) (k : string) :
  f <$> omap (.!! k) ps = omap (λ m, f <$> m !! k) ps.
Proof.
  induction ps as [|p ps IH]; [done|].
  change (omap (.!! k) (p :: ps))
    with (match p !! k with Some y => y :: omap (.!! k) ps | None => omap (.!! k) ps end).
  change (omap (λ m, f <$> m !! k) (p :: ps))
    with (match f <$> p !! k with
          | Some y => y :: omap (λ m, f <$> m !! k) ps
          | None => omap (λ m, f <$> m !! k) ps
          end).
  destruct (p !! k); simpl; by rewrite <- IH.
Qed.

Lemma sum_list_omap {A : Type} (g : A → option Z) (l : list A) :
  Partitioner.sum_list (omap g l) = Partitioner.sum_list ((λ x, default 0 (g x)) <$> l).
Proof.
  induction l as [|x l IH]; [done|]. rewrite fmap_cons.
  change (omap g (x :: l)) with (match g x with Some y => y :: omap g l | None => omap g l end).
  unfold Partitioner.sum_list in *. destruct (g x); simpl; rewrite IH; lia.
Qed.


Lemma fold_entry_None {E P : Type} (empty : E) (merge_entry : E → P → E)
    (os : list (option P)) (a : option E) :
  foldl (fold_entry empty merge_entry) a os = None → a = None ∧ Forall (λ o, o = None) os.
Proof.
  revert a. induction os as [|o os IH]; intros a H; simpl in H; [by split|].
  apply IH in H as [H Hos]. destruct o; [done|]. simpl in H. by split; [|constructor].
Qed.

Lemma merged_None {E P : Type} (empty : E) (merge_entry : E → P → E)
    (ps : list (gmap string P)) (k : string) :
  foldl (merge_maps empty merge_entry) ∅ ps !! k = None → Forall (λ p, p !! k = None) ps.
Proof.
  rewrite lookup_foldl_merge. intros [_ H]%fold_entry_None.
  by apply Forall_fmap in H.
Qed.










(** ** The order of floats *)

Lemma SFcompare_rank (x y : float64) :
  is_nan x = false → is_nan y = false →
  ∃ c, SFcompare x y = Some c
       ∧ (c = Lt ↔ lex_lt (frank x) (frank y))
       ∧ (c = Eq ↔ lex_eq (frank x) (frank y)).
Proof.
  intros Hx Hy. unfold lex_lt, lex_eq.
  destruct x as [sx|sx| |sx mx ex], y as [sy|sy| |sy my ey]; try done;
    try (destruct sx); try (destruct sy); simpl;
    try (eexists; split; [reflexivity|]; split; split; intros; (done || lia)).
  - destruct (Z.compare_spec ex ey) as [->|?|?].
    + change (Pos.compare_cont Eq mx my) with (mx ?= my)%positive.
      destruct (Pos.compare_spec mx my) as [->|?|?]; simpl;
        eexists; (split; [reflexivity|]); split; split; intros; (done || lia).
    + eexists; split; [reflexivity|]; split; split; intros; (done || lia).
    + eexists; split; [reflexivity|]; split; split; intros; (done || lia).
  - destruct (Z.compare_spec ex ey) as [->|?|?].
    + change (Pos.compare_cont Eq mx my) with (mx ?= my)%positive.
      destruct (Pos.compare_spec mx my) as [->|?|?]; simpl;
        eexists; (split; [reflexivity|]); split; split; intros; (done || lia).
    + eexists; split; [reflexivity|]; split; split; intros; (done || lia).
    + eexists; split; [reflexivity|]; split; split; intros; (done || lia).
Qed.

Lemma fltb_rank (x y : float64) :
  is_nan x = false → is_nan y = false →
  fltb x y = true ↔ lex_lt (frank x) (frank y).
Proof.
  intros Hx Hy. destruct (SFcompare_rank x y Hx Hy) as (c & Hc & Hlt & _).
  unfold fltb, SFltb. rewrite Hc. rewrite <- Hlt. by destruct c.
Qed.

Lemma feqb_rank (x y : float64) :
  is_nan x = false → is_nan y = false →
  feqb x y = true ↔ lex_eq (frank x) (frank y).
Proof.
  intros Hx Hy. destruct (SFcompare_rank x y Hx Hy) as (c & Hc & _ & Heq).
  unfold feqb, SFeqb. rewrite Hc. rewrite <- Heq. by destruct c.
Qed.

Lemma is_nan_fopp (x : float64) : is_nan (fopp x) = is_nan x.
Proof. by destruct x. Qed.

Lemma frank_fopp (x : float64) :
  (frank (fopp x)).1.1 = - (frank x).1.1
  ∧ (frank (fopp x)).1.2 = - (frank x).1.2
  ∧ (frank (fopp x)).2 = - (frank x).2.
Proof. destruct x as [[]|[]| |[] m e]; simpl; lia. Qed.

(** ** The top-10 resolver *)

Lemma before_rank (a b : string * float64) :
  is_nan a.2 = false → is_nan b.2 = false →
  before a b ↔ lex_lt (frank b.2) (frank a.2)
               ∨ (lex_eq (frank a.2) (frank b.2) ∧ str_le a.1 b.1).
Proof.
  intros Ha Hb. unfold before.
  by rewrite (fltb_rank _ _ Hb Ha), (feqb_rank _ _ Ha Hb).
Qed.

Lemma key_lt_false (a b : string * float64) :
  is_nan a.2 = false → is_nan b.2 = false →
  Q4.key_lt b a = false ↔ before a b.
Proof.
  intros Ha Hb. rewrite (before_rank a b Ha Hb). unfold Q4.key_lt.
  pose proof (feqb_rank (fopp b.2) (fopp a.2)) as He.
  pose proof (fltb_rank (fopp b.2) (fopp a.2)) as Hl.
  rewrite !is_nan_fopp in He, Hl. specialize (He Hb Ha). specialize (Hl Hb Ha).
  pose proof (frank_fopp a.2) as (?&?&?). pose proof (frank_fopp b.2) as (?&?&?).
  unfold lex_lt, lex_eq in *.
  destruct (feqb (fopp b.2) (fopp a.2)).
  - rewrite str_ltb_false. destruct He as [He _]. specialize (He eq_refl).
    split; [intros; right; split; [lia|done]|]. intros [?|[_ ?]]; [lia|done].
  - destruct (fltb (fopp b.2) (fopp a.2)).
    + destruct Hl as [Hl _]. specialize (Hl eq_refl). split; [done|].
      intros [?|[? _]]; lia.
    + split; [|done]. intros _. left.
      destruct He as [_ He], Hl as [_ Hl].
      assert (Hne : ¬ ((frank (fopp b.2)).1.1 = (frank (fopp a.2)).1.1
                      ∧ (frank (fopp b.2)).1.2 = (frank (fopp a.2)).1.2
                      ∧ (frank (fopp b.2)).2 = (frank (fopp a.2)).2))
        by (intros H'; by specialize (He H')).
      assert (Hnl : ¬ ((frank (fopp b.2)).1.1 < (frank (fopp a.2)).1.1
                      ∨ (frank (fopp b.2)).1.1 = (frank (fopp a.2)).1.1
                        ∧ ((frank (fopp b.2)).1.2 < (frank (fopp a.2)).1.2
                           ∨ (frank (fopp b.2)).1.2 = (frank (fopp a.2)).1.2
                             ∧ (frank (fopp b.2)).2 < (frank (fopp a.2)).2)))
        by (intros H'; by specialize (Hl H')).
      lia.
Qed.

Lemma before_trans (a b c : string * float64) :
  is_nan a.2 = false → is_nan b.2 = false → is_nan c.2 = false →
  before a b → before b c → before a c.
Proof.
  intros Ha Hb Hc.
  rewrite (before_rank a b), (before_rank b c), (before_rank a c) by done.
  unfold lex_lt, lex_eq. intros [?|[? Hab]] [?|[? Hbc]]; try (left; lia).
  right. split; [lia|]. by eapply str_le_trans.
Qed.

Lemma before_total (a b : string * float64) :
  is_nan a.2 = false → is_nan b.2 = false → before a b ∨ before b a.
Proof.
  intros Ha Hb. rewrite (before_rank a b), (before_rank b a) by done.
  unfold lex_lt, lex_eq.
  destruct (String.leb_total a.1 b.1) as [H|H]; fold (str_le a.1 b.1) in *;
    fold (str_le b.1 a.1) in *.
  - destruct (decide (lex_eq (frank a.2) (frank b.2))) as [He|He]; unfold lex_eq in He.
    + left. by right.
    + lia.
  - destruct (decide (lex_eq (frank a.2) (frank b.2))) as [He|He]; unfold lex_eq in He.
    + right. right. split; [lia|done].
    + lia.
Qed.

Lemma sort_by_key_sorted (cands : list (string * float64)) :
  Forall (λ c, is_nan c.2 = false) cands →
  StronglySorted before (sort_by Q4.key_lt cands).
Proof.
  intros Hok.
  assert (Hok' : Forall (λ c, is_nan c.2 = false) (sort_by Q4.key_lt cands))
    by (by rewrite sort_by_perm).
  assert (Hs : StronglySorted (λ a b, Q4.key_lt b a = false) (sort_by Q4.key_lt cands)).
  { apply (sort_by_sorted Q4.key_lt (λ c, is_nan c.2 = false)); [| |done].
    - intros x y Hx Hy Hxy. apply key_lt_false; [done..|].
      destruct (before_total x y Hx Hy) as [H|H]; [done|].
      apply key_lt_false in H; [|done..]. congruence.
    - intros x y z Hx Hy Hz. rewrite !key_lt_false by done. by apply before_trans. }
  induction Hs as [|x l Hs IH Hx]; constructor.
  - apply IH. by apply Forall_cons in Hok' as [_ ?].
  - apply Forall_cons in Hok' as [Hnx Hl]. rewrite Forall_forall in Hx, Hl.
    apply Forall_forall. intros y Hy. apply key_lt_false; auto.
Qed.

Lemma elem_of_candidates (books : gmap string Q4.info) (t : string) (p : float64) :
  (t, p) ∈ Q4.candidates (map_to_list books)
  ↔ ∃ bid i, books !! bid = Some i ∧ 0 < Q4.cnt i ∧ Q4.sum i < 4 * Q4.cnt i
             ∧ Q4.price i = Some p ∧ t = Q4.pick_title (Q4.title_counts i).
Proof.
  unfold Q4.candidates. rewrite list_elem_of_omap. split.
  - intros ([bid i] & Hin & H). apply elem_of_map_to_list in Hin. simpl in H.
    destruct (Q4.eligible i) eqn:He; [|done]. unfold Q4.eligible in He.
    apply andb_true_iff in He as [He _]. apply andb_true_iff in He as [Hc Hs].
    apply bool_decide_eq_true in Hc, Hs.
    destruct (Q4.price i) as [q|] eqn:Hq; [|done]. simpl in H. injection H as <- <-.
    by exists bid, i.
  - intros (bid & i & Hi & Hc & Hs & Hp & ->). exists (bid, i).
    split; [by apply elem_of_map_to_list|]. simpl. unfold Q4.eligible.
    rewrite !bool_decide_eq_true_2 by (done || by rewrite Hp). simpl. by rewrite Hp.
Qed.

Lemma q4_work_price_ok (df : dataframe) (payload : gmap string Q4.info) (n : Z) :
  Q4.work_frame df = Ok (payload, n) → map_Forall (λ _ i, price_ok i) payload.
Proof.
  intros Hw bid i Hi p Hp. unfold Q4.work_frame in Hw.
  destruct (check_columns _ df); simpl in Hw; [|done].
  destruct (Q4.aggregate (rows df)) as [local|] eqn:E; simpl in Hw; [|done].
  injection Hw as <- _. pose proof (q4_aggregate_spec _ _ bid E) as H.
  cbv zeta in H. rewrite Hi in H. destruct H as (_ & _ & _ & H).
  rewrite Hp in H. symmetry in H. apply head_Some_elem_of in H.
  apply list_elem_of_omap in H as (r & _ & Hr). unfold known_price in Hr.
  destruct (is_nan (to_numeric (BPrice r))) eqn:Hn; [done|]. by injection Hr as <-.
Qed.

Lemma q4_merge_price_ok (ps : list (gmap string Q4.info)) :
  Forall (map_Forall (λ _ i, price_ok i)) ps →
  map_Forall (λ _ i, price_ok i) (Q4.merge_all ps).
Proof.
  intros Hps bid b Hb p Hp. rewrite (q4_merged_price ps bid b Hb) in Hp.
  apply head_Some_elem_of in Hp. apply list_elem_of_omap in Hp as (pm & Hpm & H).
  rewrite Forall_forall in Hps. destruct (pm !! bid) as [i|] eqn:Hi; [|done].
  simpl in H. by eapply (Hps pm Hpm bid i Hi).
Qed.

(** One candidate for each eligible book, in the order of the items. *)
Lemma candidates_of_eligible (items : list (string * Q4.info)) :
  Forall2 (λ kv c, c.1 = Q4.pick_title (Q4.title_counts kv.2) ∧ Q4.price kv.2 = Some c.2)
          (filter (λ kv, Q4.eligible kv.2 = true) items) (Q4.candidates items).
Proof.
  induction items as [|[bid i] items IH]; [constructor|].
  rewrite filter_cons. unfold Q4.candidates.
  change (omap ?f ((bid, i) :: items))
    with (match f (bid, i) with Some y => y :: omap f items | None => omap f items end).
  cbv beta. simpl. destruct (Q4.eligible i) eqn:He.
  - rewrite decide_True by done. unfold Q4.eligible in He.
    apply andb_true_iff in He as [_ Hp]. apply bool_decide_eq_true in Hp.
    destruct (Q4.price i) as [p|] eqn:Hq; [|done]. simpl. constructor; [|exact IH].
    simpl. by rewrite Hq.
  - rewrite decide_False by done. exact IH.
Qed.

Lemma candidates_pinned (books : gmap string Q4.info) :
  ∃ eligible_books,
    NoDup eligible_books.*1
    ∧ (∀ bid i, (bid, i) ∈ eligible_books
                ↔ books !! bid = Some i ∧ 0 < Q4.cnt i ∧ Q4.sum i < 4 * Q4.cnt i
                  ∧ Q4.price i ≠ None)
    ∧ Forall2 (λ kv c, c.1 = Q4.pick_title (Q4.title_counts kv.2)
                       ∧ Q4.price kv.2 = Some c.2)
              eligible_books (Q4.candidates (map_to_list books)).
Proof.
  exists (filter (λ kv, Q4.eligible kv.2 = true) (map_to_list books)).
  split; [|split; [|apply candidates_of_eligible]].
  - apply (sublist_NoDup _ (map_to_list books).*1); [apply NoDup_fst_map_to_list|].
    apply fmap_sublist, sublist_filter.
  - intros bid i. rewrite list_elem_of_filter, elem_of_map_to_list. simpl.
    unfold Q4.eligible. rewrite !andb_true_iff, !bool_decide_eq_true. tauto.
Qed.

(** *** The dictionary of the final answer *)

Lemma dict_of_snoc (l : list (string * float64)) (k : string) (v : float64) :
  Q4.dict_of (l ++ [(k, v)]) = Q4.dict_set k v (Q4.dict_of l).
Proof. unfold Q4.dict_of. by rewrite foldl_snoc. Qed.

Lemma dict_set_keys (k : string) (v : float64) (d : list (string * float64)) :
  (Q4.dict_set k v d).*1 = if decide (k ∈ d.*1) then d.*1 else d.*1 ++ [k].
Proof.
  induction d as [|[k' v'] d IH]; [done|].
  change (Q4.dict_set k v ((k', v') :: d))
    with (if bool_decide (k' = k) then (k, v) :: d else (k', v') :: Q4.dict_set k v d).
  case_bool_decide as Hk; rewrite !fmap_cons; cbn [fst].
  - subst k'. rewrite decide_True by left. done.
  - rewrite IH. destruct (decide (k ∈ d.*1)) as [Hin|Hin].
    + rewrite decide_True by (by right). done.
    + rewrite decide_False; [done|]. intros [?|?]%elem_of_cons; congruence.
Qed.

Lemma dict_set_NoDup (k : string) (v : float64) (d : list (string * float64)) :
  NoDup d.*1 → NoDup (Q4.dict_set k v d).*1.
Proof.
  intros Hd. rewrite dict_set_keys. destruct (decide (k ∈ d.*1)); [done|].
  apply NoDup_app. split; [done|]. split; [|apply NoDup_singleton].
  intros x Hx ->%list_elem_of_singleton. done.
Qed.

Lemma elem_of_dict_set (k : string) (v : float64) (d : list (string * float64))
    (t : string) (p : float64) :
  NoDup d.*1 →
  (t, p) ∈ Q4.dict_set k v d ↔ (t = k ∧ p = v) ∨ (t ≠ k ∧ (t, p) ∈ d).
Proof.
  induction d as [|[k' v'] d IH]; simpl; intros Hd.
  - rewrite list_elem_of_singleton, elem_of_nil. naive_solver.
  - apply NoDup_cons in Hd as [Hk' Hd]. case_bool_decide as Hk.
    + subst k'. rewrite !elem_of_cons. split.
      * intros [[= -> ->]|Hin]; [by left|]. right. split; [|by right].
        intros ->. apply Hk'. apply list_elem_of_fmap. by exists (k, p).
      * intros [[-> ->]|[Hne [[= -> ->]|Hin]]]; [by left|done|by right].
    + rewrite !elem_of_cons, (IH Hd). naive_solver.
Qed.

Lemma dict_of_NoDup (l : list (string * float64)) : NoDup (Q4.dict_of l).*1.
Proof.
  induction l as [|[k v] l IH] using rev_ind; [constructor|].
  rewrite dict_of_snoc. by apply dict_set_NoDup.
Qed.

Lemma dict_of_length (l : list (string * float64)) :
  (length (Q4.dict_of l) ≤ length l)%nat.
Proof.
  induction l as [|[k v] l IH] using rev_ind; [done|].
  rewrite dict_of_snoc, length_app. simpl.
  rewrite <- (length_fmap fst (Q4.dict_set k v _)), dict_set_keys.
  destruct (decide _); rewrite ?length_app, length_fmap; simpl; lia.
Qed.

(** A title maps to the price of the last pair that carries it. *)
Lemma elem_of_dict_of (l : list (string * float64)) (t : string) (p : float64) :
  (t, p) ∈ Q4.dict_of l ↔ last (filter (λ kv, kv.1 = t) l) = Some (t, p).
Proof.
  induction l as [|[k v] l IH] using rev_ind.
  - rewrite elem_of_nil. done.
  - rewrite dict_of_snoc, (elem_of_dict_set _ _ _ _ _ (dict_of_NoDup l)).
    rewrite filter_app, filter_cons, filter_nil. simpl.
    destruct (decide (k = t)) as [->|Hne].
    + rewrite last_snoc. naive_solver.
    + rewrite app_nil_r, <- IH. naive_solver.
Qed.

Lemma dict_set_fresh (k : string) (v : float64) (d : list (string * float64)) :
  k ∉ d.*1 → Q4.dict_set k v d = d ++ [(k, v)].
Proof.
  induction d as [|[k' v'] d IH]; intros Hk; simpl; [done|].
  rewrite fmap_cons in Hk. apply not_elem_of_cons in Hk as [Hne Hk]. simpl in Hne.
  rewrite bool_decide_eq_false_2 by congruence. by rewrite IH.
Qed.

Lemma dict_of_distinct (l : list (string * float64)) : NoDup l.*1 → Q4.dict_of l = l.
Proof.
  induction l as [|[k v] l IH] using rev_ind; intros Hnd; [done|].
  rewrite dict_of_snoc. rewrite fmap_app in Hnd. apply NoDup_app in Hnd as (Hl & Hk & _).
  rewrite IH by done. apply dict_set_fresh. intros Hin. apply (Hk k Hin). simpl. left.
Qed.

(** C10. The final answer of the top-10 resolver is a dictionary keyed by
    title: its titles are distinct, they are the titles of the ten first
    sorted candidates, and each maps to the price of the last of these
    candidates that carries it, so two books with one canonical title make
    one entry whose price is that of the later, cheaper one. The answer has
    at most ten entries, and fewer than ten eligible books are not needed
    for fewer entries: of ten eligible books with distinct prices, two of
    them with one title, nine entries remain. *)
Theorem top10_titles_collapse :
  (∀ books : gmap string Q4.info,
     let top := Q4.top10 (Q4.candidates (map_to_list books)) in
     NoDup (Q4.final_answer books).*1
     ∧ (∀ t, t ∈ (Q4.final_answer books).*1 ↔ t ∈ top.*1)
     ∧ (∀ t p, (t, p) ∈ Q4.final_answer books
               ↔ last (filter (λ kv, kv.1 = t) top) = Some (t, p))
     ∧ (length (Q4.final_answer books) ≤ length top ≤ 10)%nat)
  ∧ size ten_books = 10%nat
  ∧ map_Forall (λ _ i, Q4.eligible i = true) ten_books
  ∧ length (Q4.candidates (map_to_list ten_books)) = 10%nat
  ∧ length (Q4.final_answer ten_books) = 9%nat
  ∧ Q4.top10 (Q4.candidates (map_to_list ten_books)) !! 2%nat = Some ("T3", of_Z 17)
  ∧ Q4.top10 (Q4.candidates (map_to_list ten_books)) !! 6%nat = Some ("T3", of_Z 13)
  ∧ Q4.final_answer ten_books !! 2%nat = Some ("T3", of_Z 13).
Proof.
  split.
  - intros books top. unfold Q4.final_answer. fold top.
    split; [apply dict_of_NoDup|]. split; [|split; [apply elem_of_dict_of|]].
    + intros t. rewrite !list_elem_of_fmap. split.
      * intros ([t' p] & -> & Hin). apply elem_of_dict_of in Hin.
        apply last_Some_elem_of, list_elem_of_filter in Hin as [_ Hin].
        by exists (t', p).
      * intros ([t' p] & -> & Hin). simpl.
        destruct (last (filter (λ kv, kv.1 = t') top)) as [[t'' q]|] eqn:Hl.
        -- pose proof Hl as Hl'.
           apply last_Some_elem_of, list_elem_of_filter in Hl' as [Ht _].
           simpl in Ht. subst t''. exists (t', q). split; [done|].
           by apply elem_of_dict_of.
        -- apply last_None in Hl.
           assert ((t', p) ∈ filter (λ kv, kv.1 = t') top)
             by (by apply list_elem_of_filter).
           rewrite Hl in *. by apply elem_of_nil in H.
    + split; [apply dict_of_length|]. unfold top, Q4.top10. rewrite length_take. lia.
  - split; [by vm_compute|]. split; [|by vm_compute].
    intros bid i Hi. apply elem_of_map_to_list in Hi.
    assert (Hall : Forall (λ kv, Q4.eligible kv.2 = true) (map_to_list ten_books))
      by (vm_compute; repeat constructor).
    rewrite Forall_forall in Hall. exact (Hall (bid, i) Hi).
Qed.

(** *** The top-10 resolver *)

(** C8. On a global map that holds no NaN as a price (as every merge of
    worker payloads does), the candidates of the top-10 resolver are the
    pairs of canonical title and price of the eligible books ([cnt > 0],
    [sum < 4 * cnt], a price captured), one pair for each eligible book;
    the sorted list is a rearrangement of the candidates in which every
    pair stands before the later ones (higher price first, on equal prices
    the smaller title first); the final answer is the title-to-price
    dictionary built, in this order, from its first ten pairs, and is
    empty when no book is eligible. The first ten are all the candidates
    when there are at most ten; the titles of the answer are distinct,
    each with the price of the last of the ten pairs that carries it, and
    when the ten titles are distinct the answer is the ten pairs
    themselves, dearest first. *)
Theorem top10_resolver (books : gmap string Q4.info) :
  map_Forall (λ _ i, price_ok i) books →
  let cands := Q4.candidates (map_to_list books) in
  let sorted := sort_by Q4.key_lt cands in
  (∀ t p, (t, p) ∈ cands
          ↔ ∃ bid i, books !! bid = Some i ∧ 0 < Q4.cnt i ∧ Q4.sum i < 4 * Q4.cnt i
                     ∧ Q4.price i = Some p ∧ t = Q4.pick_title (Q4.title_counts i))
  ∧ sorted ≡ₚ cands
  ∧ StronglySorted before sorted
  ∧ Q4.final_answer books = Q4.dict_of (take 10 sorted)
  ∧ ((∀ bid i, books !! bid = Some i → Q4.eligible i = false) → Q4.final_answer books = [])
  ∧ (∀ dfs payloads,
       Forall2 (λ df payload, ∃ n, Q4.work_frame df = Ok (payload, n)) dfs payloads →
       map_Forall (λ _ i, price_ok i) (Q4.merge_all payloads))
  ∧ (∃ eligible_books,
       NoDup eligible_books.*1
       ∧ (∀ bid i, (bid, i) ∈ eligible_books
                   ↔ books !! bid = Some i ∧ 0 < Q4.cnt i ∧ Q4.sum i < 4 * Q4.cnt i
                     ∧ Q4.price i ≠ None)
       ∧ Forall2 (λ kv c, c.1 = Q4.pick_title (Q4.title_counts kv.2)
                          ∧ Q4.price kv.2 = Some c.2)
                 eligible_books cands)
  ∧ length (take 10 sorted) = (length cands `min` 10)%nat
  ∧ NoDup (Q4.final_answer books).*1
  ∧ (∀ t p, (t, p) ∈ Q4.final_answer books
            ↔ last (filter (λ kv, kv.1 = t) (take 10 sorted)) = Some (t, p))
  ∧ (NoDup (take 10 sorted).*1 → Q4.final_answer books = take 10 sorted).
Proof.
  intros Hok cands sorted. split; [apply elem_of_candidates|].
  split; [apply sort_by_perm|].
  split; [|split; [done|split; [|split; [|split; [apply candidates_pinned|split;
    [|split; [apply dict_of_NoDup|split; [apply elem_of_dict_of|apply dict_of_distinct]]]]]]]].
  - apply sort_by_key_sorted. apply Forall_forall. intros [t p] Hin.
    apply elem_of_candidates in Hin as (bid & i & Hi & _ & _ & Hp & _).
    by apply (Hok bid i Hi).
  - intros Hnone. unfold Q4.final_answer.
    assert (Hc : Q4.candidates (map_to_list books) = []).
    { apply elem_of_nil_inv. intros [t p] Hin.
      apply elem_of_candidates in Hin as (bid & i & Hi & Hc & Hs & Hp & _).
      specialize (Hnone bid i Hi). unfold Q4.eligible in Hnone.
      rewrite !bool_decide_eq_true_2 in Hnone by (done || by rewrite Hp). done. }
    by rewrite Hc.
  - intros dfs payloads Hw. apply q4_merge_price_ok.
    apply Forall_forall. intros payload Hin.
    apply list_elem_of_lookup in Hin as [j Hj].
    destruct (Forall2_lookup_r _ _ _ _ _ Hw Hj) as (df & _ & n & Hdf).
    by eapply q4_work_price_ok.
  - unfold sorted. rewrite length_take, (Permutation_length (sort_by_perm _ cands)). lia.
Qed.

Lemma top10_resolver_witness :
  map_Forall (λ _ i, price_ok i) twelve_priced
  ∧ Q4.final_answer twelve_priced
    = [("T10", of_Z 25); ("T11", of_Z 25); ("T8", of_Z 24); ("T9", of_Z 24);
       ("T6", of_Z 23); ("T7", of_Z 23); ("T4", of_Z 22); ("T5", of_Z 22);
       ("T2", of_Z 21); ("T3", of_Z 21)]
  ∧ drop 10 (sort_by Q4.key_lt (Q4.candidates (map_to_list twelve_priced)))
    = [("T0", of_Z 20); ("T1", of_Z 20)].
Proof.
  assert (Hok : map_Forall (λ _ i, price_ok i) twelve_priced).
  { assert (Hall : Forall (λ kv, match Q4.price kv.2 with
                                 | Some p => is_nan p = false
                                 | None => True
                                 end) (map_to_list twelve_priced))
      by (vm_compute; repeat constructor).
    intros bid i Hi p Hp. apply elem_of_map_to_list in Hi.
    rewrite Forall_forall in Hall. specialize (Hall (bid, i) Hi). simpl in Hall.
    by rewrite Hp in Hall. }
  split; [exact Hok|].
  pose proof (top10_resolver twelve_priced Hok) as (_ & _ & _ & H & _).
  rewrite H. split; by vm_compute.
Defined.

(** ** The Coordination Protocol *)

Section coordinator_facts.

Import Coordinator.

Context {Payload Answer : Type}.
Context (work : filesystem → string → Z → Z → result (Payload * Z)).
Context (resolve : list Payload → Answer).

Lemma gather_loop (inbox : Z → list (@message Payload)) (ranks : list Z) (g : gathered) :
  (∀ r, r ∈ ranks → inbox r ≠ []) →
  foldl (gather_step inbox) (Some g) ranks
  = Some (Gathered (worker_maps g ++ (omap (reported_result inbox) ranks).*1)
                   (per_rank_hits g ++ (omap (reported_result inbox) ranks).*2)
                   (worker_errors g ++ omap (reported_error inbox) ranks)).
Proof.
  revert g. induction ranks as [|r ranks IH]; intros g Hall.
  - simpl. rewrite !app_nil_r. by destruct g.
  - change (foldl (gather_step inbox) (Some g) (r :: ranks))
      with (foldl (gather_step inbox) (gather_step inbox (Some g) r) ranks).
    change (omap (reported_result inbox) (r :: ranks))
      with (match reported_result inbox r with
            | Some y => y :: omap (reported_result inbox) ranks
            | None => omap (reported_result inbox) ranks
            end).
    change (omap (reported_error inbox) (r :: ranks))
      with (match reported_error inbox r with
            | Some y => y :: omap (reported_error inbox) ranks
            | None => omap (reported_error inbox) ranks
            end).
    assert (Hr : inbox r ≠ []) by (apply Hall; left).
    assert (Hrest : ∀ r', r' ∈ ranks → inbox r' ≠ []) by (intros; apply Hall; by right).
    unfold gather_step at 2, reported_result, reported_error. simpl.
    destruct (inbox r) as [|[part_map local_hits|err] rest]; [done| |].
    + rewrite (IH _ Hrest). simpl. by rewrite <- !app_assoc.
    + rewrite (IH _ Hrest). simpl. by rewrite <- !app_assoc.
Qed.

Lemma worker_sends_once (fs : filesystem) (a : assignment) :
  match work fs (a_path a) (a_lo a) (a_hi a) with
  | Ok (part_map, local_hits) => worker_main work fs a = [Result part_map local_hits]
  | Raise e => worker_main work fs a = [Error e]
  end.
Proof. unfold worker_main. by destruct (work _ _ _ _) as [[? ?]|]. Qed.

End coordinator_facts.

(** The text [repr] prints for a list of plain texts. *)

Lemma repr_char_plain (q c : ascii) :
  plain_char c = true → c ≠ q → repr_char q c = String c EmptyString.
Proof.
  unfold plain_char, repr_char. intros H Hq.
  apply andb_true_iff in H as [H H92]. apply andb_true_iff in H as [H H34].
  apply andb_true_iff in H as [H32 H126].
  apply negb_true_iff, N.eqb_neq in H92, H34. apply N.leb_le in H32, H126.
  assert (Hb : c ≠ "\"%char) by (intros ->; by apply H92).
  rewrite !bool_decide_eq_false_2 by done. simpl.
  destruct (N.eqb_spec (N_of_ascii c) 9); [lia|].
  destruct (N.eqb_spec (N_of_ascii c) 10); [lia|].
  destruct (N.eqb_spec (N_of_ascii c) 13); [lia|].
  destruct (N.ltb_spec (N_of_ascii c) 32); [lia|].
  destruct (N.eqb_spec (N_of_ascii c) 127); [lia|]. done.
Qed.

Lemma concat_map_repr_plain (q : ascii) (s : string) :
  plain s = true → has_char q s = false → concat_map (repr_char q) s = s.
Proof.
  induction s as [|c s IH]; [done|]. simpl. intros [Hc Hs]%andb_true_iff Hq.
  apply orb_false_iff in Hq as [Hqc Hq]. apply bool_decide_eq_false in Hqc.
  rewrite IH by done. rewrite repr_char_plain by (done || congruence). done.
Qed.

Lemma plain_no_dquote (s : string) : plain s = true → has_char dquote s = false.
Proof.
  induction s as [|c s IH]; [done|]. simpl. intros [Hc Hs]%andb_true_iff.
  rewrite IH by done. rewrite bool_decide_eq_false_2; [done|].
  intros <-. by vm_compute in Hc.
Qed.

Lemma repr_str_plain (s : string) : plain s = true → repr_str s = quoted s.
Proof.
  intros Hs. unfold repr_str, quoted. rewrite (plain_no_dquote s Hs).
  destruct (has_char "'" s) eqn:Hq; simpl.
  - rewrite concat_map_repr_plain; [done..|]. by apply plain_no_dquote.
  - by rewrite concat_map_repr_plain.
Qed.

Lemma repr_list_plain (l : list string) :
  Forall (λ e, plain e = true) l → repr_list l = quoted_list l.
Proof.
  intros Hl. unfold repr_list, quoted_list.
  assert (H : repr_str <$> l = quoted <$> l).
  { induction Hl as [|e l He _ IH]; [done|]. rewrite !fmap_cons, IH.
    by rewrite (repr_str_plain e He). }
  by rewrite H.
Qed.

Section coordinator_claim.

Import Coordinator.

Context {Payload Answer : Type}.
Context (work : filesystem → string → Z → Z → result (Payload * Z)).
Context (resolve : list Payload → Answer).

Lemma master_on_errors (fs : filesystem) (size : Z) (path : string) (DATASET_SIZE : Z)
    (t0 t1 : float64) (respond : Z → assignment → list (@message Payload)) :
  1 ≤ size - 1 → path ≠ EmptyString → is_Some (fs path) → 0 < DATASET_SIZE →
  let inbox := inbox_of path DATASET_SIZE (Partitioner.ranges DATASET_SIZE (size - 1)) respond in
  (∀ r, 1 ≤ r < size → inbox r ≠ []) →
  let errors := omap (reported_error inbox) (seqZ 1 (size - 1)) in
  errors ≠ [] →
  master resolve fs size (Some path) DATASET_SIZE t0 t1 respond
  = Printed (JobResult (Message ("Worker errors: " +:+ repr_list errors)) [] [] fzero).
Proof.
  intros Hw Hp Hfs Hn inbox Hall errors Herr. unfold master.
  rewrite bool_decide_eq_false_2 by lia.
  rewrite (bool_decide_eq_false_2 (path = EmptyString)) by done.
  rewrite (bool_decide_eq_true_2 (is_Some (fs path))) by done.
  rewrite (bool_decide_eq_false_2 (DATASET_SIZE ≤ 0)) by lia.
  simpl. fold inbox.
  unfold gather. rewrite gather_loop.
  2:{ intros r Hr. apply elem_of_seqZ in Hr. apply Hall. lia. }
  simpl. fold errors. by destruct errors.
Qed.

Lemma elem_of_reported (inbox : Z → list (@message Payload)) (size : Z) (s : string) :
  s ∈ omap (reported_error inbox) (seqZ 1 (size - 1))
  ↔ ∃ r err rest, 1 ≤ r < size ∧ inbox r = Error err :: rest ∧ s = tagged r err.
Proof.
  rewrite list_elem_of_omap. setoid_rewrite elem_of_seqZ. unfold reported_error. split.
  - intros (r & Hr & H). destruct (inbox r) as [|[?|err] rest] eqn:E; try done.
    injection H as <-. exists r, err, rest. split; [lia|done].
  - intros (r & err & rest & Hr & E & ->). exists r. split; [lia|]. by rewrite E.
Qed.

(** C5. In the master-only coordinators ([t3q2_master.py], [t3q3_master.py],
    [t3q4_master.py]): a worker rank sends exactly one message, the result
    of its method or, when the method raises while it reads or aggregates,
    the text of the exception as an error. When every worker has sent its
    message and at least one of the first messages is an error, rank 0
    prints the failure result: its final answer is the list of all the
    reported errors, in rank order, each as ["[rank r] err"] for the rank
    [r] it came from; the chunk sizes and the diagnostic counts are empty,
    the time is zero, and nothing is resolved from the partial maps. So
    the job fails in this way as soon as the method of one worker raises.
    The answer is the text ["Worker errors: "] and the list as [repr]
    prints it: for errors of printable ASCII characters without backslash
    and double quote, the errors between brackets, separated by [", "],
    each between single quotes, or between double quotes when it holds a
    single quote. *)
Theorem worker_errors_abort_job (fs : filesystem) (size : Z) (path : string)
    (DATASET_SIZE : Z) (t0 t1 : float64) :
  1 ≤ size - 1 → path ≠ EmptyString → is_Some (fs path) → 0 < DATASET_SIZE →
  (∀ a, match work fs (a_path a) (a_lo a) (a_hi a) with
        | Ok (part_map, local_hits) => worker_main work fs a = [Result part_map local_hits]
        | Raise e => worker_main work fs a = [Error e]
        end)
  ∧ (∀ respond,
       let inbox := inbox_of path DATASET_SIZE (Partitioner.ranges DATASET_SIZE (size - 1)) respond in
       let errors := omap (reported_error inbox) (seqZ 1 (size - 1)) in
       (∀ r, 1 ≤ r < size → inbox r ≠ []) →
       errors ≠ [] →
       master resolve fs size (Some path) DATASET_SIZE t0 t1 respond
       = Printed (JobResult (Message ("Worker errors: " +:+ repr_list errors)) [] [] fzero)
       ∧ ∀ s, s ∈ errors
              ↔ ∃ r err rest, 1 ≤ r < size ∧ inbox r = Error err :: rest ∧ s = tagged r err)
  ∧ (let errors := omap (raised work fs path DATASET_SIZE (size - 1)) (seqZ 1 (size - 1)) in
     errors ≠ [] →
     job work resolve fs size (Some path) DATASET_SIZE t0 t1
     = Printed (JobResult (Message ("Worker errors: " +:+ repr_list errors)) [] [] fzero))
  ∧ (∀ errors, Forall (λ e, plain e = true) errors →
       "Worker errors: " +:+ repr_list errors
       = "Worker errors: [" +:+ join ", " (quoted <$> errors) +:+ "]").
Proof.
  intros Hw Hp Hfs Hn. split; [intros a; apply worker_sends_once|].
  split; [|split; [|intros errors Hplain; by rewrite repr_list_plain]].
  - intros respond inbox errors Hall Herr.
    split; [by apply master_on_errors|]. intros s. apply elem_of_reported.
  - intros errors Herr. unfold job.
    set (respond := λ (_ : Z) (a : assignment), worker_main work fs a).
    set (ranges := Partitioner.ranges DATASET_SIZE (size - 1)).
    assert (Heq : omap (reported_error (inbox_of path DATASET_SIZE ranges respond))
                    (seqZ 1 (size - 1)) = errors).
    { apply omap_ext. intros r.
      unfold reported_error, inbox_of, raised, respond, worker_main. fold ranges.
      destruct (ranges !! _) as [[lo hi]|]; [|done]. simpl.
      by destruct (work fs path lo hi) as [[? ?]|]. }
    subst ranges. rewrite <- Heq. apply master_on_errors; try done; [|by rewrite Heq].
    intros r Hr. unfold inbox_of, respond, worker_main.
    destruct (Partitioner.ranges _ _ !! _) as [[lo hi]|] eqn:E.
    + simpl. by destruct (work fs path lo hi) as [[? ?]|].
    + apply lookup_ge_None in E. rewrite length_ranges in E. lia.
Qed.

End coordinator_claim.

Lemma worker_errors_abort_job_witness :
  let no_title := DataFrame ["BId"; "BPrice"; "RScore"]
              [Row None None (Some "B1") None (Num (of_Z 2)) (Num (of_Z 3));
               Row None None (Some "B2") None (Num (of_Z 5)) (Num (of_Z 4))] in
  let infinite := DataFrame ["BId"; "BTitle"; "BPrice"; "RScore"]
              [Row None None (Some "B1") (Some "T1") (Num (of_Z 2)) (Num (of_Z 3));
               Row None None (Some "B2") (Some "T2") (Num (of_Z 5)) (Num (S754_infinity false))] in
  let fs : filesystem :=
    λ p, if bool_decide (p = "data.csv") then Some no_title
         else if bool_decide (p = "inf.csv") then Some infinite else None in
  (1 ≤ 3 - 1 ∧ "data.csv" ≠ EmptyString ∧ is_Some (fs "data.csv") ∧ 0 < 2)
  ∧ (1 ≤ 3 - 1 ∧ "inf.csv" ≠ EmptyString ∧ is_Some (fs "inf.csv") ∧ 0 < 2)
  ∧ t3q4_master fs 3 (Some "inf.csv") 2 (of_Z 10) (of_Z 12)
    = Coordinator.Printed
        (Coordinator.JobResult
           (Coordinator.Message
              "Worker errors: ['[rank 2] cannot convert float infinity to integer']")
           [] [] fzero)
  ∧ t3q4_master fs 3 (Some "data.csv") 2 (of_Z 10) (of_Z 12)
    = Coordinator.Printed
        (Coordinator.JobResult
           (Coordinator.Message
              ("Worker errors: ["
               +:+ String dquote "[rank 1] Column 'BTitle' not found in dataset."
               +:+ String dquote ", "
               +:+ String dquote "[rank 2] Column 'BTitle' not found in dataset."
               +:+ String dquote "]"))
           [] [] fzero).
Proof.
  intros no_title infinite fs.
  assert (H1 : 1 ≤ 3 - 1) by lia.
  assert (H2 : "data.csv" ≠ EmptyString) by discriminate.
  assert (H3 : is_Some (fs "data.csv")) by (by eexists).
  assert (H4 : 0 < 2) by lia.
  assert (H5 : "inf.csv" ≠ EmptyString) by discriminate.
  assert (H6 : is_Some (fs "inf.csv")) by (by eexists).
  split; [exact (conj H1 (conj H2 (conj H3 H4)))|].
  split; [exact (conj H1 (conj H5 (conj H6 H4)))|].
  unfold t3q4_master. split.
  - rewrite (proj1 (proj2 (proj2 (worker_errors_abort_job Q4._work Q4.resolve fs 3 "inf.csv" 2
                                    (of_Z 10) (of_Z 12) H1 H5 H6 H4)))) by (by vm_compute).
    by vm_compute.
  - rewrite (proj1 (proj2 (proj2 (worker_errors_abort_job Q4._work Q4.resolve fs 3 "data.csv" 2
                                    (of_Z 10) (of_Z 12) H1 H2 H3 H4)))) by (by vm_compute).
    by vm_compute.
Defined.

(** ** The eligibility predicates *)


Lemma q2_merged_count (ps : list (gmap string Q2.entry)) (bid : string) (e : Q2.entry) :
  Q2.merge_all ps !! bid = Some e →
  Q2.rcnt e = Partitioner.sum_list ((λ m, default 0 (Q2.rcnt <$> m !! bid)) <$> ps).
Proof.
  intros He.
  assert (H : default Q2.empty_entry (Q2.merge_all ps !! bid)
              = foldl Q2.merge_entry Q2.empty_entry (omap (.!! bid) ps)) by apply merged_default.
  rewrite He in H. simpl in H. subst e.
  rewrite (foldl_image _ Z.add Q2.rcnt Q2.rcnt) by done.
  by rewrite foldl_add_sum_list, fmap_omap_lookup, sum_list_omap.
Qed.

Lemma q2_frame_view (df : dataframe) (part_map : gmap string Q2.entry) (hits : Z)
    (bid : string) :
  Q2.process_frame df = Ok (part_map, hits) →
  let mine := filter (λ r, q2_grouped bid r = true) (rows df) in
  (part_map !! bid = None ↔ mine = [])
  ∧ default 0 (Q2.rcnt <$> part_map !! bid)
    = Z.of_nat (length (filter (λ r, rated r = true) mine))
  ∧ part_map !! bid ≫= Q2.price = last (omap known_price mine).
Proof.
  intros Hp. unfold Q2.process_frame in Hp.
  destruct (check_columns _ df); simpl in Hp; [|done].
  injection Hp as <- _. rewrite lookup_fmap.
  pose proof (q2_merged_frame_spec (rows df) bid) as H. cbv zeta in *.
  destruct (Q2.merged_frame (rows df) !! bid) as [e|]; simpl.
  - destruct H as (Hne & _ & -> & ->). split; [|done]. split; [done|by intros ?].
  - rewrite H. by split.
Qed.

Lemma q2_partition_view (dfs : list dataframe) (part_maps : list (gmap string Q2.entry))
    (bid : string) :
  Forall2 (λ df part_map, ∃ hits, Q2.process_frame df = Ok (part_map, hits)) dfs part_maps →
  let mine := filter (λ r, q2_grouped bid r = true) (concat (rows <$> dfs)) in
  Partitioner.sum_list ((λ m, default 0 (Q2.rcnt <$> m !! bid)) <$> part_maps)
  = Z.of_nat (length (filter (λ r, rated r = true) mine))
  ∧ omap (λ m, m !! bid ≫= Q2.price) part_maps
    = omap (λ df, last (omap known_price (filter (λ r, q2_grouped bid r = true) (rows df)))) dfs
  ∧ (Forall (λ m, m !! bid = None) part_maps ↔ mine = []).
Proof.
  intros Hw. cbv zeta.
  induction Hw as [|df part_map dfs part_maps [hits Hdf] _ IH]; [done|].
  destruct IH as (IH1 & IH2 & IH3).
  destruct (q2_frame_view df part_map hits bid Hdf) as (H1 & H2 & H3). cbv zeta in *.
  rewrite !fmap_cons. simpl concat. rewrite !filter_app, length_app.
  change (omap ?f (part_map :: part_maps))
    with (match f part_map with
          | Some y => y :: omap f part_maps
          | None => omap f part_maps
          end).
  change (omap ?f (df :: dfs))
    with (match f df with Some y => y :: omap f dfs | None => omap f dfs end).
  cbv beta. rewrite H3, IH2. split; [|split; [done|]].
  - unfold Partitioner.sum_list in *. simpl. rewrite IH1, H2. lia.
  - rewrite Forall_cons, H1, IH3. split.
    + by intros [-> ->].
    + intros H. by apply app_eq_nil in H.
Qed.





(** ** The jobs at work *)

(** A small dataset: ["B1"] is rated 5, 5, 5 and ["B2"] 5, 4, both cost 2;
    one record has no rating. *)
Definition review (uid uname bid title : string) (price : Z) (score : cell) : row :=
  Row (Some uid) (Some uname) (Some bid) (Some title) (Num (of_Z price)) score.

Definition six_reviews : dataframe :=
  DataFrame ["UId"; "UName"; "BId"; "BTitle"; "BPrice"; "RScore"]
    [review "U1" "Amy" "B1" "Dune" 2 (Num (of_Z 5));
     review "U2" "Bob" "B2" "Emma" 2 (Num (of_Z 5));
     review "U3" "Cat" "B1" "Dune" 2 (Num (of_Z 5));
     review "U1" "Amy" "B2" "Emma" 2 (Num (of_Z 4));
     review "U2" "Bob" "B1" "Dune" 2 (Num (of_Z 5));
     review "U3" "Cat" "B2" "Emma" 2 Blank].

Definition one_file (df : dataframe) : filesystem :=
  λ path, if bool_decide (path = "reviews.csv") then Some df else None.

(** Two workers and the coordinator: one book has the average 5 and the
    price 2, also when the six records are split one to five. The hits the
    workers count on their own slices are diagnostics only. *)
Example count_of_matches :
  t3q2_master (one_file six_reviews) 3 (Some "reviews.csv") 6 (of_Z 100) (of_Z 103)
  = Coordinator.Printed
      (Coordinator.JobResult (Coordinator.Value 1) [0; 3; 3] [0; 2; 1] (of_Z 3))
  ∧ Q2.resolve [default ∅ (fst <$> match Q2._process_slice (one_file six_reviews) "reviews.csv" 0 1
                                with Ok x => Some x | Raise _ => None end);
                default ∅ (fst <$> match Q2._process_slice (one_file six_reviews) "reviews.csv" 1 6
                                with Ok x => Some x | Raise _ => None end)] = 1.
Proof. by vm_compute. Qed.

(** ["U1"] reviews three books and ["U2"] two, all rated 4: the user with
    the larger set of books wins. *)
Definition five_fours : dataframe :=
  DataFrame ["UId"; "UName"; "BId"; "RScore"]
    [review "U1" "Amy" "b1" "" 0 (Num (of_Z 4));
     review "U2" "Bob" "b4" "" 0 (Num (of_Z 4));
     review "U1" "Amy" "b2" "" 0 (Num (of_Z 4));
     review "U2" "Bob" "b5" "" 0 (Num (of_Z 4));
     review "U1" " Amy " "b3" "" 0 (Num (of_Z 4))].

Example largest_set_wins :
  t3q3_master (one_file five_fours) 3 (Some "reviews.csv") 5 (of_Z 100) (of_Z 103)
  = Coordinator.Printed
      (Coordinator.JobResult (Coordinator.Value "Amy") [0; 2; 3] [0; 2; 2] (of_Z 3)).
Proof. by vm_compute. Qed.

(** Twelve eligible books with twelve prices: the ten dearest, dearest
    first. *)
Definition twelve_books : dataframe :=
  DataFrame ["BId"; "BTitle"; "BPrice"; "RScore"]
    ((λ n : Z, review "U" "" ("B" +:+ str_int n) ("T" +:+ str_int n) (20 + n) (Num (of_Z 3)))
       <$> seqZ 0 12).

Example ten_dearest :
  t3q4_master (one_file twelve_books) 4 (Some "reviews.csv") 12 (of_Z 100) (of_Z 103)
  = Coordinator.Printed
      (Coordinator.JobResult
         (Coordinator.Value
            ((λ n : Z, ("T" +:+ str_int (11 - n), of_Z (31 - n))) <$> seqZ 0 10))
         [0; 4; 4; 4] [0; 4; 4; 4] (of_Z 3)).
Proof. by vm_compute. Qed.

(** Without a worker rank nothing is dispatched. *)
Example no_worker :
  t3q2_master (one_file six_reviews) 1 (Some "reviews.csv") 6 (of_Z 100) (of_Z 103)
  = Coordinator.Printed
      (Coordinator.JobResult
         (Coordinator.Message "Need at least 1 worker (run with -n >= 2)") [] [] fzero).
Proof. by vm_compute. Qed.


(** ["  Amy Lee \n".strip()] is ["Amy Lee"]: the no-break space
    (bytes 194, 160) and the em space (bytes 226, 128, 131) go with the
    blank and the line feed, the blank inside stays. *)
Example strip_unicode :
  let nbsp := String (ascii_of_nat 194) (String (ascii_of_nat 160) EmptyString) in
  let emsp := String (ascii_of_nat 226) (String (ascii_of_nat 128)
                (String (ascii_of_nat 131) EmptyString)) in
  let lf := String (ascii_of_nat 10) EmptyString in
  strip (" " +:+ nbsp +:+ "Amy Lee" +:+ emsp +:+ lf) = "Amy Lee"
  ∧ strip (nbsp +:+ emsp) = EmptyString
  ∧ strip ("a" +:+ String (ascii_of_nat 160) EmptyString)
    = "a" +:+ String (ascii_of_nat 160) EmptyString.
Proof. by vm_compute. Qed.

(** * More of the programs *)

(** ** The slices the ranks read *)

Lemma range_of_le (N W w : Z) :
  0 < N → 1 ≤ W → 0 ≤ w < W →
  0 ≤ (Partitioner.range_of N W w).1 ≤ (Partitioner.range_of N W w).2.
Proof.
  intros HN HW Hw. unfold Partitioner.range_of. simpl.
  assert (Hbase : 0 ≤ N `div` W) by (apply Z.div_pos; lia).
  assert (Hmul : W * (N `div` W) ≤ N) by (apply Z.mul_div_le; lia).
  case_bool_decide; nia.
Qed.

Lemma concat_first_ranges {A : Type} (l : list A) (N W : Z) (k : nat) :
  0 < N → 1 ≤ W → Z.of_nat k ≤ W - 1 →
  concat (rows_of_range l <$> (Partitioner.range_of N W <$> seqZ 0 (Z.of_nat k)))
  = take (k * Z.to_nat (N `div` W)) l.
Proof.
  intros HN HW. assert (Hbase : 0 ≤ N `div` W) by (apply Z.div_pos; lia).
  induction k as [|k IH]; intros Hk; [done|].
  rewrite seqZ_S, Z.add_0_l, !fmap_app, concat_app, IH by lia. simpl.
  rewrite app_nil_r. unfold rows_of_range, Partitioner.range_of. simpl.
  rewrite bool_decide_eq_true_2 by lia.
  replace (Z.to_nat ((Z.of_nat k + 1) * (N `div` W) - Z.of_nat k * (N `div` W)))
    with (Z.to_nat (N `div` W)) by lia.
  replace (Z.to_nat (Z.of_nat k * (N `div` W))) with (k * Z.to_nat (N `div` W))%nat by nia.
  rewrite take_take_drop. f_equal. lia.
Qed.

Lemma concat_ranges {A : Type} (l : list A) (N W : Z) :
  0 < N → 1 ≤ W →
  concat (rows_of_range l <$> Partitioner.ranges N W) = take (Z.to_nat N) l.
Proof.
  intros HN HW. assert (Hbase : 0 ≤ N `div` W) by (apply Z.div_pos; lia).
  assert (Hmul : W * (N `div` W) ≤ N) by (apply Z.mul_div_le; lia).
  unfold Partitioner.ranges.
  replace W with (Z.of_nat (S (Z.to_nat (W - 1)))) at 2 by lia.
  rewrite seqZ_S, Z.add_0_l, !fmap_app, concat_app, concat_first_ranges by lia. simpl.
  rewrite app_nil_r. unfold rows_of_range, Partitioner.range_of. simpl.
  rewrite bool_decide_eq_false_2 by lia.
  replace (Z.to_nat (Z.of_nat (Z.to_nat (W - 1)) * (N `div` W)))
    with (Z.to_nat (W - 1) * Z.to_nat (N `div` W))%nat by nia.
  rewrite take_take_drop. f_equal. nia.
Qed.

Lemma read_csv_range (fs : filesystem) (path : string) (df : dataframe) (range : Z * Z) :
  fs path = Some df → range.1 ≤ range.2 →
  read_csv fs path range.1 (range.2 - range.1)
  = Ok (DataFrame (columns df) (rows_of_range (rows df) range))
  ∧ read_csv fs path range.1 (Z.max 0 (range.2 - range.1))
    = Ok (DataFrame (columns df) (rows_of_range (rows df) range)).
Proof.
  intros Hfs Hle. unfold read_csv. rewrite Hfs.
  rewrite Z.max_r by lia. by rewrite bool_decide_eq_false_2 by lia.
Qed.

Lemma elem_of_ranges (N W : Z) (range : Z * Z) :
  0 < N → 1 ≤ W → range ∈ Partitioner.ranges N W → 0 ≤ range.1 ≤ range.2.
Proof.
  intros HN HW Hin. apply list_elem_of_fmap in Hin as (w & -> & Hw).
  apply elem_of_seqZ in Hw. apply range_of_le; lia.
Qed.


(** ** The merged map is the map of the whole dataset *)

Lemma merge_maps_insert {E P : Type} (empty : E) (merge_entry : E → P → E)
    (g : gmap string E) (m : gmap string P) (k : string) (x : P) :
  merge_maps empty merge_entry g (<[k := x]> m)
  = <[k := merge_entry (default empty (g !! k)) x]> (merge_maps empty merge_entry g m).
Proof.
  apply map_eq. intros j. rewrite lookup_merge_maps.
  destruct (decide (j = k)) as [->|Hne].
  - by rewrite !lookup_insert_eq.
  - rewrite !lookup_insert_ne by done. by rewrite lookup_merge_maps.
Qed.

Lemma foldlM_app {A B : Type} (f : A → B → result A) (a : A) (l1 l2 : list B) :
  foldlM f a (l1 ++ l2) = (a' ←! foldlM f a l1; foldlM f a' l2).
Proof.
  revert a. induction l1 as [|b l1 IH]; intros a; simpl; [done|].
  destruct (f a b); simpl; [apply IH|done].
Qed.

Lemma counter_update_empty_r (c : gmap string Z) : counter_update c ∅ = c.
Proof. by rewrite counter_update_comm, counter_update_empty_l. Qed.

Lemma counter_incr_update (s : string) (c d : gmap string Z) :
  counter_incr s (counter_update c d) = counter_update c (counter_incr s d).
Proof.
  apply map_eq. intros k. unfold counter_incr.
  destruct (decide (k = s)) as [->|Hne].
  - rewrite lookup_insert_eq, !lookup_counter_update, lookup_insert_eq.
    destruct (c !! s), (d !! s); simpl; f_equal; lia.
  - rewrite lookup_insert_ne, !lookup_counter_update, lookup_insert_ne by done. done.
Qed.

Lemma q3_count_label_update (label : option string) (c d : gmap string Z) :
  Q3.count_label label (counter_update c d) = counter_update c (Q3.count_label label d).
Proof.
  unfold Q3.count_label. destruct label as [name|]; [|done].
  case_bool_decide; [done|]. apply counter_incr_update.
Qed.

Lemma q4_count_label_update (label : option string) (c d : gmap string Z) :
  Q4.count_label label (counter_update c d) = counter_update c (Q4.count_label label d).
Proof.
  unfold Q4.count_label. destruct label as [name|]; [|done].
  case_bool_decide; [done|]. apply counter_incr_update.
Qed.

Lemma q3_merge_default (g local : gmap string Q3.info) (uid : string) :
  default Q3.empty_info (Q3.merge_partial g (Q3.to_payload <$> local) !! uid)
  = Q3.merge_info (default Q3.empty_info (g !! uid))
      (Q3.to_payload (default Q3.empty_info (local !! uid))).
Proof.
  unfold Q3.merge_partial. rewrite lookup_merge_maps, lookup_fmap.
  destruct (local !! uid) as [u|]; simpl; [done|].
  destruct (default Q3.empty_info (g !! uid)) as [s c b n]. unfold Q3.merge_info. simpl.
  rewrite counter_update_empty_r, elements_empty. simpl.
  f_equal; [lia|lia|set_solver].
Qed.

(** A record counted into the local map of a worker and the map merged, or
    the map merged and the record counted into the global map: the same. *)
Lemma q3_step_merge (g local local' : gmap string Q3.info) (r : row) :
  Q3.step local r = Ok local' →
  Q3.step (Q3.merge_partial g (Q3.to_payload <$> local)) r
  = Ok (Q3.merge_partial g (Q3.to_payload <$> local')).
Proof.
  unfold Q3.step. destruct (is_nan _); [by intros [= <-]|].
  destruct (UId r) as [uid|]; [|by intros [= <-]].
  destruct (BId r) as [bid|]; [|by intros [= <-]].
  destruct (int_of_float _) as [n|]; [|done]. intros [= <-].
  rewrite q3_merge_default, fmap_insert. unfold Q3.merge_partial at 2.
  rewrite merge_maps_insert. do 2 f_equal.
  destruct (default Q3.empty_info (g !! uid)) as [s c b nc].
  destruct (default Q3.empty_info (local !! uid)) as [s' c' b' nc'].
  unfold Q3.merge_info, Q3.to_payload. simpl.
  rewrite q3_count_label_update, !list_to_set_elements_L.
  f_equal; [lia|lia|set_solver].
Qed.

Lemma q3_aggregate_onto (g : gmap string Q3.info) (rs : list row) (local : gmap string Q3.info) :
  Q3.aggregate rs = Ok local →
  foldlM Q3.step g rs = Ok (Q3.merge_partial g (Q3.to_payload <$> local)).
Proof.
  unfold Q3.aggregate. revert local. induction rs as [|r rs IH] using rev_ind; intros local.
  - intros [= <-]. simpl. f_equal. apply map_eq. intros k.
    unfold Q3.merge_partial. rewrite lookup_merge_maps, fmap_empty, lookup_empty. done.
  - rewrite !foldlM_snoc. destruct (foldlM Q3.step ∅ rs) as [local0|]; simpl; [|done].
    intros Hstep. rewrite (IH local0 eq_refl). simpl. by apply q3_step_merge.
Qed.

Lemma q3_merged_is_aggregate (dfs : list dataframe)
    (payloads : list (gmap string Q3.payload_info)) (g : gmap string Q3.info) :
  Forall2 (λ df payload, ∃ n, Q3.work_frame df = Ok (payload, n)) dfs payloads →
  foldlM Q3.step g (concat (rows <$> dfs)) = Ok (foldl Q3.merge_partial g payloads).
Proof.
  intros Hw. revert g. induction Hw as [|df payload dfs payloads [n Hdf] _ IH]; intros g; [done|].
  rewrite fmap_cons. simpl. rewrite foldlM_app.
  unfold Q3.work_frame in Hdf. destruct (check_columns _ df); simpl in Hdf; [|done].
  destruct (Q3.aggregate (rows df)) as [local|] eqn:E; simpl in Hdf; [|done].
  injection Hdf as <- _. rewrite (q3_aggregate_onto g _ _ E). simpl. apply IH.
Qed.

Lemma q4_merge_default (g local : gmap string Q4.info) (bid : string) :
  default Q4.empty_info (Q4.merge_partial g local !! bid)
  = Q4.merge_info (default Q4.empty_info (g !! bid)) (default Q4.empty_info (local !! bid)).
Proof.
  unfold Q4.merge_partial. rewrite lookup_merge_maps.
  destruct (local !! bid) as [u|]; simpl; [done|].
  destruct (default Q4.empty_info (g !! bid)) as [s c p n]. unfold Q4.merge_info. simpl.
  rewrite counter_update_empty_r. f_equal; [lia|lia|by destruct p].
Qed.

Lemma q4_step_merge (g local local' : gmap string Q4.info) (r : row) :
  Q4.step local r = Ok local' →
  Q4.step (Q4.merge_partial g local) r = Ok (Q4.merge_partial g local').
Proof.
  unfold Q4.step. destruct (is_nan (to_numeric (RScore r))); [by intros [= <-]|].
  destruct (BId r) as [bid|]; [|by intros [= <-]].
  destruct (int_of_float _) as [n|]; [|done]. intros [= <-].
  rewrite q4_merge_default. unfold Q4.merge_partial at 2.
  rewrite merge_maps_insert. do 2 f_equal.
  destruct (default Q4.empty_info (g !! bid)) as [s c p nc].
  destruct (default Q4.empty_info (local !! bid)) as [s' c' p' nc'].
  unfold Q4.merge_info. simpl. rewrite q4_count_label_update.
  f_equal; [lia|lia|by destruct p, p'].
Qed.

Lemma q4_aggregate_onto (g : gmap string Q4.info) (rs : list row) (local : gmap string Q4.info) :
  Q4.aggregate rs = Ok local →
  foldlM Q4.step g rs = Ok (Q4.merge_partial g local).
Proof.
  unfold Q4.aggregate. revert local. induction rs as [|r rs IH] using rev_ind; intros local.
  - intros [= <-]. simpl. f_equal. apply map_eq. intros k.
    unfold Q4.merge_partial. by rewrite lookup_merge_maps, lookup_empty.
  - rewrite !foldlM_snoc. destruct (foldlM Q4.step ∅ rs) as [local0|]; simpl; [|done].
    intros Hstep. rewrite (IH local0 eq_refl). simpl. by apply q4_step_merge.
Qed.

Lemma q4_merged_is_aggregate (dfs : list dataframe)
    (payloads : list (gmap string Q4.info)) (g : gmap string Q4.info) :
  Forall2 (λ df payload, ∃ n, Q4.work_frame df = Ok (payload, n)) dfs payloads →
  foldlM Q4.step g (concat (rows <$> dfs)) = Ok (foldl Q4.merge_partial g payloads).
Proof.
  intros Hw. revert g. induction Hw as [|df payload dfs payloads [n Hdf] _ IH]; intros g; [done|].
  rewrite fmap_cons. simpl. rewrite foldlM_app.
  unfold Q4.work_frame in Hdf. destruct (check_columns _ df); simpl in Hdf; [|done].
  destruct (Q4.aggregate (rows df)) as [local|] eqn:E; simpl in Hdf; [|done].
  injection Hdf as <- _. rewrite (q4_aggregate_onto g _ _ E). simpl. apply IH.
Qed.

(** X2. Q3: when the workers' [_work] succeed on their frames, the map the
    coordinator merges from their payloads is the map one [_work] loop
    builds from the records of all the frames, in order: sums, counts,
    sets of books and name counters. So the answer resolved from the
    payloads is the answer resolved from the whole, whatever the split. *)
Theorem q3_distributed_is_sequential (dfs : list dataframe)
    (payloads : list (gmap string Q3.payload_info)) :
  Forall2 (λ df payload, ∃ n, Q3.work_frame df = Ok (payload, n)) dfs payloads →
  Q3.aggregate (concat (rows <$> dfs)) = Ok (Q3.merge_all payloads)
  ∧ ∀ cols whole n,
      Q3.work_frame (DataFrame cols (concat (rows <$> dfs))) = Ok (whole, n) →
      Q3.resolve payloads = Q3.resolve [whole].
Proof.
  intros Hw. pose proof (q3_merged_is_aggregate dfs payloads ∅ Hw) as Hall.
  split; [exact Hall|]. intros cols whole n Hwhole.
  unfold Q3.work_frame in Hwhole. destruct (check_columns _ _); simpl in Hwhole; [|done].
  fold (Q3.aggregate (concat (rows <$> dfs))) in Hall. rewrite Hall in Hwhole.
  simpl in Hwhole. injection Hwhole as <- _.
  pose proof (q3_aggregate_onto ∅ _ _ Hall) as Hone.
  fold (Q3.aggregate (concat (rows <$> dfs))) in Hone. rewrite Hall in Hone.
  injection Hone as Hone. unfold Q3.resolve, Q3.merge_all at 2. simpl. by rewrite <- Hone.
Qed.

(** X3. Q4: the same for the per-book map, with the first price met in the
    order of the records and the title counters. *)
Theorem q4_distributed_is_sequential (dfs : list dataframe)
    (payloads : list (gmap string Q4.info)) :
  Forall2 (λ df payload, ∃ n, Q4.work_frame df = Ok (payload, n)) dfs payloads →
  Q4.aggregate (concat (rows <$> dfs)) = Ok (Q4.merge_all payloads)
  ∧ ∀ cols whole n,
      Q4.work_frame (DataFrame cols (concat (rows <$> dfs))) = Ok (whole, n) →
      Q4.resolve payloads = Q4.resolve [whole].
Proof.
  intros Hw. pose proof (q4_merged_is_aggregate dfs payloads ∅ Hw) as Hall.
  split; [exact Hall|]. intros cols whole n Hwhole.
  unfold Q4.work_frame in Hwhole. destruct (check_columns _ _); simpl in Hwhole; [|done].
  fold (Q4.aggregate (concat (rows <$> dfs))) in Hall. rewrite Hall in Hwhole.
  simpl in Hwhole. injection Hwhole as <- _.
  pose proof (q4_aggregate_onto ∅ _ _ Hall) as Hone.
  fold (Q4.aggregate (concat (rows <$> dfs))) in Hone. rewrite Hall in Hone.
  injection Hone as Hone. unfold Q4.resolve, Q4.merge_all at 2. simpl. by rewrite <- Hone.
Qed.

Lemma q3_distributed_is_sequential_witness :
  let df1 := DataFrame (columns five_fours) (take 2 (rows five_fours)) in
  let df2 := DataFrame (columns five_fours) (drop 2 (rows five_fours)) in
  let payload_of df :=
    match Q3.work_frame df with Ok (payload, _) => payload | Raise _ => ∅ end in
  Forall2 (λ df payload, ∃ n, Q3.work_frame df = Ok (payload, n))
    [df1; df2] [payload_of df1; payload_of df2]
  ∧ Q3.aggregate (rows five_fours) = Ok (Q3.merge_all [payload_of df1; payload_of df2]).
Proof.
  intros df1 df2 payload_of.
  assert (H : Forall2 (λ df payload, ∃ n, Q3.work_frame df = Ok (payload, n))
                [df1; df2] [payload_of df1; payload_of df2]).
  { constructor; [exists 2; by vm_compute|].
    constructor; [exists 2; by vm_compute|]. constructor. }
  split; [exact H|].
  exact (proj1 (q3_distributed_is_sequential [df1; df2] _ H)).
Defined.

Lemma q4_distributed_is_sequential_witness :
  let df1 := DataFrame (columns twelve_books) (take 5 (rows twelve_books)) in
  let df2 := DataFrame (columns twelve_books) (drop 5 (rows twelve_books)) in
  let payload_of df :=
    match Q4.work_frame df with Ok (payload, _) => payload | Raise _ => ∅ end in
  Forall2 (λ df payload, ∃ n, Q4.work_frame df = Ok (payload, n))
    [df1; df2] [payload_of df1; payload_of df2]
  ∧ Q4.aggregate (rows twelve_books) = Ok (Q4.merge_all [payload_of df1; payload_of df2]).
Proof.
  intros df1 df2 payload_of.
  assert (H : Forall2 (λ df payload, ∃ n, Q4.work_frame df = Ok (payload, n))
                [df1; df2] [payload_of df1; payload_of df2]).
  { constructor; [exists 5; by vm_compute|].
    constructor; [exists 7; by vm_compute|]. constructor. }
  split; [exact H|].
  exact (proj1 (q4_distributed_is_sequential [df1; df2] _ H)).
Defined.

(** ** The errors of the workers *)

Lemma check_columns_spec (required : list string) (df : dataframe) :
  match check_columns required df with
  | Ok _ => Forall (λ c, c ∈ columns df) required
  | Raise msg =>
      ∃ c, first_missing required df c ∧ msg = "Column '" +:+ c +:+ "' not found in dataset."
  end.
Proof.
  unfold check_columns.
  induction required as [|c required IH]; [by constructor|].
  rewrite filter_cons. destruct (decide (c ∉ columns df)) as [Hc|Hc].
  - exists c. split; [|done]. exists [], required. by repeat split.
  - apply dec_stable in Hc. destruct (filter _ required) as [|c' rest].
    + by constructor.
    + destruct IH as (c0 & (before & after & -> & Hb & Hc0) & ->).
      exists c0. split; [|done]. exists (c :: before), after.
      repeat split; [|done]. by constructor.
Qed.

Lemma foldlM_raises {A B : Type} (f : A → B → result A) (bad : B → bool) (msg : string) :
  (∀ a b, bad b = true → f a b = Raise msg) →
  (∀ a b, bad b = false → ∃ a', f a b = Ok a') →
  ∀ l a, match foldlM f a l with
         | Ok _ => Forall (λ b, bad b = false) l
         | Raise m => m = msg ∧ Exists (λ b, bad b = true) l
         end.
Proof.
  intros Hbad Hgood. induction l as [|b l IH]; intros a; simpl; [by constructor|].
  destruct (bad b) eqn:Hb.
  - rewrite (Hbad a b Hb). simpl. split; [done|]. by left.
  - destruct (Hgood a b Hb) as [a' ->]. simpl. specialize (IH a').
    destruct (foldlM f a' l).
    + by constructor.
    + destruct IH as [-> IH]. split; [done|]. by right.
Qed.

Lemma int_of_float_None (f : float64) :
  int_of_float f = None ↔ is_nan f = true ∨ is_inf f = true.
Proof. destruct f; simpl; naive_solver. Qed.

Lemma q3_step_overflows (local : gmap string Q3.info) (r : row) :
  if q3_overflows r then Q3.step local r = Raise "cannot convert float infinity to integer"
  else ∃ local', Q3.step local r = Ok local'.
Proof.
  unfold q3_overflows, Q3.step, rating.
  destruct (to_numeric (RScore r)) as [s|s| |s m e]; simpl; try by eauto.
  - destruct (UId r), (BId r); simpl; eauto; done.
  - destruct (UId r), (BId r); simpl; eauto.
  - destruct (UId r), (BId r); simpl; eauto.
Qed.

Lemma q4_step_overflows (local : gmap string Q4.info) (r : row) :
  if q4_overflows r then Q4.step local r = Raise "cannot convert float infinity to integer"
  else ∃ local', Q4.step local r = Ok local'.
Proof.
  unfold q4_overflows, Q4.step, rating.
  destruct (to_numeric (RScore r)) as [s|s| |s m e]; simpl; try by eauto.
  - destruct (BId r); simpl; eauto; done.
  - destruct (BId r); simpl; eauto.
  - destruct (BId r); simpl; eauto.
Qed.

Lemma q3_aggregate_raises (rs : list row) :
  match Q3.aggregate rs with
  | Ok _ => Forall (λ r, q3_overflows r = false) rs
  | Raise m => m = "cannot convert float infinity to integer"
               ∧ Exists (λ r, q3_overflows r = true) rs
  end.
Proof.
  apply foldlM_raises.
  - intros a b Hb. pose proof (q3_step_overflows a b) as H. by rewrite Hb in H.
  - intros a b Hb. pose proof (q3_step_overflows a b) as H. by rewrite Hb in H.
Qed.

Lemma q4_aggregate_raises (rs : list row) :
  match Q4.aggregate rs with
  | Ok _ => Forall (λ r, q4_overflows r = false) rs
  | Raise m => m = "cannot convert float infinity to integer"
               ∧ Exists (λ r, q4_overflows r = true) rs
  end.
Proof.
  apply foldlM_raises.
  - intros a b Hb. pose proof (q4_step_overflows a b) as H. by rewrite Hb in H.
  - intros a b Hb. pose proof (q4_step_overflows a b) as H. by rewrite Hb in H.
Qed.

Lemma q3_work_frame_raises (df : dataframe) :
  match Q3.work_frame df with
  | Ok (payload, users_seen) =>
      Forall (λ c, c ∈ columns df) ["UId"; "UName"; "BId"; "RScore"]
      ∧ Forall (λ r, q3_overflows r = false) (rows df)
      ∧ users_seen = Z.of_nat (size payload)
  | Raise msg =>
      (∃ c, first_missing ["UId"; "UName"; "BId"; "RScore"] df c
            ∧ msg = "Column '" +:+ c +:+ "' not found in dataset.")
      ∨ (Forall (λ c, c ∈ columns df) ["UId"; "UName"; "BId"; "RScore"]
         ∧ Exists (λ r, q3_overflows r = true) (rows df)
         ∧ msg = "cannot convert float infinity to integer")
  end.
Proof.
  unfold Q3.work_frame.
  pose proof (check_columns_spec ["UId"; "UName"; "BId"; "RScore"] df) as Hc.
  destruct (check_columns _ df); simpl; [|by left].
  pose proof (q3_aggregate_raises (rows df)) as Ha.
  destruct (Q3.aggregate (rows df)) as [local|msg]; simpl.
  - split; [done|]. split; [done|]. by rewrite map_size_fmap.
  - right. by destruct Ha as [-> Ha].
Qed.

Lemma q4_work_frame_raises (df : dataframe) :
  match Q4.work_frame df with
  | Ok (payload, seen_books) =>
      Forall (λ c, c ∈ columns df) ["BId"; "BTitle"; "BPrice"; "RScore"]
      ∧ Forall (λ r, q4_overflows r = false) (rows df)
      ∧ seen_books = Z.of_nat (size payload)
  | Raise msg =>
      (∃ c, first_missing ["BId"; "BTitle"; "BPrice"; "RScore"] df c
            ∧ msg = "Column '" +:+ c +:+ "' not found in dataset.")
      ∨ (Forall (λ c, c ∈ columns df) ["BId"; "BTitle"; "BPrice"; "RScore"]
         ∧ Exists (λ r, q4_overflows r = true) (rows df)
         ∧ msg = "cannot convert float infinity to integer")
  end.
Proof.
  unfold Q4.work_frame.
  pose proof (check_columns_spec ["BId"; "BTitle"; "BPrice"; "RScore"] df) as Hc.
  destruct (check_columns _ df); simpl; [|by left].
  pose proof (q4_aggregate_raises (rows df)) as Ha.
  destruct (Q4.aggregate (rows df)) as [local|msg]; simpl.
  - done.
  - right. by destruct Ha as [-> Ha].
Qed.

(** X4. [_work] of Q3 raises what [pd.read_csv] raises on its slice. Once
    the read has returned the frame, it raises in two cases only. A
    required column is missing: the message names the first one missing,
    in the order [UId], [UName], [BId], [RScore], whatever the records
    hold. Or the columns are there and a record with both ids has an
    infinite rating: [int(r)] raises. Otherwise it returns, and the
    diagnostic count is the number of users of its payload. *)
Theorem q3_work_raises_exactly (fs : filesystem) (path : string) (lo hi : Z) :
  (∀ msg, read_csv fs path lo (Z.max 0 (hi - lo)) = Raise msg →
          Q3._work fs path lo hi = Raise msg)
  ∧ (∀ df, read_csv fs path lo (Z.max 0 (hi - lo)) = Ok df →
       match Q3._work fs path lo hi with
       | Ok (payload, users_seen) =>
           Forall (λ c, c ∈ columns df) ["UId"; "UName"; "BId"; "RScore"]
           ∧ Forall (λ r, q3_overflows r = false) (rows df)
           ∧ users_seen = Z.of_nat (size payload)
       | Raise msg =>
           (∃ c, first_missing ["UId"; "UName"; "BId"; "RScore"] df c
                 ∧ msg = "Column '" +:+ c +:+ "' not found in dataset.")
           ∨ (Forall (λ c, c ∈ columns df) ["UId"; "UName"; "BId"; "RScore"]
              ∧ Exists (λ r, q3_overflows r = true) (rows df)
              ∧ msg = "cannot convert float infinity to integer")
       end).
Proof.
  unfold Q3._work. split.
  - by intros msg ->.
  - intros df ->. simpl. apply q3_work_frame_raises.
Qed.

(** X5. [_work] of Q4 likewise, with the columns [BId], [BTitle],
    [BPrice], [RScore] and the records that have a book id. *)
Theorem q4_work_raises_exactly (fs : filesystem) (path : string) (lo hi : Z) :
  (∀ msg, read_csv fs path lo (Z.max 0 (hi - lo)) = Raise msg →
          Q4._work fs path lo hi = Raise msg)
  ∧ (∀ df, read_csv fs path lo (Z.max 0 (hi - lo)) = Ok df →
       match Q4._work fs path lo hi with
       | Ok (payload, seen_books) =>
           Forall (λ c, c ∈ columns df) ["BId"; "BTitle"; "BPrice"; "RScore"]
           ∧ Forall (λ r, q4_overflows r = false) (rows df)
           ∧ seen_books = Z.of_nat (size payload)
       | Raise msg =>
           (∃ c, first_missing ["BId"; "BTitle"; "BPrice"; "RScore"] df c
                 ∧ msg = "Column '" +:+ c +:+ "' not found in dataset.")
           ∨ (Forall (λ c, c ∈ columns df) ["BId"; "BTitle"; "BPrice"; "RScore"]
              ∧ Exists (λ r, q4_overflows r = true) (rows df)
              ∧ msg = "cannot convert float infinity to integer")
       end).
Proof.
  unfold Q4._work. split.
  - by intros msg ->.
  - intros df ->. simpl. apply q4_work_frame_raises.
Qed.

Lemma q3_work_raises_exactly_witness :
  let df := DataFrame ["UId"; "BId"; "RScore"]
              [Row (Some "U1") None (Some "B1") None Blank (Num (of_Z 4));
               Row (Some "U2") None (Some "B2") None Blank (Num (S754_infinity false))] in
  let fs := one_file df in
  (read_csv fs "reviews.csv" 0 (Z.max 0 (2 - 0)) = Ok df
   ∧ read_csv fs "review.csv" 0 (Z.max 0 (2 - 0))
     = Raise "[Errno 2] No such file or directory: 'review.csv'")
  ∧ Q3._work fs "review.csv" 0 2 = Raise "[Errno 2] No such file or directory: 'review.csv'"
  ∧ Q3._work fs "reviews.csv" 0 2 = Raise "Column 'UName' not found in dataset."
  ∧ match Q3._work fs "reviews.csv" 0 2 with
    | Ok _ => False
    | Raise msg =>
        (∃ c, first_missing ["UId"; "UName"; "BId"; "RScore"] df c
              ∧ msg = "Column '" +:+ c +:+ "' not found in dataset.")
        ∨ (Forall (λ c, c ∈ columns df) ["UId"; "UName"; "BId"; "RScore"]
           ∧ Exists (λ r, q3_overflows r = true) (rows df)
           ∧ msg = "cannot convert float infinity to integer")
    end.
Proof.
  intros df fs.
  assert (H1 : read_csv fs "reviews.csv" 0 (Z.max 0 (2 - 0)) = Ok df) by reflexivity.
  assert (H2 : read_csv fs "review.csv" 0 (Z.max 0 (2 - 0))
               = Raise "[Errno 2] No such file or directory: 'review.csv'") by reflexivity.
  assert (H3 : Q3._work fs "reviews.csv" 0 2 = Raise "Column 'UName' not found in dataset.")
    by reflexivity.
  split; [exact (conj H1 H2)|].
  split; [exact (proj1 (q3_work_raises_exactly fs "review.csv" 0 2) _ H2)|].
  split; [exact H3|].
  pose proof (proj2 (q3_work_raises_exactly fs "reviews.csv" 0 2) df H1) as H.
  rewrite H3 in H |- *. exact H.
Defined.

Lemma q4_work_raises_exactly_witness :
  let df := DataFrame ["BId"; "BTitle"; "BPrice"; "RScore"]
              [Row None None (Some "B1") (Some "T1") (Num (of_Z 2)) (Num (of_Z 3));
               Row None None (Some "B2") (Some "T2") (Num (of_Z 5)) (Num (S754_infinity false))] in
  let fs := one_file df in
  read_csv fs "reviews.csv" 0 (Z.max 0 (2 - 0)) = Ok df
  ∧ Q4._work fs "reviews.csv" 0 2 = Raise "cannot convert float infinity to integer"
  ∧ match Q4._work fs "reviews.csv" 0 2 with
    | Ok _ => False
    | Raise msg =>
        (∃ c, first_missing ["BId"; "BTitle"; "BPrice"; "RScore"] df c
              ∧ msg = "Column '" +:+ c +:+ "' not found in dataset.")
        ∨ (Forall (λ c, c ∈ columns df) ["BId"; "BTitle"; "BPrice"; "RScore"]
           ∧ Exists (λ r, q4_overflows r = true) (rows df)
           ∧ msg = "cannot convert float infinity to integer")
    end.
Proof.
  intros df fs.
  assert (H1 : read_csv fs "reviews.csv" 0 (Z.max 0 (2 - 0)) = Ok df) by reflexivity.
  assert (H3 : Q4._work fs "reviews.csv" 0 2 = Raise "cannot convert float infinity to integer")
    by reflexivity.
  split; [exact H1|]. split; [exact H3|].
  pose proof (proj2 (q4_work_raises_exactly fs "reviews.csv" 0 2) df H1) as H.
  rewrite H3 in H |- *. exact H.
Defined.

(** ** The Coordination Protocol, from dispatch to the printed result *)

Lemma omap_ext_in {A B : Type} (f g : A → option B) (l : list A) :
  (∀ x, x ∈ l → f x = g x) → omap f l = omap g l.
Proof.
  induction l as [|x l IH]; intros H; [done|].
  change (omap f (x :: l)) with (match f x with Some y => y :: omap f l | None => omap f l end).
  change (omap g (x :: l)) with (match g x with Some y => y :: omap g l | None => omap g l end).
  rewrite (H x) by left. rewrite IH; [done|]. intros y Hy. apply H. by right.
Qed.

Lemma omap_Forall2 {A B : Type} (f : A → option B) (l : list A) (k : list B) :
  Forall2 (λ x y, f x = Some y) l k → omap f l = k.
Proof.
  induction 1 as [|x y l k Hxy _ IH]; [done|].
  change (omap f (x :: l)) with (match f x with Some y => y :: omap f l | None => omap f l end).
  by rewrite Hxy, IH.
Qed.

(** What is found rank by rank is what is found range by range. *)
Lemma omap_ranks_ranges {B : Type} (f : Z * Z → option B) (N W : Z) :
  omap (λ r, Partitioner.ranges N W !! Z.to_nat (r - 1) ≫= f) (seqZ 1 W)
  = omap f (Partitioner.ranges N W).
Proof.
  unfold Partitioner.ranges at 2. rewrite omap_fmap.
  change (seqZ 1 W) with (seqZ (1 + 0) W).
  rewrite <- (fmap_add_seqZ 1 0 W), omap_fmap. apply omap_ext_in.
  intros w Hw. apply elem_of_seqZ in Hw.
  replace (Z.to_nat (1 + w - 1)) with (Z.to_nat w) by lia.
  assert (H : Partitioner.ranges N W !! Z.to_nat w = Some (Partitioner.range_of N W w)).
  { apply lookup_ranges. split; [lia|]. f_equal. lia. }
  by rewrite H.
Qed.

Section coordinator_success.

Import Coordinator.

Context {Payload Answer : Type}.
Context (work : filesystem → string → Z → Z → result (Payload * Z)).
Context (resolve : list Payload → Answer).

(** With a valid configuration the job prints the failure with the errors
    of the workers, or the resolution of their results. *)
Lemma job_printed (fs : filesystem) (size : Z) (path : string) (DATASET_SIZE : Z)
    (t0 t1 : float64) :
  1 ≤ size - 1 → path ≠ EmptyString → is_Some (fs path) → 0 < DATASET_SIZE →
  let errors := omap (raised work fs path DATASET_SIZE (size - 1)) (seqZ 1 (size - 1)) in
  let results := omap (answered work fs path DATASET_SIZE (size - 1)) (seqZ 1 (size - 1)) in
  job work resolve fs size (Some path) DATASET_SIZE t0 t1
  = Printed (match errors with
             | [] => JobResult (Value (resolve results.*1))
                       (0 :: Partitioner.sizes (Partitioner.ranges DATASET_SIZE (size - 1)))
                       (0 :: results.*2) (fsub t1 t0)
             | _ :: _ => failure ("Worker errors: " +:+ repr_list errors)
             end).
Proof.
  intros Hw Hp Hfs Hn errors results. unfold job, master.
  rewrite bool_decide_eq_false_2 by lia.
  rewrite (bool_decide_eq_false_2 (path = EmptyString)) by done.
  rewrite (bool_decide_eq_true_2 (is_Some (fs path))) by done.
  rewrite (bool_decide_eq_false_2 (DATASET_SIZE ≤ 0)) by lia.
  simpl. unfold gather. rewrite gather_loop.
  2:{ intros r Hr. apply elem_of_seqZ in Hr. unfold inbox_of, worker_main.
      destruct (Partitioner.ranges _ _ !! _) as [[lo hi]|] eqn:E.
      - simpl. by destruct (work fs path lo hi) as [[? ?]|].
      - apply lookup_ge_None in E. rewrite length_ranges in E. lia. }
  simpl.
  set (inbox := inbox_of path DATASET_SIZE (Partitioner.ranges DATASET_SIZE (size - 1))
                  (λ (_ : Z) (a : assignment), worker_main work fs a)).
  assert (He : omap (reported_error inbox) (seqZ 1 (size - 1)) = errors).
  { apply omap_ext. intros r. unfold reported_error, inbox, inbox_of, raised, worker_main.
    destruct (Partitioner.ranges _ _ !! _) as [[lo hi]|]; [|done]. simpl.
    by destruct (work fs path lo hi) as [[? ?]|]. }
  assert (Hr : omap (reported_result inbox) (seqZ 1 (size - 1)) = results).
  { apply omap_ext. intros r. unfold reported_result, inbox, inbox_of, answered, worker_main.
    destruct (Partitioner.ranges _ _ !! _) as [[lo hi]|]; [|done]. simpl.
    by destruct (work fs path lo hi) as [[? ?]|]. }
  rewrite He, Hr. by destruct errors.
Qed.

Lemma job_all_answered (fs : filesystem) (path : string) (N W : Z)
    (results : list (Payload * Z)) :
  Forall2 (λ range res, work fs path range.1 range.2 = Ok res)
          (Partitioner.ranges N W) results →
  omap (raised work fs path N W) (seqZ 1 W) = []
  ∧ omap (answered work fs path N W) (seqZ 1 W) = results.
Proof.
  intros Hall.
  assert (He : omap (raised work fs path N W) (seqZ 1 W)
               = omap (λ r, Partitioner.ranges N W !! Z.to_nat (r - 1)
                            ≫= λ range, match work fs path range.1 range.2 with
                                        | Raise e => Some e
                                        | Ok _ => None
                                        end
                            ≫= λ e, Some (tagged r e)) (seqZ 1 W)).
  { apply omap_ext. intros r. unfold raised.
    destruct (Partitioner.ranges N W !! _) as [[lo hi]|]; [|done]. simpl.
    by destruct (work fs path lo hi). }
  assert (Hr : omap (answered work fs path N W) (seqZ 1 W)
               = omap (λ r, Partitioner.ranges N W !! Z.to_nat (r - 1)
                            ≫= λ range, match work fs path range.1 range.2 with
                                        | Ok x => Some x
                                        | Raise _ => None
                                        end) (seqZ 1 W)).
  { apply omap_ext. intros r. unfold answered.
    by destruct (Partitioner.ranges N W !! _) as [[lo hi]|]. }
  rewrite Hr, omap_ranks_ranges. split.
  - rewrite He. apply elem_of_nil_inv. intros e Hin.
    apply list_elem_of_omap in Hin as (r & _ & Hin).
    destruct (Partitioner.ranges N W !! _) as [range|] eqn:E; [|done]. simpl in Hin.
    destruct (Forall2_lookup_l _ _ _ _ _ Hall E) as (res & _ & Hres).
    by rewrite Hres in Hin.
  - apply omap_Forall2. eapply Forall2_impl; [exact Hall|].
    intros range res Hres. simpl in Hres. by rewrite Hres.
Qed.

Lemma job_none_lost (fs : filesystem) (path : string) (N W : Z) :
  omap (raised work fs path N W) (seqZ 1 W) = [] →
  length (omap (answered work fs path N W) (seqZ 1 W)) = Z.to_nat W.
Proof.
  intros He. rewrite <- (length_seqZ 1 W).
  assert (Hin : ∀ r, r ∈ seqZ 1 W → is_Some (Partitioner.ranges N W !! Z.to_nat (r - 1))).
  { intros r Hr. apply elem_of_seqZ in Hr. apply lookup_lt_is_Some.
    rewrite length_ranges. lia. }
  revert He Hin. generalize (seqZ 1 W). intros ranks.
  induction ranks as [|r ranks IH]; [done|].
  change (omap ?f (r :: ranks))
    with (match f r with Some y => y :: omap f ranks | None => omap f ranks end).
  cbv beta. intros He Hin. destruct (Hin r) as [[lo hi] Hr]; [left|].
  unfold raised at 1 in He. unfold answered at 1. rewrite Hr in *.
  destruct (work fs path lo hi); [|done]. simpl. f_equal. apply IH; [done|].
  intros r' Hr'. apply Hin. by right.
Qed.

(** X6. Whatever the configuration, the files and the number of ranks, rank
    0 of a master-only job ([t3q2_master.py], [t3q3_master.py],
    [t3q4_master.py]) prints one dictionary: every worker answers with a
    result or an error, so the gather loop never waits for ever. The
    dictionary is a failure, with a message, two empty lists and the time
    zero, or it carries an answer: then both lists have one entry per rank,
    the first of each is the [0] of rank 0, and the chunk sizes sum to
    [DATASET_SIZE]. *)
Theorem job_always_prints (fs : filesystem) (size : Z) (DATA_PATH : option string)
    (DATASET_SIZE : Z) (t0 t1 : float64) :
  ∃ d, job work resolve fs size DATA_PATH DATASET_SIZE t0 t1 = Printed d
       ∧ ((∃ msg, d = failure msg)
          ∨ ((∃ a, final_answer d = Value a)
             ∧ length (chunkSizePerThread d) = Z.to_nat size
             ∧ length (answerPerThread d) = Z.to_nat size
             ∧ head (chunkSizePerThread d) = Some 0
             ∧ head (answerPerThread d) = Some 0
             ∧ Partitioner.sum_list (chunkSizePerThread d) = DATASET_SIZE)).
Proof.
  destruct (decide (size - 1 < 1)) as [Hw|Hw].
  { eexists. split; [|left; by eexists]. unfold job, master.
    by rewrite bool_decide_eq_true_2 by done. }
  destruct DATA_PATH as [path|].
  2:{ eexists. split; [|left; by eexists]. unfold job, master.
      by rewrite bool_decide_eq_false_2 by done. }
  destruct (decide (path = EmptyString)) as [Hp|Hp].
  { eexists. split; [|left; by eexists]. unfold job, master.
    rewrite bool_decide_eq_false_2 by done.
    by rewrite (bool_decide_eq_true_2 (path = EmptyString)) by done. }
  destruct (decide (is_Some (fs path))) as [Hfs|Hfs].
  2:{ eexists. split; [|left; by eexists]. unfold job, master.
      rewrite bool_decide_eq_false_2 by done.
      rewrite (bool_decide_eq_false_2 (path = EmptyString)) by done.
      by rewrite (bool_decide_eq_false_2 (is_Some (fs path))) by done. }
  destruct (decide (DATASET_SIZE ≤ 0)) as [Hn|Hn].
  { eexists. split; [|left; by eexists]. unfold job, master.
    rewrite bool_decide_eq_false_2 by done.
    rewrite (bool_decide_eq_false_2 (path = EmptyString)) by done.
    rewrite (bool_decide_eq_true_2 (is_Some (fs path))) by done.
    by rewrite (bool_decide_eq_true_2 (DATASET_SIZE ≤ 0)) by done. }
  eexists. split; [apply job_printed; (done || lia)|].
  destruct (omap (raised _ _ _ _ _) _) as [|e errors] eqn:He; [right|left; by eexists].
  simpl. split; [by eexists|].
  rewrite length_fmap, (job_none_lost _ _ _ _ He).
  unfold Partitioner.sizes at 1. rewrite length_fmap, length_ranges.
  split; [lia|]. split; [lia|]. split; [done|]. split; [done|].
  rewrite sizes_ranges by lia.
  change (0 + Partitioner.sum_list (Partitioner.chunks DATASET_SIZE (size - 1)) = DATASET_SIZE).
  rewrite sum_chunks by lia. done.
Qed.

(** X7. With a valid configuration and every worker's method returning on
    its range, the job prints the resolution of the workers' payloads, in
    rank order, the chunk sizes [0] for rank 0 and then those of the
    Partitioner, the diagnostic counts [0] and then those of the workers,
    and the time between the two readings of the clock. *)
Theorem job_resolves_the_payloads (fs : filesystem) (size : Z) (path : string)
    (DATASET_SIZE : Z) (t0 t1 : float64) (results : list (Payload * Z)) :
  1 ≤ size - 1 → path ≠ EmptyString → is_Some (fs path) → 0 < DATASET_SIZE →
  Forall2 (λ range res, work fs path range.1 range.2 = Ok res)
          (Partitioner.ranges DATASET_SIZE (size - 1)) results →
  job work resolve fs size (Some path) DATASET_SIZE t0 t1
  = Printed (JobResult (Value (resolve results.*1))
               (0 :: Partitioner.chunks DATASET_SIZE (size - 1))
               (0 :: results.*2) (fsub t1 t0)).
Proof.
  intros Hw Hp Hfs Hn Hall. rewrite job_printed by done.
  destruct (job_all_answered fs path DATASET_SIZE (size - 1) results Hall) as [-> ->].
  by rewrite sizes_ranges by lia.
Qed.

End coordinator_success.

Lemma job_resolves_the_payloads_witness :
  let fs := one_file six_reviews in
  let result_of (range : Z * Z) :=
    match Q2._process_slice fs "reviews.csv" range.1 range.2 with
    | Ok x => x
    | Raise _ => (∅, 0)
    end in
  let results := [result_of (0, 3); result_of (3, 6)] in
  (1 ≤ 3 - 1 ∧ "reviews.csv" ≠ EmptyString ∧ is_Some (fs "reviews.csv") ∧ 0 < 6)
  ∧ Forall2 (λ range res, Q2._process_slice fs "reviews.csv" range.1 range.2 = Ok res)
            (Partitioner.ranges 6 (3 - 1)) results
  ∧ t3q2_master fs 3 (Some "reviews.csv") 6 (of_Z 100) (of_Z 103)
    = Coordinator.Printed
        (Coordinator.JobResult (Coordinator.Value (Q2.resolve results.*1))
           (0 :: Partitioner.chunks 6 (3 - 1)) (0 :: results.*2)
           (fsub (of_Z 103) (of_Z 100))).
Proof.
  intros fs result_of results.
  assert (H1 : 1 ≤ 3 - 1) by lia.
  assert (H2 : "reviews.csv" ≠ EmptyString) by discriminate.
  assert (H3 : is_Some (fs "reviews.csv")) by (by eexists).
  assert (H4 : 0 < 6) by lia.
  assert (H5 : Forall2 (λ range res, Q2._process_slice fs "reviews.csv" range.1 range.2 = Ok res)
                 (Partitioner.ranges 6 (3 - 1)) results).
  { change (Partitioner.ranges 6 (3 - 1)) with [(0, 3); (3, 6)].
    constructor; [by vm_compute|]. constructor; [by vm_compute|]. constructor. }
  split; [exact (conj H1 (conj H2 (conj H3 H4)))|]. split; [exact H5|].
  exact (job_resolves_the_payloads Q2._process_slice Q2.resolve fs 3 "reviews.csv" 6
           (of_Z 100) (of_Z 103) results H1 H2 H3 H4 H5).
Defined.

(** ** The job and the dataset as a whole *)

Lemma check_columns_ok (required : list string) (df : dataframe) :
  Forall (λ c, c ∈ columns df) required → check_columns required df = Ok tt.
Proof.
  intros Hall. pose proof (check_columns_spec required df) as H.
  destruct (check_columns required df) as [[]|msg]; [done|].
  destruct H as (c & (before & after & -> & _ & Hc) & _).
  apply Forall_app in Hall as [_ Hall]. apply Forall_cons in Hall as [Hin _]. done.
Qed.

Lemma elem_of_concat {A : Type} (x : A) (ls : list (list A)) :
  x ∈ concat ls ↔ ∃ l, x ∈ l ∧ l ∈ ls.
Proof.
  induction ls as [|l ls IH]; simpl.
  - split; [by intros ?%elem_of_nil|]. by intros (l & _ & ?%elem_of_nil).
  - rewrite elem_of_app, IH. split.
    + intros [Hx|(l' & Hx & Hl')].
      * exists l. split; [done|]. apply elem_of_cons. by left.
      * exists l'. split; [done|]. apply elem_of_cons. by right.
    + intros (l' & Hx & Hl'). apply elem_of_cons in Hl' as [->|Hl']; [by left|].
      right. by exists l'.
Qed.

Lemma rows_of_range_subseteq {A : Type} (l : list A) (N W : Z) (range : Z * Z) (x : A) :
  0 < N → 1 ≤ W → range ∈ Partitioner.ranges N W →
  x ∈ rows_of_range l range → x ∈ take (Z.to_nat N) l.
Proof.
  intros HN HW Hrange Hx. rewrite <- (concat_ranges l N W) by done.
  apply elem_of_concat. exists (rows_of_range l range). split; [done|].
  apply list_elem_of_fmap. by exists range.
Qed.

Lemma q3_work_on_ranges (fs : filesystem) (path : string) (df : dataframe) (N W : Z)
    (local : gmap string Q3.info) :
  fs path = Some df → 0 < N → 1 ≤ W →
  Forall (λ c, c ∈ columns df) ["UId"; "UName"; "BId"; "RScore"] →
  Q3.aggregate (take (Z.to_nat N) (rows df)) = Ok local →
  ∃ results,
    Forall2 (λ range res, Q3._work fs path range.1 range.2 = Ok res)
            (Partitioner.ranges N W) results
    ∧ Q3.merge_all results.*1 = local.
Proof.
  intros Hfs HN HW Hcols Hlocal.
  set (frame := λ range : Z * Z, DataFrame (columns df) (rows_of_range (rows df) range)).
  assert (Hwork : ∀ range, range ∈ Partitioner.ranges N W →
            ∃ res, Q3._work fs path range.1 range.2 = Ok res
                   ∧ Q3.work_frame (frame range) = Ok res).
  { intros range Hrange. unfold Q3._work.
    destruct (read_csv_range fs path df range Hfs) as [_ ->];
      [by apply (elem_of_ranges N W)|]. simpl bind. fold (frame range).
    unfold Q3.work_frame. rewrite check_columns_ok by done. simpl bind.
    pose proof (q3_aggregate_raises (rows_of_range (rows df) range)) as H.
    change (rows (frame range)) with (rows_of_range (rows df) range).
    destruct (Q3.aggregate (rows_of_range (rows df) range)) as [res|msg]; [by eexists|].
    exfalso. destruct H as [_ Hex].
    pose proof (q3_aggregate_raises (take (Z.to_nat N) (rows df))) as Hwhole.
    rewrite Hlocal in Hwhole. apply Exists_exists in Hex as (r & Hr & Hbad).
    rewrite Forall_forall in Hwhole.
    rewrite (Hwhole r) in Hbad; [done|]. by eapply rows_of_range_subseteq. }
  set (result_of := λ range : Z * Z,
         match Q3._work fs path range.1 range.2 with Ok x => x | Raise _ => (∅, 0) end).
  exists (result_of <$> Partitioner.ranges N W). split.
  - apply Forall2_fmap_r, Forall_Forall2_diag, Forall_forall. intros range Hrange.
    destruct (Hwork range Hrange) as (res & Hres & _). unfold result_of, compose.
    by rewrite Hres.
  - assert (Hagg : Q3.aggregate (concat (rows <$> (frame <$> Partitioner.ranges N W)))
                   = Ok (Q3.merge_all (result_of <$> Partitioner.ranges N W).*1)).
    { apply (q3_merged_is_aggregate _ _ ∅).
      apply Forall2_fmap_l, Forall2_fmap_r, Forall2_fmap_r, Forall_Forall2_diag, Forall_forall.
      intros range Hrange. destruct (Hwork range Hrange) as ([payload n] & Hres & Hframe).
      exists n. unfold result_of, compose. rewrite Hres. exact Hframe. }
    rewrite <- list_fmap_compose in Hagg.
    change (rows ∘ frame) with (rows_of_range (rows df)) in Hagg.
    rewrite concat_ranges in Hagg by done. congruence.
Qed.

Lemma q4_work_on_ranges (fs : filesystem) (path : string) (df : dataframe) (N W : Z)
    (local : gmap string Q4.info) :
  fs path = Some df → 0 < N → 1 ≤ W →
  Forall (λ c, c ∈ columns df) ["BId"; "BTitle"; "BPrice"; "RScore"] →
  Q4.aggregate (take (Z.to_nat N) (rows df)) = Ok local →
  ∃ results,
    Forall2 (λ range res, Q4._work fs path range.1 range.2 = Ok res)
            (Partitioner.ranges N W) results
    ∧ Q4.merge_all results.*1 = local.
Proof.
  intros Hfs HN HW Hcols Hlocal.
  set (frame := λ range : Z * Z, DataFrame (columns df) (rows_of_range (rows df) range)).
  assert (Hwork : ∀ range, range ∈ Partitioner.ranges N W →
            ∃ res, Q4._work fs path range.1 range.2 = Ok res
                   ∧ Q4.work_frame (frame range) = Ok res).
  { intros range Hrange. unfold Q4._work.
    destruct (read_csv_range fs path df range Hfs) as [_ ->];
      [by apply (elem_of_ranges N W)|]. simpl bind. fold (frame range).
    unfold Q4.work_frame. rewrite check_columns_ok by done. simpl bind.
    pose proof (q4_aggregate_raises (rows_of_range (rows df) range)) as H.
    change (rows (frame range)) with (rows_of_range (rows df) range).
    destruct (Q4.aggregate (rows_of_range (rows df) range)) as [res|msg]; [by eexists|].
    exfalso. destruct H as [_ Hex].
    pose proof (q4_aggregate_raises (take (Z.to_nat N) (rows df))) as Hwhole.
    rewrite Hlocal in Hwhole. apply Exists_exists in Hex as (r & Hr & Hbad).
    rewrite Forall_forall in Hwhole.
    rewrite (Hwhole r) in Hbad; [done|]. by eapply rows_of_range_subseteq. }
  set (result_of := λ range : Z * Z,
         match Q4._work fs path range.1 range.2 with Ok x => x | Raise _ => (∅, 0) end).
  exists (result_of <$> Partitioner.ranges N W). split.
  - apply Forall2_fmap_r, Forall_Forall2_diag, Forall_forall. intros range Hrange.
    destruct (Hwork range Hrange) as (res & Hres & _). unfold result_of, compose.
    by rewrite Hres.
  - assert (Hagg : Q4.aggregate (concat (rows <$> (frame <$> Partitioner.ranges N W)))
                   = Ok (Q4.merge_all (result_of <$> Partitioner.ranges N W).*1)).
    { apply (q4_merged_is_aggregate _ _ ∅).
      apply Forall2_fmap_l, Forall2_fmap_r, Forall2_fmap_r, Forall_Forall2_diag, Forall_forall.
      intros range Hrange. destruct (Hwork range Hrange) as ([payload n] & Hres & Hframe).
      exists n. unfold result_of, compose. rewrite Hres. exact Hframe. }
    rewrite <- list_fmap_compose in Hagg.
    change (rows ∘ frame) with (rows_of_range (rows df)) in Hagg.
    rewrite concat_ranges in Hagg by done. congruence.
Qed.

(** X8. The job of [t3q3_master.py] on a dataset with the required columns
    whose first [DATASET_SIZE] records one [_work] loop can aggregate: with
    any number of workers, it prints the answer resolved from the map of
    that one loop over these records, and the chunk sizes of the
    Partitioner after the [0] of rank 0. The split changes the diagnostic
    counts only. *)
Theorem t3q3_master_is_sequential (fs : filesystem) (size : Z) (path : string)
    (df : dataframe) (DATASET_SIZE : Z) (t0 t1 : float64) (local : gmap string Q3.info) :
  1 ≤ size - 1 → path ≠ EmptyString → fs path = Some df → 0 < DATASET_SIZE →
  Forall (λ c, c ∈ columns df) ["UId"; "UName"; "BId"; "RScore"] →
  Q3.aggregate (take (Z.to_nat DATASET_SIZE) (rows df)) = Ok local →
  ∃ users_seen,
    t3q3_master fs size (Some path) DATASET_SIZE t0 t1
    = Coordinator.Printed
        (Coordinator.JobResult (Coordinator.Value (Q3.final_answer local))
           (0 :: Partitioner.chunks DATASET_SIZE (size - 1)) (0 :: users_seen)
           (fsub t1 t0))
    ∧ length users_seen = Z.to_nat (size - 1).
Proof.
  intros Hw Hp Hfs Hn Hcols Hlocal.
  destruct (q3_work_on_ranges fs path df DATASET_SIZE (size - 1) local)
    as (results & Hall & Hmerged); [done..|].
  exists results.*2. split.
  - unfold t3q3_master. rewrite job_printed by (done || by eexists).
    destruct (job_all_answered Q3._work fs path DATASET_SIZE (size - 1) results Hall)
      as [-> ->].
    rewrite sizes_ranges by lia. unfold Q3.resolve. by rewrite Hmerged.
  - rewrite length_fmap, <- (Forall2_length _ _ _ Hall). apply length_ranges.
Qed.

(** X9. The same for the job of [t3q4_master.py]. *)
Theorem t3q4_master_is_sequential (fs : filesystem) (size : Z) (path : string)
    (df : dataframe) (DATASET_SIZE : Z) (t0 t1 : float64) (local : gmap string Q4.info) :
  1 ≤ size - 1 → path ≠ EmptyString → fs path = Some df → 0 < DATASET_SIZE →
  Forall (λ c, c ∈ columns df) ["BId"; "BTitle"; "BPrice"; "RScore"] →
  Q4.aggregate (take (Z.to_nat DATASET_SIZE) (rows df)) = Ok local →
  ∃ seen_books,
    t3q4_master fs size (Some path) DATASET_SIZE t0 t1
    = Coordinator.Printed
        (Coordinator.JobResult (Coordinator.Value (Q4.final_answer local))
           (0 :: Partitioner.chunks DATASET_SIZE (size - 1)) (0 :: seen_books)
           (fsub t1 t0))
    ∧ length seen_books = Z.to_nat (size - 1).
Proof.
  intros Hw Hp Hfs Hn Hcols Hlocal.
  destruct (q4_work_on_ranges fs path df DATASET_SIZE (size - 1) local)
    as (results & Hall & Hmerged); [done..|].
  exists results.*2. split.
  - unfold t3q4_master. rewrite job_printed by (done || by eexists).
    destruct (job_all_answered Q4._work fs path DATASET_SIZE (size - 1) results Hall)
      as [-> ->].
    rewrite sizes_ranges by lia. unfold Q4.resolve. by rewrite Hmerged.
  - rewrite length_fmap, <- (Forall2_length _ _ _ Hall). apply length_ranges.
Qed.

Lemma t3q3_master_is_sequential_witness :
  let fs := one_file five_fours in
  let local := match Q3.aggregate (rows five_fours) with Ok l => l | Raise _ => ∅ end in
  (1 ≤ 4 - 1 ∧ "reviews.csv" ≠ EmptyString ∧ fs "reviews.csv" = Some five_fours ∧ 0 < 5
   ∧ Forall (λ c, c ∈ columns five_fours) ["UId"; "UName"; "BId"; "RScore"]
   ∧ Q3.aggregate (take (Z.to_nat 5) (rows five_fours)) = Ok local)
  ∧ ∃ users_seen,
      t3q3_master fs 4 (Some "reviews.csv") 5 (of_Z 100) (of_Z 103)
      = Coordinator.Printed
          (Coordinator.JobResult (Coordinator.Value (Q3.final_answer local))
             (0 :: Partitioner.chunks 5 (4 - 1)) (0 :: users_seen)
             (fsub (of_Z 103) (of_Z 100)))
      ∧ length users_seen = Z.to_nat (4 - 1).
Proof.
  intros fs local.
  assert (H1 : 1 ≤ 4 - 1) by lia.
  assert (H2 : "reviews.csv" ≠ EmptyString) by discriminate.
  assert (H3 : fs "reviews.csv" = Some five_fours) by reflexivity.
  assert (H4 : 0 < 5) by lia.
  assert (H5 : Forall (λ c, c ∈ columns five_fours) ["UId"; "UName"; "BId"; "RScore"]).
  { repeat constructor. }
  assert (H6 : Q3.aggregate (take (Z.to_nat 5) (rows five_fours)) = Ok local)
    by (by vm_compute).
  split; [exact (conj H1 (conj H2 (conj H3 (conj H4 (conj H5 H6)))))|].
  exact (t3q3_master_is_sequential fs 4 "reviews.csv" five_fours 5 (of_Z 100) (of_Z 103)
           local H1 H2 H3 H4 H5 H6).
Defined.

Lemma t3q4_master_is_sequential_witness :
  let fs := one_file twelve_books in
  let local := match Q4.aggregate (rows twelve_books) with Ok l => l | Raise _ => ∅ end in
  (1 ≤ 6 - 1 ∧ "reviews.csv" ≠ EmptyString ∧ fs "reviews.csv" = Some twelve_books ∧ 0 < 12
   ∧ Forall (λ c, c ∈ columns twelve_books) ["BId"; "BTitle"; "BPrice"; "RScore"]
   ∧ Q4.aggregate (take (Z.to_nat 12) (rows twelve_books)) = Ok local)
  ∧ ∃ seen_books,
      t3q4_master fs 6 (Some "reviews.csv") 12 (of_Z 100) (of_Z 103)
      = Coordinator.Printed
          (Coordinator.JobResult (Coordinator.Value (Q4.final_answer local))
             (0 :: Partitioner.chunks 12 (6 - 1)) (0 :: seen_books)
             (fsub (of_Z 103) (of_Z 100)))
      ∧ length seen_books = Z.to_nat (6 - 1).
Proof.
  intros fs local.
  assert (H1 : 1 ≤ 6 - 1) by lia.
  assert (H2 : "reviews.csv" ≠ EmptyString) by discriminate.
  assert (H3 : fs "reviews.csv" = Some twelve_books) by reflexivity.
  assert (H4 : 0 < 12) by lia.
  assert (H5 : Forall (λ c, c ∈ columns twelve_books) ["BId"; "BTitle"; "BPrice"; "RScore"]).
  { repeat constructor. }
  assert (H6 : Q4.aggregate (take (Z.to_nat 12) (rows twelve_books)) = Ok local)
    by (by vm_compute).
  split; [exact (conj H1 (conj H2 (conj H3 (conj H4 (conj H5 H6)))))|].
  exact (t3q4_master_is_sequential fs 6 "reviews.csv" twelve_books 12 (of_Z 100) (of_Z 103)
           local H1 H2 H3 H4 H5 H6).
Defined.

(** ** The first coordinator, [t3_master_only.py] *)

Lemma recv_loop_blocked (inbox : Z → list (gmap string Q2.entry * Z)) (ranks : list Z) :
  foldl (MasterOnly.recv_step inbox) None ranks = None.
Proof. by induction ranks. Qed.

Lemma recv_loop (inbox : Z → list (gmap string Q2.entry * Z)) (ranks : list Z)
    (s : list (gmap string Q2.entry) * list Z) :
  foldl (MasterOnly.recv_step inbox) (Some s) ranks
  = if bool_decide (Forall (λ r, inbox r ≠ []) ranks)
    then Some (s.1 ++ (omap (λ r, head (inbox r)) ranks).*1,
               s.2 ++ (omap (λ r, head (inbox r)) ranks).*2)
    else None.
Proof.
  revert s. induction ranks as [|r ranks IH]; intros [maps counts].
  - rewrite bool_decide_eq_true_2 by constructor. simpl. by rewrite !app_nil_r.
  - change (foldl (MasterOnly.recv_step inbox) (Some (maps, counts)) (r :: ranks))
      with (foldl (MasterOnly.recv_step inbox)
              (MasterOnly.recv_step inbox (Some (maps, counts)) r) ranks).
    change (omap ?f (r :: ranks))
      with (match f r with Some y => y :: omap f ranks | None => omap f ranks end).
    cbv beta. unfold MasterOnly.recv_step at 2. simpl.
    destruct (inbox r) as [|[part_map local_hits] rest] eqn:E.
    + rewrite recv_loop_blocked. rewrite bool_decide_eq_false_2; [done|].
      intros H. apply Forall_cons in H as [H _]. done.
    + rewrite IH. simpl. destruct (decide (Forall (λ r, inbox r ≠ []) ranks)) as [H|H].
      * rewrite !bool_decide_eq_true_2; [|constructor; [by rewrite E|done]|done].
        by rewrite <- !app_assoc.
      * rewrite !bool_decide_eq_false_2; [done| |done].
        intros H'. apply Forall_cons in H' as [_ H']. done.
Qed.

(** The ranks that answer, range by range. *)
Lemma first_coordinator_inboxes (fs : filesystem) (path : string) (N W : Z) :
  let inbox := MasterOnly.inbox_of (Partitioner.ranges N W)
                 (λ _ range, MasterOnly.worker_main fs path range) in
  (Forall (λ r, inbox r ≠ []) (seqZ 1 W)
   ↔ Forall (λ range, ∃ res, Q2._process_slice fs path range.1 range.2 = Ok res)
            (Partitioner.ranges N W))
  ∧ omap (λ r, head (inbox r)) (seqZ 1 W)
    = omap (λ range, match Q2._process_slice fs path range.1 range.2 with
                     | Ok res => Some res
                     | Raise _ => None
                     end) (Partitioner.ranges N W).
Proof.
  intros inbox.
  assert (Hin : ∀ r, inbox r
                     = match Partitioner.ranges N W !! Z.to_nat (r - 1) with
                       | Some range => MasterOnly.worker_main fs path range
                       | None => []
                       end) by done.
  split.
  - rewrite !Forall_forall. split.
    + intros H range Hrange. apply list_elem_of_lookup in Hrange as [i Hi].
      assert (Hlt : (i < Z.to_nat W)%nat).
      { rewrite <- (length_ranges N W). by eapply lookup_lt_Some. }
      specialize (H (Z.of_nat i + 1)). rewrite Hin in H.
      replace (Z.to_nat (Z.of_nat i + 1 - 1)) with i in H by lia. rewrite Hi in H.
      unfold MasterOnly.worker_main in H.
      destruct (Q2._process_slice fs path range.1 range.2) as [res|]; [by exists res|].
      exfalso. apply H; [|done]. apply elem_of_seqZ. lia.
    + intros H r Hr. apply elem_of_seqZ in Hr. rewrite Hin.
      destruct (Partitioner.ranges N W !! Z.to_nat (r - 1)) as [range|] eqn:E.
      * destruct (H range) as [[part_map local_hits] Hres]; [by eapply list_elem_of_lookup_2|].
        unfold MasterOnly.worker_main. by rewrite Hres.
      * apply lookup_ge_None in E. rewrite length_ranges in E. lia.
  - rewrite <- omap_ranks_ranges. apply omap_ext. intros r. rewrite Hin.
    destruct (Partitioner.ranges N W !! Z.to_nat (r - 1)) as [range|]; [|done]. simpl.
    unfold MasterOnly.worker_main.
    by destruct (Q2._process_slice fs path range.1 range.2) as [[? ?]|].
Qed.

(** X10. [t3_master_only.py] has no error channel and does not look for
    the file. With a path, a positive size and at least one worker: when
    [_process_slice] raises on the range of some worker (the file is
    missing, a column is missing), that worker sends nothing and rank 0
    waits in [comm.recv] for ever, printing nothing. When every worker
    returns, rank 0 prints the count taken over the merged map with the
    quotient [s / c], with the chunk sizes and the diagnostic counts after
    the [0] of rank 0; or the text of the [OverflowError] of the
    quotient. *)
Theorem first_coordinator_waits_for_a_failed_worker (fs : filesystem) (size : Z)
    (path : string) (DATASET_SIZE : Z) (t0 t1 : float64) :
  path ≠ EmptyString → 0 < DATASET_SIZE → 1 ≤ size - 1 →
  let ranges := Partitioner.ranges DATASET_SIZE (size - 1) in
  (Exists (λ range, ∃ msg, Q2._process_slice fs path range.1 range.2 = Raise msg) ranges →
   MasterOnly.main fs size (Some path) DATASET_SIZE t0 t1 = Coordinator.Blocked)
  ∧ (fs path = None →
     MasterOnly.main fs size (Some path) DATASET_SIZE t0 t1 = Coordinator.Blocked)
  ∧ (∀ results,
       Forall2 (λ range res, Q2._process_slice fs path range.1 range.2 = Ok res)
               ranges results →
       MasterOnly.main fs size (Some path) DATASET_SIZE t0 t1
       = Coordinator.Printed
           match Q2.final_count_avg (Q2.merge_all results.*1) with
           | Ok final =>
               Coordinator.JobResult (Coordinator.Value final)
                 (0 :: Partitioner.chunks DATASET_SIZE (size - 1)) (0 :: results.*2)
                 (fsub t1 t0)
           | Raise err => Coordinator.failure err
           end).
Proof.
  intros Hp Hn Hw ranges.
  assert (Hmain : MasterOnly.main fs size (Some path) DATASET_SIZE t0 t1
            = match foldl (MasterOnly.recv_step
                             (MasterOnly.inbox_of ranges
                                (λ _ range, MasterOnly.worker_main fs path range)))
                          (Some ([], [])) (seqZ 1 (size - 1)) with
              | None => Coordinator.Blocked
              | Some (partial_maps, local_counts) =>
                  match Q2.final_count_avg (Q2.merge_all partial_maps) with
                  | Raise err => Coordinator.Printed (Coordinator.failure err)
                  | Ok final =>
                      Coordinator.Printed
                        (Coordinator.JobResult (Coordinator.Value final)
                           (0 :: Partitioner.sizes ranges) (0 :: local_counts) (fsub t1 t0))
                  end
              end).
  { unfold MasterOnly.main, MasterOnly.master.
    rewrite (bool_decide_eq_false_2 (path = EmptyString)) by done.
    rewrite (bool_decide_eq_false_2 (DATASET_SIZE ≤ 0)) by lia.
    rewrite (bool_decide_eq_false_2 (size - 1 < 1)) by lia. done. }
  destruct (first_coordinator_inboxes fs path DATASET_SIZE (size - 1)) as [Hall Hres].
  fold ranges in Hall, Hres.
  assert (Hblocked : Exists (λ range, ∃ msg, Q2._process_slice fs path range.1 range.2 = Raise msg)
                       ranges →
                     MasterOnly.main fs size (Some path) DATASET_SIZE t0 t1 = Coordinator.Blocked).
  { intros Hex. rewrite Hmain, recv_loop. rewrite bool_decide_eq_false_2; [done|].
    intros H. apply Hall in H. apply Exists_exists in Hex as (range & Hrange & msg & Hmsg).
    rewrite Forall_forall in H. destruct (H range Hrange) as [res Hres']. congruence. }
  split; [exact Hblocked|]. split.
  - intros Hfs. apply Hblocked. apply Exists_exists.
    exists (Partitioner.range_of DATASET_SIZE (size - 1) 0). split.
    + apply list_elem_of_fmap. exists 0. split; [done|]. apply elem_of_seqZ. lia.
    + unfold Q2._process_slice, read_csv. rewrite Hfs. by eexists.
  - intros results Hok. rewrite Hmain, recv_loop. rewrite bool_decide_eq_true_2.
    2:{ apply Hall. apply Forall_forall. intros range Hrange.
        apply list_elem_of_lookup in Hrange as [i Hi].
        destruct (Forall2_lookup_l _ _ _ _ _ Hok Hi) as (res & _ & Hres'). by exists res. }
    rewrite Hres. simpl.
    rewrite (omap_Forall2 _ ranges results).
    2:{ eapply Forall2_impl; [exact Hok|]. intros range res H. simpl in H. by rewrite H. }
    unfold ranges. rewrite sizes_ranges by lia.
    by destruct (Q2.final_count_avg _).
Qed.

Lemma first_coordinator_waits_for_a_failed_worker_witness :
  let fs := one_file six_reviews in
  ("review.csv" ≠ EmptyString ∧ 0 < 6 ∧ 1 ≤ 3 - 1 ∧ fs "review.csv" = None)
  ∧ MasterOnly.main fs 3 (Some "review.csv") 6 (of_Z 100) (of_Z 103) = Coordinator.Blocked.
Proof.
  intros fs.
  assert (H1 : "review.csv" ≠ EmptyString) by discriminate.
  assert (H2 : 0 < 6) by lia.
  assert (H3 : 1 ≤ 3 - 1) by lia.
  assert (H4 : fs "review.csv" = None) by reflexivity.
  split; [exact (conj H1 (conj H2 (conj H3 H4)))|].
  exact (proj1 (proj2 (first_coordinator_waits_for_a_failed_worker fs 3 "review.csv" 6
                          (of_Z 100) (of_Z 103) H1 H2 H3)) H4).
Defined.

(** ** The participating runs *)

Lemma gather_all_Some {A : Type} (sent : list (result A)) (values : list A) :
  Forall2 (λ s x, s = Ok x) sent values → Participating.gather_all sent = Some values.
Proof.
  intros H. apply mapM_Some. eapply Forall2_impl; [exact H|].
  intros s x ->. done.
Qed.

Lemma gather_all_None {A : Type} (sent : list (result A)) :
  Exists (λ s, ∃ msg, s = Raise msg) sent → Participating.gather_all sent = None.
Proof.
  intros H. apply mapM_None. eapply Exists_impl; [exact H|].
  by intros s [msg ->].
Qed.

(** X11. [run] of [t3.py] with a path, seen from rank 0. When the slice of
    rank 0 itself raises, rank 0 prints the text of the exception as the
    final answer, with two empty lists. When rank 0 has its slice and the
    slice of another rank raises, that rank leaves the [try] block without
    calling [comm.gather], and rank 0 waits in the gather for ever,
    printing nothing. When every rank returns, rank 0 prints the count
    taken with the quotient [s / c] over the merge of the maps in rank
    order (or the text of the [OverflowError] of the quotient), one
    diagnostic count per rank, and chunk sizes that sum to the size of the
    dataset. *)
Theorem t3_run_outcomes (fs : filesystem) (size : Z) (path : string) (total : Z)
    (t0 t1 : float64) :
  path ≠ EmptyString → 1 ≤ size →
  let slice := Participating.slice fs path total size in
  let run := Participating.t3_run fs size (Some path) total t0 t1 in
  (∀ err, slice 0 = Raise err → run = Coordinator.Printed (Coordinator.failure err))
  ∧ (∀ res, slice 0 = Ok res →
       Exists (λ rank, ∃ msg, slice rank = Raise msg) (seqZ 1 (size - 1)) →
       run = Coordinator.Blocked)
  ∧ (∀ results,
       Forall2 (λ rank res, slice rank = Ok res) (seqZ 0 size) results →
       run = Coordinator.Printed
               match Q2.final_count_avg (Q2.merge_all results.*1) with
               | Ok final =>
                   Coordinator.JobResult (Coordinator.Value final)
                     (Partitioner.chunks total size) results.*2 (fsub t1 t0)
               | Raise err => Coordinator.failure err
               end
       ∧ length results.*2 = Z.to_nat size
       ∧ Partitioner.sum_list (Partitioner.chunks total size) = total).
Proof.
  intros Hp Hsize slice run.
  assert (Hrun : run = match slice 0 with
                       | Raise err => Coordinator.Printed (Coordinator.failure err)
                       | Ok (part_map, local_hits) =>
                           match Participating.gather_all (slice <$> seqZ 1 (size - 1)) with
                           | None => Coordinator.Blocked
                           | Some others =>
                               match Q2.final_count_avg
                                       (Q2.merge_all (part_map :: others.*1)) with
                               | Raise err => Coordinator.Printed (Coordinator.failure err)
                               | Ok final =>
                                   Coordinator.Printed
                                     (Coordinator.JobResult (Coordinator.Value final)
                                        (Partitioner.chunks total size)
                                        (local_hits :: others.*2) (fsub t1 t0))
                               end
                           end
                       end).
  { unfold run, Participating.t3_run.
    by rewrite (bool_decide_eq_false_2 (path = EmptyString)) by done. }
  split; [|split].
  - intros err Herr. by rewrite Hrun, Herr.
  - intros [part_map local_hits] Hres Hex. rewrite Hrun, Hres.
    rewrite gather_all_None; [done|]. apply Exists_fmap.
    eapply Exists_impl; [exact Hex|]. done.
  - intros results Hall. rewrite seqZ_cons in Hall by lia.
    destruct results as [|[part_map local_hits] others]; [by inversion Hall|].
    apply Forall2_cons in Hall as [Hres Hall]. split; [|split].
    + rewrite Hrun, Hres.
      rewrite (gather_all_Some _ others).
      2:{ apply Forall2_fmap_l. exact Hall. }
      rewrite !fmap_cons. simpl. by destruct (Q2.final_count_avg _).
    + rewrite length_fmap. simpl. rewrite <- (Forall2_length _ _ _ Hall), length_seqZ. lia.
    + by apply sum_chunks.
Qed.

Lemma t3_run_outcomes_witness :
  let fs := one_file six_reviews in
  ("reviews.csv" ≠ EmptyString ∧ 1 ≤ 2)
  ∧ Participating.slice fs "reviews.csv" 7 2 0
    = Ok ({[ "B1" := Q2.Entry (of_Z 10) 2 (Some (of_Z 2));
             "B2" := Q2.Entry (of_Z 5) 1 (Some (of_Z 2)) ]}, 2)
  ∧ Participating.t3_run fs 2 (Some "reviews.csv") 7 (of_Z 100) (of_Z 103)
    = Coordinator.Printed
        (Coordinator.JobResult (Coordinator.Value 1) [3; 4] [2; 1] (of_Z 3)).
Proof.
  intros fs.
  assert (H1 : "reviews.csv" ≠ EmptyString) by discriminate.
  assert (H2 : 1 ≤ 2) by lia.
  split; [exact (conj H1 H2)|]. split; [by vm_compute|].
  pose proof (proj2 (proj2 (t3_run_outcomes fs 2 "reviews.csv" 7 (of_Z 100) (of_Z 103) H1 H2))) as H.
  cbv zeta in H.
  assert (H3 : Forall2 (λ rank res, Participating.slice fs "reviews.csv" 7 2 rank = Ok res)
                 (seqZ 0 2)
                 [match Participating.slice fs "reviews.csv" 7 2 0 with
                  | Ok x => x | Raise _ => (∅, 0) end;
                  match Participating.slice fs "reviews.csv" 7 2 1 with
                  | Ok x => x | Raise _ => (∅, 0) end]).
  { change (seqZ 0 2) with [0; 1].
    constructor; [by vm_compute|]. constructor; [by vm_compute|]. constructor. }
  destruct (H _ H3) as [Hrun _]. rewrite Hrun. by vm_compute.
Defined.

Lemma contributions_of (sent : list (result (gmap string Q2.entry * Z))) :
  (Participating.contribution <$> sent).*1.*1 = merged_map <$> sent
  ∧ (Participating.contribution <$> sent).*1.*2 = reported_hits <$> sent
  ∧ filter (λ e, e ≠ EmptyString) (Participating.contribution <$> sent).*2
    = filter (λ e, e ≠ EmptyString) (omap raised_text sent).
Proof.
  induction sent as [|s sent (IH1 & IH2 & IH3)]; [done|].
  change (omap raised_text (s :: sent))
    with (match raised_text s with
          | Some y => y :: omap raised_text sent
          | None => omap raised_text sent
          end).
  rewrite !fmap_cons, IH1, IH2.
  destruct s as [[part_map local_hits]|msg]; simpl.
  - by rewrite filter_cons, decide_False by (by intros H; apply H).
  - by rewrite !filter_cons, IH3.
Qed.

Lemma t3q2_run_of_printed
    (work : filesystem → string → Z → Z → result (gmap string Q2.entry * Z))
    (fs : filesystem) (env : Participating.environ)
    (size : Z) (path : string) (DATASET_SIZE : Z) (t0 t1 : float64) :
  path ≠ EmptyString → is_Some (fs path) → 0 < DATASET_SIZE →
  let slices := Participating.slice_of work fs path DATASET_SIZE size <$> seqZ 0 size in
  Participating.t3q2_run_of work fs env size (Some path) (Some DATASET_SIZE) t0 t1
  = match filter (λ e, e ≠ EmptyString) (omap raised_text slices) with
    | [] =>
        Coordinator.JobResult (Coordinator.Value (Q2.resolve (merged_map <$> slices)))
          (Partitioner.chunks DATASET_SIZE size) (reported_hits <$> slices) (fsub t1 t0)
    | e :: errs => Coordinator.failure ("Worker errors: " +:+ repr_list (e :: errs))
    end.
Proof.
  intros Hp Hfs Hn slices. unfold Participating.t3q2_run_of. simpl.
  rewrite (bool_decide_eq_false_2 (DATASET_SIZE = 0)) by lia.
  rewrite (bool_decide_eq_false_2 (path = EmptyString)) by done. simpl.
  rewrite (bool_decide_eq_false_2 (path = EmptyString)) by done.
  rewrite (bool_decide_eq_true_2 (is_Some (fs path))) by done.
  rewrite (bool_decide_eq_false_2 (DATASET_SIZE ≤ 0)) by lia. simpl.
  rewrite (list_fmap_compose (Participating.slice_of work fs path DATASET_SIZE size)
             Participating.contribution).
  fold slices.
  destruct (contributions_of slices) as (Hm & Hh & He).
  rewrite Hm, Hh, He.
  destruct (filter _ (omap raised_text slices)) as [|e errs] eqn:Hf.
  - rewrite bool_decide_eq_false_2; [done|].
    intros Hex. apply Exists_exists in Hex as (e & Hin & Hne).
    assert (Hf' : e ∈ filter (λ e, e ≠ EmptyString) (Participating.contribution <$> slices).*2)
      by (by apply list_elem_of_filter).
    rewrite He in Hf'. by apply elem_of_nil in Hf'.
  - rewrite bool_decide_eq_true_2; [done|].
    assert (Hf' : e ∈ filter (λ e, e ≠ EmptyString) (Participating.contribution <$> slices).*2)
      by (rewrite He; left).
    apply list_elem_of_filter in Hf' as [Hne Hin]. apply Exists_exists. by exists e.
Qed.

Lemma filter_nonempty_nil (l : list string) :
  filter (λ e, e ≠ EmptyString) l = [] ↔ Forall (λ e, e = EmptyString) l.
Proof.
  induction l as [|e l IH]; [by split; [constructor|]|].
  rewrite filter_cons. destruct (decide (e ≠ EmptyString)) as [Hne|He].
  - split; [done|]. intros H. by apply Forall_cons in H as [? _].
  - rewrite IH. apply dec_stable in He. split.
    + by constructor.
    + intros H. by apply Forall_cons in H as [_ ?].
Qed.

(** X12. [run] of [t3q2.py], whatever the method [_process_slice] of the
    ranks does, with a path that exists and a positive size given to the
    constructor: the environment is not consulted. Rank 0 goes by the texts
    of the exceptions and not by the exceptions: when some rank raised an
    exception whose text is not empty, it prints the failure whose answer
    lists the texts that are not empty, in rank order and without the
    ranks they came from, and nothing is merged; texts of printable ASCII
    characters without backslash and double quote are printed between
    quotes, separated by a comma and a space, between square brackets.
    Otherwise it prints a count: the one resolved with the exact test from
    the maps of the ranks, where a rank that raised an exception with an
    empty text stands with an empty map and the diagnostic count [0], and
    no failure is reported for it. The failure is printed exactly when
    some rank raised a text that is not empty. *)
Theorem t3q2_run_reports_every_failure
    (work : filesystem → string → Z → Z → result (gmap string Q2.entry * Z))
    (fs : filesystem) (env : Participating.environ)
    (size : Z) (path : string) (DATASET_SIZE : Z) (t0 t1 : float64) :
  path ≠ EmptyString → is_Some (fs path) → 0 < DATASET_SIZE →
  let slices := Participating.slice_of work fs path DATASET_SIZE size <$> seqZ 0 size in
  let errors := filter (λ e, e ≠ EmptyString) (omap raised_text slices) in
  Participating.t3q2_run_of work fs env size (Some path) (Some DATASET_SIZE) t0 t1
  = match errors with
    | [] =>
        Coordinator.JobResult (Coordinator.Value (Q2.resolve (merged_map <$> slices)))
          (Partitioner.chunks DATASET_SIZE size) (reported_hits <$> slices) (fsub t1 t0)
    | _ :: _ => Coordinator.failure ("Worker errors: " +:+ repr_list errors)
    end
  ∧ (Forall (λ e, plain e = true) errors →
     "Worker errors: " +:+ repr_list errors
     = "Worker errors: [" +:+ join ", " (quoted <$> errors) +:+ "]")
  ∧ (errors = [] ↔
     ∀ rank msg, 0 ≤ rank < size →
       Participating.slice_of work fs path DATASET_SIZE size rank = Raise msg →
       msg = EmptyString).
Proof.
  intros Hp Hfs Hn slices errors. split; [|split].
  - unfold errors. rewrite t3q2_run_of_printed by done. fold slices.
    by destruct (filter _ (omap raised_text slices)).
  - intros Hplain. by rewrite repr_list_plain.
  - unfold errors. rewrite filter_nonempty_nil, Forall_forall. split.
    + intros H rank msg Hr Hs. apply H. apply list_elem_of_omap.
      exists (Raise msg). split; [|done]. unfold slices. rewrite <- Hs.
      apply list_elem_of_fmap_2, elem_of_seqZ. lia.
    + intros H e He. apply list_elem_of_omap in He as (s & Hs & Hse).
      unfold slices in Hs. apply list_elem_of_fmap in Hs as (rank & -> & Hrank).
      apply elem_of_seqZ in Hrank.
      destruct (Participating.slice_of work fs path DATASET_SIZE size rank) as [x|msg] eqn:E;
        [done|]. injection Hse as <-. apply (H rank); [lia|done].
Qed.

Lemma t3q2_run_reports_every_failure_witness :
  let df := DataFrame ["BId"; "BPrice"] [] in
  let fs : filesystem := λ p, if bool_decide (p = "data.csv") then Some df else None in
  let silent := failing_on [0] (λ _, EmptyString) in
  let mixed := failing_on [0; 2] (λ lo, if bool_decide (lo = 0) then EmptyString else "boom") in
  ("data.csv" ≠ EmptyString ∧ is_Some (fs "data.csv") ∧ 0 < 4)
  ∧ Participating.t3q2_run fs (Participating.Environ None None) 2 (Some "data.csv") (Some 4)
      (of_Z 100) (of_Z 103)
    = Coordinator.failure
        ("Worker errors: ["
         +:+ String dquote "Column 'RScore' not found in dataset."
         +:+ String dquote ", "
         +:+ String dquote "Column 'RScore' not found in dataset."
         +:+ String dquote "]")
  ∧ Participating.t3q2_run_of mixed fs (Participating.Environ None None) 2
      (Some "data.csv") (Some 4) (of_Z 100) (of_Z 103)
    = Coordinator.failure "Worker errors: ['boom']"
  ∧ Participating.t3q2_run_of silent fs (Participating.Environ None None) 2
      (Some "data.csv") (Some 4) (of_Z 100) (of_Z 103)
    = Coordinator.JobResult (Coordinator.Value 0) [2; 2] [0; 2] (of_Z 3).
Proof.
  intros df fs silent mixed.
  assert (H1 : "data.csv" ≠ EmptyString) by discriminate.
  assert (H2 : is_Some (fs "data.csv")) by (by eexists).
  assert (H3 : 0 < 4) by lia.
  split; [exact (conj H1 (conj H2 H3))|].
  unfold Participating.t3q2_run.
  rewrite (proj1 (t3q2_run_reports_every_failure Q2._process_slice fs
                    (Participating.Environ None None) 2
                    "data.csv" 4 (of_Z 100) (of_Z 103) H1 H2 H3)).
  rewrite (proj1 (t3q2_run_reports_every_failure mixed fs
                    (Participating.Environ None None) 2
                    "data.csv" 4 (of_Z 100) (of_Z 103) H1 H2 H3)).
  rewrite (proj1 (t3q2_run_reports_every_failure silent fs
                    (Participating.Environ None None) 2
                    "data.csv" 4 (of_Z 100) (of_Z 103) H1 H2 H3)).
  by vm_compute.
Defined.

Lemma all_returned {A : Type} (sent : list (result A)) :
  omap raised_text sent = [] → Forall2 (λ s x, s = Ok x) sent (omap returned sent).
Proof.
  induction sent as [|s sent IH]; [by constructor|].
  change (omap raised_text (s :: sent))
    with (match raised_text s with
          | Some y => y :: omap raised_text sent
          | None => omap raised_text sent
          end).
  change (omap returned (s :: sent))
    with (match returned s with
          | Some y => y :: omap returned sent
          | None => omap returned sent
          end).
  destruct s as [x|msg]; simpl; [|done]. intros H. constructor; [done|by apply IH].
Qed.

Lemma returned_views (sent : list (result (gmap string Q2.entry * Z)))
    (values : list (gmap string Q2.entry * Z)) :
  Forall2 (λ s x, s = Ok x) sent values →
  merged_map <$> sent = values.*1 ∧ reported_hits <$> sent = values.*2.
Proof.
  induction 1 as [|s x sent values -> _ [IH1 IH2]]; [done|].
  rewrite !fmap_cons, IH1, IH2. done.
Qed.

(** X13. [t3q2_master.py] with one rank more computes what [run] of
    [t3q2.py] computes. When [_process_slice] raises on no slice of the
    run on [size] ranks, the run prints the count resolved from the maps
    of its ranks, its chunk sizes and diagnostic counts, and the
    master-only job on [size + 1] ranks prints the same count, and the
    same chunk sizes and diagnostic counts after the [0] of its rank 0.
    Each program prints the time between the readings of its own clock. *)
Theorem master_only_matches_participating_run (fs : filesystem)
    (env : Participating.environ) (size : Z) (path : string) (DATASET_SIZE : Z)
    (t0 t1 t0' t1' : float64) :
  path ≠ EmptyString → is_Some (fs path) → 0 < DATASET_SIZE → 1 ≤ size →
  let slices := Participating.slice fs path DATASET_SIZE size <$> seqZ 0 size in
  let final := Q2.resolve (omap returned slices).*1 in
  let hits := (omap returned slices).*2 in
  omap raised_text slices = [] →
  Participating.t3q2_run fs env size (Some path) (Some DATASET_SIZE) t0 t1
  = Coordinator.JobResult (Coordinator.Value final)
      (Partitioner.chunks DATASET_SIZE size) hits (fsub t1 t0)
  ∧ t3q2_master fs (size + 1) (Some path) DATASET_SIZE t0' t1'
    = Coordinator.Printed
        (Coordinator.JobResult (Coordinator.Value final)
           (0 :: Partitioner.chunks DATASET_SIZE size) (0 :: hits) (fsub t1' t0')).
Proof.
  intros Hp Hfs Hn Hsize slices final hits He.
  pose proof (all_returned slices He) as Hret.
  destruct (returned_views _ _ Hret) as [Hm Hh].
  split.
  - unfold Participating.t3q2_run. rewrite t3q2_run_of_printed by done.
    change (Participating.slice_of Q2._process_slice fs path DATASET_SIZE size <$> seqZ 0 size)
      with slices.
    by rewrite He, Hm, Hh.
  - assert (Hall : Forall2 (λ range res, Q2._process_slice fs path range.1 range.2 = Ok res)
                     (Partitioner.ranges DATASET_SIZE size) (omap returned slices)).
    { unfold Partitioner.ranges. apply Forall2_fmap_l.
      unfold slices in Hret at 1. apply Forall2_fmap_l in Hret. exact Hret. }
    unfold t3q2_master. rewrite job_printed by (done || lia).
    replace (size + 1 - 1) with size by lia.
    destruct (job_all_answered Q2._process_slice fs path DATASET_SIZE size _ Hall) as [-> ->].
    by rewrite sizes_ranges by lia.
Qed.

Lemma master_only_matches_participating_run_witness :
  let fs := one_file six_reviews in
  let slices := Participating.slice fs "reviews.csv" 6 2 <$> seqZ 0 2 in
  ("reviews.csv" ≠ EmptyString ∧ is_Some (fs "reviews.csv") ∧ 0 < 6 ∧ 1 ≤ 2
   ∧ omap raised_text slices = [])
  ∧ Participating.t3q2_run fs (Participating.Environ None None) 2
      (Some "reviews.csv") (Some 6) (of_Z 100) (of_Z 103)
    = Coordinator.JobResult (Coordinator.Value 1) [3; 3] [2; 1] (of_Z 3)
  ∧ t3q2_master fs (2 + 1) (Some "reviews.csv") 6 (of_Z 200) (of_Z 207)
    = Coordinator.Printed
        (Coordinator.JobResult (Coordinator.Value 1) [0; 3; 3] [0; 2; 1] (of_Z 7)).
Proof.
  intros fs slices.
  assert (H1 : "reviews.csv" ≠ EmptyString) by discriminate.
  assert (H2 : is_Some (fs "reviews.csv")) by (by eexists).
  assert (H3 : 0 < 6) by lia.
  assert (H4 : 1 ≤ 2) by lia.
  assert (H5 : omap raised_text slices = []) by (by vm_compute).
  split; [exact (conj H1 (conj H2 (conj H3 (conj H4 H5))))|].
  destruct (master_only_matches_participating_run fs (Participating.Environ None None) 2
              "reviews.csv" 6 (of_Z 100) (of_Z 103) (of_Z 200) (of_Z 207) H1 H2 H3 H4 H5)
    as [-> ->].
  by vm_compute.
Defined.

(** ** The resolvers and the order of the dictionaries *)

Lemma str_le_antisym (s t : string) : str_le s t → str_le t s → s = t.
Proof.
  unfold str_le, String.leb. rewrite (String.compare_antisym s t).
  destruct (String.compare t s) eqn:E; simpl; try done.
  intros _ _. symmetry. by apply String.compare_eq_iff.
Qed.

Lemma foldl_max_by {A : Type} (f : A → Z) (v : Z) (l : list A) :
  let m := foldl (λ acc x, Z.max acc (f x)) v l in
  (m = v ∨ ∃ x, x ∈ l ∧ m = f x) ∧ v ≤ m ∧ ∀ x, x ∈ l → f x ≤ m.
Proof.
  revert v. induction l as [|y l IH]; intros v; simpl.
  - split; [by left|]. split; [lia|]. by intros x ?%elem_of_nil.
  - destruct (IH (Z.max v (f y))) as (Hin & Hle & Hall). split; [|split].
    + destruct Hin as [Hm|(x & Hx & Hm)].
      * destruct (Z.max_spec v (f y)) as [[_ Heq]|[_ Heq]].
        -- right. exists y. split; [left|by rewrite Hm].
        -- left. by rewrite Hm.
      * right. exists x. split; [by right|done].
    + lia.
    + intros x Hx. apply elem_of_cons in Hx as [->|Hx]; [lia|by apply Hall].
Qed.

Lemma q3_final_of_items_spec (items : list (string * Q3.info)) :
  ∃ names,
    Q3.final_of_items items = join ", " names
    ∧ StronglySorted str_le names
    ∧ NoDup names
    ∧ (∀ n, n ∈ names
            ↔ ∃ kv, q3_wins items kv ∧ n = Q3.pick_display_name kv.1 (Q3.name_counts kv.2))
    ∧ (names = [] ↔ ∀ kv, kv ∈ items → Q3.eligible kv.2 = false).
Proof.
  unfold Q3.final_of_items.
  assert (Hel : ∀ kv, kv ∈ filter (λ kv, Q3.eligible kv.2 = true) items
                      ↔ kv ∈ items ∧ Q3.eligible kv.2 = true).
  { intros kv. rewrite list_elem_of_filter. tauto. }
  destruct (filter (λ kv, Q3.eligible kv.2 = true) items) as [|kv0 rest] eqn:E.
  - exists []. split; [done|]. split; [constructor|]. split; [constructor|]. split.
    + intros n. split; [by intros ?%elem_of_nil|].
      intros (kv & (Hin & Helig & _) & _).
      assert (H : kv ∈ @nil (string * Q3.info)) by (by apply Hel). by apply elem_of_nil in H.
    + split; [|done]. intros _ kv Hin. destruct (Q3.eligible kv.2) eqn:Helig; [|done].
      assert (H : kv ∈ @nil (string * Q3.info)) by (by apply Hel). by apply elem_of_nil in H.
  - set (best := foldl (λ acc kv, Z.max acc (Q3.nbooks kv)) (Q3.nbooks kv0) rest).
    set (winners := filter (λ kv, Q3.nbooks kv = best) (kv0 :: rest)).
    set (names := list_to_set ((λ kv, Q3.pick_display_name kv.1 (Q3.name_counts kv.2))
                                 <$> winners) : gset string).
    exists (sorted_str (elements names)).
    split; [done|]. split; [apply sorted_str_sorted|]. split.
    { unfold sorted_str. rewrite sort_by_perm. apply NoDup_elements. }
    destruct (foldl_max_by Q3.nbooks (Q3.nbooks kv0) rest) as (Hbest & Hle & Hall).
    fold best in Hbest, Hle, Hall.
    assert (Hmax : ∀ kv, kv ∈ kv0 :: rest → Q3.nbooks kv ≤ best).
    { intros kv Hkv. apply elem_of_cons in Hkv as [->|Hkv]; [done|by apply Hall]. }
    assert (Hex : ∃ kv, kv ∈ kv0 :: rest ∧ Q3.nbooks kv = best).
    { destruct Hbest as [Hm|(x & Hx & Hm)]; [exists kv0; split; [left|done]|].
      exists x. split; [by right|done]. }
    assert (Hnames : ∀ n, n ∈ sorted_str (elements names)
              ↔ ∃ kv, q3_wins items kv
                      ∧ n = Q3.pick_display_name kv.1 (Q3.name_counts kv.2)).
    { intros n. unfold sorted_str. rewrite sort_by_perm, elem_of_elements.
      unfold names. rewrite elem_of_list_to_set, list_elem_of_fmap.
      split.
      + intros (kv & -> & Hkv). exists kv. split; [|done].
        apply list_elem_of_filter in Hkv as [Hb Hkv]. apply Hel in Hkv as Hkv'.
        destruct Hkv' as [Hin Helig]. split; [done|]. split; [done|].
        intros kv' Hin' Helig'. rewrite Hb. apply Hmax. apply Hel. by split.
      + intros (kv & (Hin & Helig & Htop) & ->). exists kv. split; [done|].
        apply list_elem_of_filter. split; [|by apply Hel].
        destruct Hex as (kv' & Hkv' & Hb). apply Hel in Hkv' as Hkv''.
        destruct Hkv'' as [Hin' Helig']. specialize (Htop kv' Hin' Helig').
        assert (Q3.nbooks kv ≤ best) by (apply Hmax; by apply Hel). lia. }
    split; [exact Hnames|].
    assert (H0 : kv0 ∈ items ∧ Q3.eligible kv0.2 = true) by (apply Hel; left).
    split.
    + intros Hnil. exfalso. destruct Hex as (kv & Hkv & Hb).
      assert (Hn : Q3.pick_display_name kv.1 (Q3.name_counts kv.2)
                   ∈ sorted_str (elements names)).
      { apply Hnames. exists kv. split; [|done]. apply Hel in Hkv as Hkv'.
        destruct Hkv' as [Hin Helig]. split; [done|]. split; [done|].
        intros kv' Hin' Helig'. rewrite Hb. apply Hmax. apply Hel. by split. }
      rewrite Hnil in Hn. by apply elem_of_nil in Hn.
    + intros Hnone. destruct H0 as [Hin Helig]. by rewrite (Hnone kv0 Hin) in Helig.
Qed.

Global Instance str_le_transitive : Transitive str_le.
Proof. intros s t u. apply str_le_trans. Qed.

Global Instance str_le_antisymm : AntiSymm (=) str_le.
Proof. intros s t. apply str_le_antisym. Qed.

Lemma pick_most_frequent_perm (items items' : list (string * Z)) :
  items ≡ₚ items' → pick_most_frequent items = pick_most_frequent items'.
Proof.
  intros Hperm. destruct items as [|nv items0].
  - apply Permutation_nil_l in Hperm. by subst.
  - set (items := nv :: items0) in *.
    assert (Hne : items ≠ []) by done.
    assert (Hne' : items' ≠ []).
    { intros ->. by apply Permutation_nil_r in Hperm. }
    destruct (pick_most_frequent_spec items Hne) as (l & top & -> & Hl & Hmax & Hmin).
    destruct (pick_most_frequent_spec items' Hne') as (l' & top' & -> & Hl' & Hmax' & Hmin').
    assert (Htop : top = top').
    { rewrite Hperm in Hl. rewrite <- Hperm in Hl'.
      specialize (Hmax _ _ Hl'). specialize (Hmax' _ _ Hl). lia. }
    subst top'. f_equal. apply str_le_antisym.
    + apply Hmin. by rewrite Hperm.
    + apply Hmin'. by rewrite <- Hperm.
Qed.

Lemma q3_final_of_items_perm (items items' : list (string * Q3.info)) :
  items ≡ₚ items' → Q3.final_of_items items = Q3.final_of_items items'.
Proof.
  intros Hperm.
  destruct (q3_final_of_items_spec items) as (names & -> & Hs & Hnd & Hin & _).
  destruct (q3_final_of_items_spec items') as (names' & -> & Hs' & Hnd' & Hin' & _).
  f_equal. apply (StronglySorted_unique str_le); [done..|].
  apply NoDup_Permutation; [done..|]. intros n. rewrite Hin, Hin'.
  assert (Hwins : ∀ kv, q3_wins items kv ↔ q3_wins items' kv).
  { intros kv. unfold q3_wins. by setoid_rewrite Hperm. }
  by setoid_rewrite Hwins.
Qed.

(** X14. The final answer of Q3 is the list, joined with [", "], of the
    display names of the winners: the eligible users whose set of books
    is not smaller than that of any eligible user. The names are in
    ascending order without repetition (two winners with one display name
    are listed once), and the answer is the empty list of names exactly
    when no user is eligible. *)
Theorem q3_final_answer_names (users : gmap string Q3.info) :
  ∃ names,
    Q3.final_answer users = join ", " names
    ∧ StronglySorted str_le names
    ∧ NoDup names
    ∧ (∀ n, n ∈ names
            ↔ ∃ uid u, users !! uid = Some u ∧ Q3.eligible u = true
                       ∧ (∀ uid' u', users !! uid' = Some u' → Q3.eligible u' = true →
                                     (size (Q3.books u') ≤ size (Q3.books u))%nat)
                       ∧ n = Q3.pick_display_name uid (Q3.name_counts u))
    ∧ (names = [] ↔ ∀ uid u, users !! uid = Some u → Q3.eligible u = false).
Proof.
  destruct (q3_final_of_items_spec (map_to_list users)) as (names & Hf & Hs & Hnd & Hin & Hnil).
  exists names. split; [done|]. split; [done|]. split; [done|]. split.
  - intros n. rewrite Hin. split.
    + intros ([uid u] & (Hkv & Helig & Htop) & ->). exists uid, u.
      apply elem_of_map_to_list in Hkv. split; [done|]. split; [done|]. split; [|done].
      intros uid' u' Hu' Helig'.
      specialize (Htop (uid', u')). unfold Q3.nbooks in Htop. simpl in Htop.
      apply Nat2Z.inj_le, Htop; [by apply elem_of_map_to_list|done].
    + intros (uid & u & Hu & Helig & Htop & ->). exists (uid, u). split; [|done].
      split; [by apply elem_of_map_to_list|]. split; [done|].
      intros [uid' u'] Hkv' Helig'. apply elem_of_map_to_list in Hkv'.
      unfold Q3.nbooks. simpl. apply Nat2Z.inj_le. by eapply Htop.
  - rewrite Hnil. split.
    + intros H uid u Hu. apply (H (uid, u)). by apply elem_of_map_to_list.
    + intros H [uid u] Hkv. apply elem_of_map_to_list in Hkv. by eapply H.
Qed.

(** X15. The pickers and the resolver of Q3 do not see the order in which
    a dictionary hands over its items: on two lists with the same items,
    [pick_most_frequent] picks the same label, and the final answer of Q3
    is the same text. *)
Theorem resolvers_ignore_dict_order :
  (∀ items items' : list (string * Z),
     items ≡ₚ items' → pick_most_frequent items = pick_most_frequent items')
  ∧ (∀ items items' : list (string * Q3.info),
       items ≡ₚ items' → Q3.final_of_items items = Q3.final_of_items items').
Proof. split; [apply pick_most_frequent_perm|apply q3_final_of_items_perm]. Qed.

Lemma resolvers_ignore_dict_order_witness :
  [("Bob", 2); ("Amy", 2)] ≡ₚ [("Amy", 2); ("Bob", 2)]
  ∧ pick_most_frequent [("Bob", 2); ("Amy", 2)] = pick_most_frequent [("Amy", 2); ("Bob", 2)].
Proof.
  assert (H : [("Bob", 2); ("Amy", 2)] ≡ₚ [("Amy", 2); ("Bob", 2)]) by apply perm_swap.
  split; [exact H|]. exact (proj1 resolvers_ignore_dict_order _ _ H).
Defined.


(** ** The entries the workers build *)

Section drop_spaces_facts.

Context (sp1 : ascii → bool) (sp2 : ascii → ascii → bool)
        (sp3 : ascii → ascii → ascii → bool).

Lemma drop_spaces_spec (n : nat) (l : list ascii) :
  (length l ≤ n)%nat →
  clean_start sp1 sp2 sp3 (drop_spaces sp1 sp2 sp3 l) = true
  ∧ ∃ x, l = x ++ drop_spaces sp1 sp2 sp3 l.
Proof.
  revert l. induction n as [|n IH]; intros l Hl.
  { destruct l; [|simpl in Hl; lia]. split; [done|]. by exists []. }
  destruct l as [|c l1]; [split; [done|]; by exists []|].
  simpl in Hl. simpl drop_spaces. destruct (sp1 c) eqn:H1.
  { destruct (IH l1) as [Hc [x Hx]]; [lia|]. split; [done|].
    exists (c :: x). simpl. by rewrite <- Hx. }
  destruct l1 as [|d l2].
  { split; [simpl; by rewrite H1|]. by exists []. }
  simpl in Hl. destruct (sp2 c d) eqn:H2.
  { destruct (IH l2) as [Hc [x Hx]]; [lia|]. split; [done|].
    exists (c :: d :: x). simpl. by rewrite <- Hx. }
  destruct l2 as [|e l3].
  { split; [simpl; by rewrite H1, H2|]. by exists []. }
  simpl in Hl. destruct (sp3 c d e) eqn:H3.
  { destruct (IH l3) as [Hc [x Hx]]; [lia|]. split; [done|].
    exists (c :: d :: e :: x). simpl. by rewrite <- Hx. }
  split; [simpl; by rewrite H1, H2, H3|]. by exists [].
Qed.

Lemma drop_spaces_id (l : list ascii) :
  clean_start sp1 sp2 sp3 l = true → drop_spaces sp1 sp2 sp3 l = l.
Proof.
  destruct l as [|c [|d [|e l]]]; simpl; try done.
  - by intros [->%negb_true_iff _]%andb_true_iff.
  - intros [->%negb_true_iff [->%negb_true_iff _]%andb_true_iff]%andb_true_iff. done.
  - intros [->%negb_true_iff [->%negb_true_iff ->%negb_true_iff]%andb_true_iff]%andb_true_iff.
    done.
Qed.

Lemma clean_start_prefix (t y : list ascii) :
  clean_start sp1 sp2 sp3 (t ++ y) = true → clean_start sp1 sp2 sp3 t = true.
Proof.
  destruct t as [|c [|d [|e t]]]; simpl; try done.
  - intros [-> _]%andb_true_iff. done.
  - intros [-> [-> _]%andb_true_iff]%andb_true_iff. done.
Qed.

End drop_spaces_facts.

Lemma strip_idemp (s : string) : strip (strip s) = strip s.
Proof.
  unfold strip, rstrip, lstrip.
  rewrite !list_ascii_of_string_of_list_ascii.
  set (Df := drop_spaces is_space is_space2 is_space3).
  set (Dr := drop_spaces is_space (λ d c, is_space2 c d) (λ e d c, is_space3 c d e)).
  set (u := Df (list_ascii_of_string s)).
  destruct (drop_spaces_spec is_space is_space2 is_space3 _ (list_ascii_of_string s)
              (le_n _)) as [Hu _].
  fold Df in Hu. fold u in Hu.
  destruct (drop_spaces_spec is_space (λ d c, is_space2 c d) (λ e d c, is_space3 c d e)
              _ (rev u) (le_n _)) as [Hr [x Hx]].
  fold Dr in Hr, Hx.
  assert (Hut : u = rev (Dr (rev u)) ++ rev x).
  { rewrite <- rev_app_distr, <- Hx. by rewrite rev_involutive. }
  assert (Hclean : clean_start is_space is_space2 is_space3 (rev (Dr (rev u))) = true).
  { apply (clean_start_prefix _ _ _ _ (rev x)). by rewrite <- Hut. }
  unfold Df at 1. rewrite drop_spaces_id by exact Hclean.
  rewrite rev_involutive. unfold Dr at 1. rewrite drop_spaces_id by exact Hr. done.
Qed.

Lemma foldlM_invariant {A B : Type} (f : A → B → result A) (P : A → Prop) (l : list B) :
  (∀ a b a', P a → f a b = Ok a' → P a') →
  ∀ a a', P a → foldlM f a l = Ok a' → P a'.
Proof.
  intros Hstep. induction l as [|b l IH]; intros a a' Ha; simpl.
  - by intros [= <-].
  - destruct (f a b) as [a1|] eqn:E; simpl; [|done]. apply IH. by eapply Hstep.
Qed.

Lemma labels_ok_incr (counts : gmap string Z) (n : Z) (s : string) :
  0 ≤ n → labels_ok counts n → s ≠ EmptyString → strip s = s →
  labels_ok (counter_incr s counts) (n + 1).
Proof.
  intros Hn Hok Hs Hstrip label v. unfold counter_incr.
  destruct (decide (label = s)) as [->|Hne].
  - rewrite lookup_insert_eq. intros [= <-]. split; [done|]. split; [done|].
    destruct (counts !! s) as [w|] eqn:E; simpl; [|lia].
    destruct (Hok s w E) as (_ & _ & ?). lia.
  - rewrite lookup_insert_ne by done. intros Hv.
    destruct (Hok label v Hv) as (? & ? & ?). repeat split; (done || lia).
Qed.

Lemma q3_count_label_ok (label : option string) (counts : gmap string Z) (n : Z) :
  0 ≤ n → labels_ok counts n → labels_ok (Q3.count_label label counts) (n + 1).
Proof.
  intros Hn Hok. unfold Q3.count_label.
  assert (Hweak : labels_ok counts (n + 1)).
  { intros l v Hv. destruct (Hok l v Hv) as (? & ? & ?). repeat split; (done || lia). }
  destruct label as [name|]; [|done]. case_bool_decide; [done|].
  apply labels_ok_incr; [done..|]. apply strip_idemp.
Qed.

Lemma q4_count_label_ok (label : option string) (counts : gmap string Z) (n : Z) :
  0 ≤ n → labels_ok counts n → labels_ok (Q4.count_label label counts) (n + 1).
Proof.
  intros Hn Hok. unfold Q4.count_label.
  assert (Hweak : labels_ok counts (n + 1)).
  { intros l v Hv. destruct (Hok l v Hv) as (? & ? & ?). repeat split; (done || lia). }
  destruct label as [name|]; [|done]. case_bool_decide; [done|].
  apply labels_ok_incr; [done..|]. apply strip_idemp.
Qed.

Lemma q3_aggregate_ok (rs : list row) (local : gmap string Q3.info) :
  Q3.aggregate rs = Ok local → map_Forall (λ _ u, q3_entry_ok u) local.
Proof.
  apply (foldlM_invariant Q3.step (map_Forall (λ _ u, q3_entry_ok u))).
  2:{ apply map_Forall_empty. }
  intros a r a' Ha. unfold Q3.step. destruct (is_nan _); [by intros [= <-]|].
  destruct (UId r) as [uid|]; [|by intros [= <-]].
  destruct (BId r) as [bid|]; [|by intros [= <-]].
  destruct (int_of_float _) as [n|]; [|done]. intros [= <-].
  apply map_Forall_insert_2; [|done].
  assert (Hu : 0 ≤ Q3.cnt (default Q3.empty_info (a !! uid))
               ∧ Z.of_nat (size (Q3.books (default Q3.empty_info (a !! uid))))
                 ≤ Q3.cnt (default Q3.empty_info (a !! uid))
               ∧ labels_ok (Q3.name_counts (default Q3.empty_info (a !! uid)))
                   (Q3.cnt (default Q3.empty_info (a !! uid)))).
  { destruct (a !! uid) as [u|] eqn:E; simpl.
    - destruct (Ha uid u E) as (? & _ & ? & ?). split; [lia|done].
    - split; [done|]. split; [done|]. intros l v Hl. by rewrite lookup_empty in Hl. }
  destruct Hu as (Hc & Hb & Hl).
  set (u := default Q3.empty_info (a !! uid)) in *.
  unfold q3_entry_ok. simpl. split; [lia|]. split; [set_solver|]. split.
  - rewrite size_union_alt, size_singleton.
    assert (size (Q3.books u ∖ {[bid]}) ≤ size (Q3.books u))%nat
      by (apply subseteq_size; set_solver).
    lia.
  - by apply q3_count_label_ok.
Qed.

Lemma q4_aggregate_ok (rs : list row) (local : gmap string Q4.info) :
  Q4.aggregate rs = Ok local → map_Forall (λ _ i, q4_entry_ok i) local.
Proof.
  apply (foldlM_invariant Q4.step (map_Forall (λ _ i, q4_entry_ok i))).
  2:{ apply map_Forall_empty. }
  intros a r a' Ha. unfold Q4.step. destruct (is_nan (to_numeric (RScore r))); [by intros [= <-]|].
  destruct (BId r) as [bid|]; [|by intros [= <-]].
  destruct (int_of_float _) as [n|]; [|done]. intros [= <-].
  apply map_Forall_insert_2; [|done].
  assert (Hu : 0 ≤ Q4.cnt (default Q4.empty_info (a !! bid))
               ∧ price_ok (default Q4.empty_info (a !! bid))
               ∧ labels_ok (Q4.title_counts (default Q4.empty_info (a !! bid)))
                   (Q4.cnt (default Q4.empty_info (a !! bid)))).
  { destruct (a !! bid) as [u|] eqn:E; simpl.
    - destruct (Ha bid u E) as (? & ? & ?). split; [lia|done].
    - split; [done|]. split; [by intros p|]. intros l v Hl. by rewrite lookup_empty in Hl. }
  destruct Hu as (Hc & Hp & Hl).
  set (u := default Q4.empty_info (a !! bid)) in *.
  unfold q4_entry_ok. simpl. split; [lia|]. split.
  - intros p. unfold price_ok in Hp. simpl.
    destruct (Q4.price u) as [q|] eqn:Eq; [intros [= <-]; by apply Hp|].
    destruct (is_nan (to_numeric (BPrice r))) eqn:En; [done|]. by intros [= <-].
  - by apply q4_count_label_ok.
Qed.

(** X16. Every entry [_work] of Q3 sends counts at least one record, lists
    at least one book, each once, and no more books than records; the
    labels of its name counter are stripped and not empty, each counted
    at least once and at most as often as there are records. The entries
    of the map the coordinator merges from such payloads keep this. *)
Theorem q3_entries_wellformed :
  (∀ df payload users_seen,
     Q3.work_frame df = Ok (payload, users_seen) →
     map_Forall (λ _ i, q3_payload_ok i) payload)
  ∧ (∀ dfs payloads,
       Forall2 (λ df payload, ∃ n, Q3.work_frame df = Ok (payload, n)) dfs payloads →
       map_Forall (λ _ u, q3_entry_ok u) (Q3.merge_all payloads)).
Proof.
  split.
  - intros df payload n Hw. unfold Q3.work_frame in Hw.
    destruct (check_columns _ df); simpl in Hw; [|done].
    destruct (Q3.aggregate (rows df)) as [local|] eqn:E; simpl in Hw; [|done].
    injection Hw as <- _. intros uid i Hi. rewrite lookup_fmap in Hi.
    destruct (local !! uid) as [u|] eqn:Hu; [|done]. injection Hi as <-.
    destruct (q3_aggregate_ok _ _ E uid u Hu) as (Hc & Hb & Hs & Hl).
    unfold q3_payload_ok, Q3.to_payload. simpl. split; [done|]. split.
    { intros Hnil. apply Hb. by apply elements_empty_inv, leibniz_equiv in Hnil. }
    split; [apply NoDup_elements|]. split; [done|done].
  - intros dfs payloads Hw. eapply q3_aggregate_ok.
    apply (q3_merged_is_aggregate dfs payloads ∅ Hw).
Qed.

(** X17. Every entry [_work] of Q4 sends, and every entry of the map the
    coordinator merges from such payloads, counts at least one record,
    holds no NaN as a price, and has a title counter whose labels are
    stripped and not empty, each counted at least once and at most as
    often as there are records. *)
Theorem q4_entries_wellformed :
  (∀ df payload seen_books,
     Q4.work_frame df = Ok (payload, seen_books) →
     map_Forall (λ _ i, q4_entry_ok i) payload)
  ∧ (∀ dfs payloads,
       Forall2 (λ df payload, ∃ n, Q4.work_frame df = Ok (payload, n)) dfs payloads →
       map_Forall (λ _ i, q4_entry_ok i) (Q4.merge_all payloads)).
Proof.
  split.
  - intros df payload n Hw. unfold Q4.work_frame in Hw.
    destruct (check_columns _ df); simpl in Hw; [|done].
    destruct (Q4.aggregate (rows df)) as [local|] eqn:E; simpl in Hw; [|done].
    injection Hw as <- _. by eapply q4_aggregate_ok.
  - intros dfs payloads Hw. eapply q4_aggregate_ok.
    apply (q4_merged_is_aggregate dfs payloads ∅ Hw).
Qed.

Lemma q3_entries_wellformed_witness :
  let payload := match Q3.work_frame five_fours with Ok (p, _) => p | Raise _ => ∅ end in
  Q3.work_frame five_fours = Ok (payload, 2)
  ∧ map_Forall (λ _ i, q3_payload_ok i) payload.
Proof.
  intros payload.
  assert (H : Q3.work_frame five_fours = Ok (payload, 2)) by (by vm_compute).
  split; [exact H|]. exact (proj1 q3_entries_wellformed five_fours payload 2 H).
Defined.

Lemma q4_entries_wellformed_witness :
  let payload := match Q4.work_frame twelve_books with Ok (p, _) => p | Raise _ => ∅ end in
  Q4.work_frame twelve_books = Ok (payload, 12)
  ∧ map_Forall (λ _ i, q4_entry_ok i) payload.
Proof.
  intros payload.
  assert (H : Q4.work_frame twelve_books = Ok (payload, 12)) by (by vm_compute).
  split; [exact H|]. exact (proj1 q4_entries_wellformed twelve_books payload 12 H).
Defined.

(** ** Q2 and the split of the records *)

(** X18. Q2: when [_process_slice] succeeds on the frames, the merged
    entry of a book exists exactly when some record of the frames carries
    its id; its count is the number of its records with a rating, however
    the records are split. Its price is the last price of the book in the
    first frame that holds one: unlike the count, it depends on where the
    frames are cut. *)
Theorem q2_merge_over_the_split (dfs : list dataframe)
    (part_maps : list (gmap string Q2.entry)) (bid : string) :
  Forall2 (λ df part_map, ∃ hits, Q2.process_frame df = Ok (part_map, hits)) dfs part_maps →
  let mine := filter (λ r, q2_grouped bid r = true) (concat (rows <$> dfs)) in
  match Q2.merge_all part_maps !! bid with
  | None => mine = []
  | Some e =>
      mine ≠ []
      ∧ Q2.rcnt e = Z.of_nat (length (filter (λ r, rated r = true) mine))
      ∧ Q2.price e
        = head (omap (λ df, last (omap known_price
                                     (filter (λ r, q2_grouped bid r = true) (rows df)))) dfs)
  end.
Proof.
  intros Hw. destruct (q2_partition_view dfs part_maps bid Hw) as (H1 & H2 & H3).
  cbv zeta in *. destruct (Q2.merge_all part_maps !! bid) as [e|] eqn:He.
  - split; [|split].
    + intros Hnil. apply H3 in Hnil.
      assert (Hnone : Q2.merge_all part_maps !! bid = None).
      { unfold Q2.merge_all, Q2.merge_partial. rewrite lookup_foldl_merge, lookup_empty.
        clear -Hnil. induction Hnil as [|m ms Hm _ IH]; [done|]. simpl. by rewrite Hm. }
      congruence.
    + by rewrite (q2_merged_count _ _ _ He), H1.
    + by rewrite (q2_merged_price _ _ _ He), H2.
  - apply H3. by apply (merged_None Q2.empty_entry Q2.merge_entry).
Qed.

Lemma q2_merge_over_the_split_witness :
  let r1 := Row None None (Some "B1") None (Num (of_Z 2)) (Num (of_Z 5)) in
  let r2 := Row None None (Some "B1") None (Num (of_Z 3)) (Num (of_Z 5)) in
  let cols := ["BId"; "RScore"; "BPrice"] in
  let part_of df :=
    match Q2.process_frame df with Ok (part_map, _) => part_map | Raise _ => ∅ end in
  let one := [DataFrame cols [r1; r2]] in
  let two := [DataFrame cols [r1]; DataFrame cols [r2]] in
  (Forall2 (λ df part_map, ∃ hits, Q2.process_frame df = Ok (part_map, hits))
     one (part_of <$> one)
   ∧ Forall2 (λ df part_map, ∃ hits, Q2.process_frame df = Ok (part_map, hits))
       two (part_of <$> two))
  ∧ (Q2.price <$> Q2.merge_all (part_of <$> one) !! "B1" = Some (Some (of_Z 3))
     ∧ Q2.price <$> Q2.merge_all (part_of <$> two) !! "B1" = Some (Some (of_Z 2)))
  ∧ match Q2.merge_all (part_of <$> two) !! "B1" with
    | None => True
    | Some e => Q2.rcnt e = 2
    end.
Proof.
  intros r1 r2 cols part_of one two.
  assert (H1 : Forall2 (λ df part_map, ∃ hits, Q2.process_frame df = Ok (part_map, hits))
                 one (part_of <$> one)).
  { constructor; [exists 0; by vm_compute|]. constructor. }
  assert (H2 : Forall2 (λ df part_map, ∃ hits, Q2.process_frame df = Ok (part_map, hits))
                 two (part_of <$> two)).
  { constructor; [exists 1; by vm_compute|].
    constructor; [exists 0; by vm_compute|]. constructor. }
  split; [exact (conj H1 H2)|]. split; [by vm_compute|].
  pose proof (q2_merge_over_the_split two (part_of <$> two) "B1" H2) as H.
  cbv zeta in H. destruct (Q2.merge_all (part_of <$> two) !! "B1") as [e|]; [|done].
  destruct H as (_ & -> & _). by vm_compute.
Defined.

(** ** The ten dearest books *)

(** X19. On a global map without NaN prices, the candidates are one pair
    of canonical title and price for each eligible book; the pairs kept
    are the first ten in the order of the sort, dearest first and on an
    equal price the smaller title first, and no candidate left out stands
    before one that is kept. The ten are all the candidates when there
    are at most ten. When their titles are distinct, the final answer is
    these pairs themselves, in this order. *)
Theorem top10_keeps_the_dearest (books : gmap string Q4.info) :
  map_Forall (λ _ i, price_ok i) books →
  let cands := Q4.candidates (map_to_list books) in
  let kept := Q4.top10 cands in
  let left_out := drop 10 (sort_by Q4.key_lt cands) in
  (∃ eligible_books,
     NoDup eligible_books.*1
     ∧ (∀ bid i, (bid, i) ∈ eligible_books
                 ↔ books !! bid = Some i ∧ 0 < Q4.cnt i ∧ Q4.sum i < 4 * Q4.cnt i
                   ∧ Q4.price i ≠ None)
     ∧ Forall2 (λ kv c, c.1 = Q4.pick_title (Q4.title_counts kv.2)
                        ∧ Q4.price kv.2 = Some c.2)
               eligible_books cands)
  ∧ StronglySorted before kept
  ∧ (∀ a b, a ∈ kept → b ∈ left_out → before a b)
  ∧ length kept = (length cands `min` 10)%nat
  ∧ kept ++ left_out ≡ₚ cands
  ∧ (NoDup kept.*1 → Q4.final_answer books = kept).
Proof.
  intros Hok cands kept left_out.
  assert (Hs : StronglySorted before (sort_by Q4.key_lt cands)).
  { apply sort_by_key_sorted. apply Forall_forall. intros [t p] Hin.
    apply elem_of_candidates in Hin as (bid & i & Hi & _ & _ & Hp & _).
    by apply (Hok bid i Hi). }
  assert (Happ : kept ++ left_out = sort_by Q4.key_lt cands) by apply take_drop.
  split; [apply candidates_pinned|]. split; [|split; [|split; [|split]]].
  - rewrite <- Happ in Hs. by eapply (StronglySorted_app_1_l before).
  - intros a b Ha Hb. rewrite <- Happ in Hs.
    by eapply (StronglySorted_app_1_elem_of before).
  - unfold kept, Q4.top10. rewrite length_take, (Permutation_length (sort_by_perm _ cands)). lia.
  - rewrite Happ. apply sort_by_perm.
  - intros Hnd. unfold Q4.final_answer. fold cands. fold kept. by apply dict_of_distinct.
Qed.

Lemma top10_keeps_the_dearest_witness :
  map_Forall (λ _ i, price_ok i) twelve_priced
  ∧ Q4.top10 (Q4.candidates (map_to_list twelve_priced))
    = [("T10", of_Z 25); ("T11", of_Z 25); ("T8", of_Z 24); ("T9", of_Z 24);
       ("T6", of_Z 23); ("T7", of_Z 23); ("T4", of_Z 22); ("T5", of_Z 22);
       ("T2", of_Z 21); ("T3", of_Z 21)]
  ∧ NoDup (Q4.top10 (Q4.candidates (map_to_list twelve_priced))).*1
  ∧ Q4.final_answer twelve_priced = Q4.top10 (Q4.candidates (map_to_list twelve_priced)).
Proof.
  assert (Hok : map_Forall (λ _ i, price_ok i) twelve_priced).
  { assert (Hall : Forall (λ kv, match Q4.price kv.2 with
                                 | Some p => is_nan p = false
                                 | None => True
                                 end) (map_to_list twelve_priced))
      by (vm_compute; repeat constructor).
    intros bid i Hi p Hp. apply elem_of_map_to_list in Hi.
    rewrite Forall_forall in Hall. specialize (Hall (bid, i) Hi). simpl in Hall.
    by rewrite Hp in Hall. }
  assert (Hkept : Q4.top10 (Q4.candidates (map_to_list twelve_priced))
                  = [("T10", of_Z 25); ("T11", of_Z 25); ("T8", of_Z 24); ("T9", of_Z 24);
                     ("T6", of_Z 23); ("T7", of_Z 23); ("T4", of_Z 22); ("T5", of_Z 22);
                     ("T2", of_Z 21); ("T3", of_Z 21)]) by (by vm_compute).
  assert (Hnd : NoDup (Q4.top10 (Q4.candidates (map_to_list twelve_priced))).*1).
  { rewrite Hkept. apply NoDup_ListNoDup. simpl.
    repeat (constructor; [simpl; intuition discriminate|]). constructor. }
  split; [exact Hok|]. split; [exact Hkept|]. split; [exact Hnd|].
  exact (proj2 (proj2 (proj2 (proj2 (proj2 (top10_keeps_the_dearest twelve_priced Hok))))) Hnd).
Defined.

(** ** The ids of the merged map *)

Lemma merged_None_2 {E P : Type} (empty : E) (merge_entry : E → P → E)
    (ps : list (gmap string P)) (k : string) :
  Forall (λ p, p !! k = None) ps → foldl (merge_maps empty merge_entry) ∅ ps !! k = None.
Proof.
  intros Hall. rewrite lookup_foldl_merge, lookup_empty.
  induction Hall as [|p ps Hp _ IH]; [done|]. rewrite fmap_cons. simpl. by rewrite Hp.
Qed.

Lemma merged_is_Some {E P : Type} (empty : E) (merge_entry : E → P → E)
    (ps : list (gmap string P)) (k : string) :
  is_Some (foldl (merge_maps empty merge_entry) ∅ ps !! k)
  ↔ Exists (λ p, is_Some (p !! k)) ps.
Proof.
  split.
  - intros Hsome. destruct (decide (Exists (λ p, is_Some (p !! k)) ps)) as [|Hno]; [done|].
    apply not_Exists_Forall in Hno; [|apply _].
    rewrite merged_None_2 in Hsome; [by destruct Hsome|].
    eapply Forall_impl; [exact Hno|]. intros p Hp. simpl in Hp.
    destruct (p !! k); [|done]. exfalso. apply Hp. by eexists.
  - intros Hex. destruct (foldl _ _ _ !! k) eqn:Hk; [by eexists|].
    apply merged_None in Hk. apply Exists_exists in Hex as (p & Hp & Hsome).
    rewrite Forall_forall in Hk. rewrite (Hk p Hp) in Hsome. by destruct Hsome.
Qed.

(** X20. The three merges lose no id and invent none: the merged map
    holds an entry for an id exactly when one of the partial maps does. *)
Theorem merge_keeps_the_ids (k : string) :
  (∀ ps, is_Some (Q2.merge_all ps !! k) ↔ Exists (λ p, is_Some (p !! k)) ps)
  ∧ (∀ ps, is_Some (Q3.merge_all ps !! k) ↔ Exists (λ p, is_Some (p !! k)) ps)
  ∧ (∀ ps, is_Some (Q4.merge_all ps !! k) ↔ Exists (λ p, is_Some (p !! k)) ps).
Proof. repeat split; apply merged_is_Some. Qed.
